(** * A shallow embedding of the two-pass assembler (AzranOfir/Assembler-C)

    The development follows the repository file by file: [utils.c],
    [commands.c], [labelTable.c], [parser.c], [macro.c], [first_pass.c],
    [second_pass.c] and [assembler.c].  C strings are Rocq [string]s (the
    bytes before the terminating NUL), C [int]s are [Z], a [FILE*] opened for
    reading is the text that is still to be read, and the files a function
    writes are returned as values.

    Conventions:
    - A status result is a [bool]: [true] is [SUCCESS] (1) and [false] is
      [FAILURE] (0); a function that also mutates an argument returns the
      pair.  [get_operand_mode] mixes [FAILURE] with bit masks and keeps its
      [int] result.
    - Messages printed to [stderr] and failures of [malloc] and [fopen] are
      not modelled.
    - A [NULL] pointer result is [None].
    - An [int] has 32 bits.  Where a file can take a value out of the
      [int] range (the data counter [DC], the product [rows * cols] of a
      matrix, the shift of a symbol's address, the casts of [strtol]) the
      wrap-around is written out with [to_int] and [to_unsigned].  The
      instruction counter grows by at most five for a line and stays in
      range for any file of fewer than 400 million lines; it is written
      without the wrap-around. *)

From Stdlib Require Import ZArith NArith String Ascii List Bool Lia.
Import ListNotations.

Local Open Scope Z_scope.

(** ** The C library functions the program calls *)

Module CLib.

Definition NULL_CHAR : ascii := "000"%char.

Definition ord (c : ascii) : N := N_of_ascii c.

Definition ceqb (a b : ascii) : bool := Ascii.eqb a b.

(** [isdigit], [isalpha] and [isalnum] of <ctype.h> in the C locale. *)
Definition isdigit (c : ascii) : bool :=
  (48 <=? ord c)%N && (ord c <=? 57)%N.

Definition isalpha (c : ascii) : bool :=
  ((65 <=? ord c)%N && (ord c <=? 90)%N) || ((97 <=? ord c)%N && (ord c <=? 122)%N).

Definition isalnum (c : ascii) : bool := isalpha c || isdigit c.

(** The C string held by a buffer: the bytes before the first NUL. *)
Fixpoint c_str (buf : string) : string :=
  match buf with
  | EmptyString => EmptyString
  | String c rest => if ceqb c NULL_CHAR then EmptyString else String c (c_str rest)
  end.

Definition strlen (s : string) : nat := String.length s.

(** [s[i]]; the terminator is read at [i = strlen s]. *)
Definition char_at (s : string) (i : nat) : ascii :=
  match String.get i s with
  | Some c => c
  | None => NULL_CHAR
  end.

(** [*s], the first character (NUL for the empty string). *)
Definition head (s : string) : ascii := char_at s 0.

(** [s + 1] for a pointer that is not at the terminator. *)
Definition tail (s : string) : string :=
  match s with
  | EmptyString => EmptyString
  | String _ rest => rest
  end.

Fixpoint mem (c : ascii) (set : string) : bool :=
  match set with
  | EmptyString => false
  | String d rest => ceqb c d || mem c rest
  end.

(** [strchr(s, c)] for [c <> NUL]: the suffix that starts at the first [c]. *)
Fixpoint strchr (s : string) (c : ascii) : option string :=
  match s with
  | EmptyString => None
  | String d rest => if ceqb d c then Some s else strchr rest c
  end.

(** The bytes of [s] before the first [c] (all of [s] when there is none):
    what lies between [s] and [strchr(s, c)]. *)
Fixpoint before (s : string) (c : ascii) : string :=
  match s with
  | EmptyString => EmptyString
  | String d rest => if ceqb d c then EmptyString else String d (before rest c)
  end.

(** [strspn] and [strcspn]. *)
Fixpoint strspn (s set : string) : nat :=
  match s with
  | EmptyString => O
  | String c rest => if mem c set then S (strspn rest set) else O
  end.

Fixpoint strcspn (s set : string) : nat :=
  match s with
  | EmptyString => O
  | String c rest => if mem c set then O else S (strcspn rest set)
  end.

(** Dropping the longest prefix whose characters satisfy [p], and taking it:
    the loops [while (p( *s )) s++] and their copying variants. *)
Fixpoint drop_while (p : ascii -> bool) (s : string) : string :=
  match s with
  | EmptyString => EmptyString
  | String c rest => if p c then drop_while p rest else s
  end.

Fixpoint take_while (p : ascii -> bool) (s : string) : string :=
  match s with
  | EmptyString => EmptyString
  | String c rest => if p c then String c (take_while p rest) else EmptyString
  end.

(** The first call [strtok(s, delims)]: the first token, if any. *)
Definition strtok (s delims : string) : option string :=
  match drop_while (fun c => mem c delims) s with
  | EmptyString => None
  | t => Some (take_while (fun c => negb (mem c delims)) t)
  end.

(** [strncpy(dst, src, n); dst[n] = 0]: at most [n] bytes of [src]. *)
Fixpoint strncpy (n : nat) (src : string) : string :=
  match n, src with
  | S k, String c rest => String c (strncpy k rest)
  | _, _ => EmptyString
  end.

Fixpoint forall_chars (p : ascii -> bool) (s : string) : bool :=
  match s with
  | EmptyString => true
  | String c rest => p c && forall_chars p rest
  end.

(** [strtol(s, NULL, 10)]: optional blanks, optional sign, then the longest
    run of decimal digits; 0 when there is none. *)
Fixpoint digits_value (acc : Z) (s : string) : Z :=
  match s with
  | EmptyString => acc
  | String c rest =>
      if isdigit c then digits_value (10 * acc + (Z.of_N (ord c) - 48)) rest else acc
  end.

Definition isspace (c : ascii) : bool :=
  ((9 <=? ord c)%N && (ord c <=? 13)%N) || (ord c =? 32)%N.

(** The result is clamped to the range of a 64-bit [long]. *)
Definition strtol (s : string) : Z :=
  let t := drop_while isspace s in
  let v :=
    if ceqb (head t) "-"%char then - digits_value 0 (tail t)
    else if ceqb (head t) "+"%char then digits_value 0 (tail t)
    else digits_value 0 t in
  Z.max (- 2 ^ 63) (Z.min (2 ^ 63 - 1) v).

(** [(unsigned int) value] and [(int) value] for a 32-bit [int]. *)
Definition to_unsigned (value : Z) : Z := value mod 2 ^ 32.

Definition to_int (value : Z) : Z := (value + 2 ^ 31) mod 2 ^ 32 - 2 ^ 31.

(** A pointer result that is not [NULL]. *)
Definition found {A : Type} (p : option A) : bool :=
  match p with
  | Some _ => true
  | None => false
  end.

(** The buffers that successive calls [fgets(line, size, file)] fill until
    end of file: each call reads up to [size - 1] bytes and stops after a
    newline.  [cur] is the part of the current buffer read so far, in
    reverse, and [room] how many more bytes it can take. *)
Fixpoint rev_string (acc : string) (s : string) : string :=
  match s with
  | EmptyString => acc
  | String c rest => rev_string (String c acc) rest
  end.

Fixpoint fgets_loop (size : nat) (room : nat) (cur : string) (file : string) : list string :=
  match file with
  | EmptyString =>
      match cur with
      | EmptyString => []
      | _ => [c_str (rev_string EmptyString cur)]
      end
  | String c rest =>
      if ceqb c "010"%char || (room =? 1)%nat
      then c_str (rev_string EmptyString (String c cur)) :: fgets_loop size (size - 1) EmptyString rest
      else fgets_loop size (room - 1) (String c cur) rest
  end.

Definition fgets_all (size : nat) (file : string) : list string :=
  fgets_loop size (size - 1) EmptyString file.

(** [strrchr(s, c)] for [c <> NUL]: the suffix that starts at the last
    [c]. *)
Fixpoint strrchr (s : string) (c : ascii) : option string :=
  match s with
  | EmptyString => None
  | String d rest =>
      match strrchr rest c with
      | Some p => Some p
      | None => if ceqb d c then Some s else None
      end
  end.

(** The string left in the buffer [s] by the store [*p = NUL] through a
    pointer [p] into it: the bytes of [s] before [p]. *)
Definition cut_at (s p : string) : string :=
  String.substring 0 (strlen s - strlen p) s.

End CLib.
Import CLib.

(** ** utils.h: constants *)

Definition MAX_LINE_LENGTH : nat := 81.
Definition MAX_MACRO_NAME : nat := 31.
Definition MAX_LABEL_LENGTH : nat := 31.
Definition MAX_MACRO_BODY : nat := 1000.
Definition MAX_OPERANDS : nat := 1000.

Definition SPACE_CHAR : ascii := " "%char.
Definition TAB_CHAR : ascii := "009"%char.
Definition NEWLINE_CHAR : ascii := "010"%char.
Definition COLON : ascii := ":"%char.
Definition DOT_CHAR : ascii := "."%char.
Definition OPEN_BRACKET : ascii := "["%char.
Definition CLOSE_BRACKET : ascii := "]"%char.
Definition COMMA_CHAR : ascii := ","%char.
Definition QUOTE_CHAR : ascii := "034"%char.
Definition SEMICOLON_CHAR : ascii := ";"%char.
Definition CARRIAGE_RETURN_CHAR : ascii := "013"%char.
Definition PLUS_SIGN : ascii := "+"%char.
Definition MINUS_SIGN : ascii := "-"%char.
Definition IMMEDIATE_PREFIX : ascii := "#"%char.
Definition REGISTER_PREFIX_CHAR : ascii := "r"%char.
Definition MIN_REGISTER_CHAR : ascii := "0"%char.
Definition MAX_REGISTER_CHAR : ascii := "7"%char.
Definition UNDERSCORE_CHAR : ascii := "_"%char.
Definition BASE4_LETTER_OFFSET : ascii := "a"%char.

Definition SUCCESS : Z := 1.
Definition FAILURE : Z := 0.
Definition INITIAL_IC : Z := 100.
Definition INITIAL_DC : Z := 0.

Definition TEN_BIT_MASK : Z := 1023.
Definition FOUR_BIT_MASK : Z := 15.
Definition EIGHT_BIT_MASK : Z := 255.
Definition SEVEN_BIT_MASK : Z := 7.
Definition THREE_FC_MASK : Z := 1020.
Definition REGISTER_NAME_LENGTH : nat := 2.
Definition MATRIX_DIMENSION_STRING_LENGTH : nat := 10.

Definition DIRECTIVE_DATA : string := ".data".
Definition DIRECTIVE_STRING : string := ".string".
Definition DIRECTIVE_MAT : string := ".mat".
Definition DIRECTIVE_EXTERN : string := ".extern".
Definition DIRECTIVE_ENTRY : string := ".entry".

(** [WHITESPACE_CHARS] is the literal of blank, tab, newline and carriage
    return. *)
Definition WHITESPACE_CHARS : string :=
  String SPACE_CHAR (String TAB_CHAR (String NEWLINE_CHAR (String CARRIAGE_RETURN_CHAR EmptyString))).

(** [CONTROL_CHARS] is the literal ["\x00-\x1F\x7F"]: the four bytes 0x00,
    '-', 0x1F, 0x7F.  Passed to [strcspn] it is read as a C string, which
    ends at its first byte. *)
Definition CONTROL_CHARS_LITERAL : string :=
  String "000"%char (String "-"%char (String "031"%char (String "127"%char EmptyString))).
Definition CONTROL_CHARS : string := c_str CONTROL_CHARS_LITERAL.

(** Addressing-mode bit masks of [commands.h]. *)
Definition IMMEDIATE : Z := 1.
Definition DIRECT : Z := 2.
Definition MATRIX_ACCESS : Z := 4.
Definition REGISTER : Z := 8.
Definition NO_OPERANDS : Z := 0.
Definition SINGLE_OPERAND : Z := 1.
Definition DOUBLE_OPERAND : Z := 2.

(** [addressing_mode] and [are_type] of [utils.h], with their enum values. *)
Inductive addressing_mode := MODE_IMMEDIATE | MODE_DIRECT | MODE_MATRIX | MODE_REGISTER.

Definition mode_value (m : addressing_mode) : Z :=
  match m with
  | MODE_IMMEDIATE => 0
  | MODE_DIRECT => 1
  | MODE_MATRIX => 2
  | MODE_REGISTER => 3
  end.

Inductive are_type := ARE_ABSOLUTE | ARE_EXTERNAL | ARE_RELOCATABLE.

Definition are_value (a : are_type) : Z :=
  match a with
  | ARE_ABSOLUTE => 0
  | ARE_EXTERNAL => 1
  | ARE_RELOCATABLE => 2
  end.

(** [separate_line]: a parsed line.  [operands] holds the first
    [how_many_operands] entries of the C array; the entries after them are
    [NULL]. *)
Record separate_line := {
  label : option string;
  operands : list string;
  command : option string
}.

Definition how_many_operands (parts : separate_line) : Z :=
  Z.of_nat (List.length (operands parts)).

(** [parts->operands[i]], [NULL] past the operands that were parsed. *)
Definition operand (parts : separate_line) (i : nat) : option string :=
  nth_error (operands parts) i.

(** ** commands.c: the instruction table *)

Module Commands.

(** [opcode_types]. *)
Definition MOV : Z := 0.
Definition CMP : Z := 1.
Definition ADD : Z := 2.
Definition SUB : Z := 3.
Definition LEA : Z := 4.
Definition CLR : Z := 5.
Definition NOT : Z := 6.
Definition INC : Z := 7.
Definition DEC : Z := 8.
Definition JMP : Z := 9.
Definition BNE : Z := 10.
Definition JSR : Z := 11.
Definition RED : Z := 12.
Definition PRN : Z := 13.
Definition RTS : Z := 14.
Definition STOP : Z := 15.

Record command_instructions := {
  name : string;
  opcode : Z;
  num_of_operands : Z;
  source_mode : Z;
  destination_mode : Z
}.

Definition all_modes : Z := Z.lor (Z.lor (Z.lor IMMEDIATE DIRECT) MATRIX_ACCESS) REGISTER.
Definition dir_mat_reg : Z := Z.lor (Z.lor DIRECT MATRIX_ACCESS) REGISTER.
Definition dir_mat : Z := Z.lor DIRECT MATRIX_ACCESS.

Definition instruction_table : list command_instructions :=
  [ {| name := "mov"; opcode := MOV; num_of_operands := DOUBLE_OPERAND;
       source_mode := all_modes; destination_mode := dir_mat_reg |};
    {| name := "cmp"; opcode := CMP; num_of_operands := DOUBLE_OPERAND;
       source_mode := all_modes; destination_mode := all_modes |};
    {| name := "add"; opcode := ADD; num_of_operands := DOUBLE_OPERAND;
       source_mode := all_modes; destination_mode := dir_mat_reg |};
    {| name := "sub"; opcode := SUB; num_of_operands := DOUBLE_OPERAND;
       source_mode := all_modes; destination_mode := dir_mat_reg |};
    {| name := "not"; opcode := NOT; num_of_operands := SINGLE_OPERAND;
       source_mode := NO_OPERANDS; destination_mode := dir_mat_reg |};
    {| name := "clr"; opcode := CLR; num_of_operands := SINGLE_OPERAND;
       source_mode := NO_OPERANDS; destination_mode := dir_mat_reg |};
    {| name := "lea"; opcode := LEA; num_of_operands := DOUBLE_OPERAND;
       source_mode := dir_mat; destination_mode := REGISTER |};
    {| name := "inc"; opcode := INC; num_of_operands := SINGLE_OPERAND;
       source_mode := NO_OPERANDS; destination_mode := dir_mat_reg |};
    {| name := "dec"; opcode := DEC; num_of_operands := SINGLE_OPERAND;
       source_mode := NO_OPERANDS; destination_mode := dir_mat_reg |};
    {| name := "jmp"; opcode := JMP; num_of_operands := SINGLE_OPERAND;
       source_mode := NO_OPERANDS; destination_mode := dir_mat |};
    {| name := "bne"; opcode := BNE; num_of_operands := SINGLE_OPERAND;
       source_mode := NO_OPERANDS; destination_mode := dir_mat |};
    {| name := "red"; opcode := RED; num_of_operands := SINGLE_OPERAND;
       source_mode := NO_OPERANDS; destination_mode := dir_mat_reg |};
    {| name := "prn"; opcode := PRN; num_of_operands := SINGLE_OPERAND;
       source_mode := NO_OPERANDS; destination_mode := all_modes |};
    {| name := "jsr"; opcode := JSR; num_of_operands := SINGLE_OPERAND;
       source_mode := NO_OPERANDS; destination_mode := dir_mat |};
    {| name := "rts"; opcode := RTS; num_of_operands := NO_OPERANDS;
       source_mode := NO_OPERANDS; destination_mode := NO_OPERANDS |};
    {| name := "stop"; opcode := STOP; num_of_operands := NO_OPERANDS;
       source_mode := NO_OPERANDS; destination_mode := NO_OPERANDS |} ].

(** [get_instruction]: the first row of the table with this name. *)
Definition get_instruction (command_name : option string) : option command_instructions :=
  match command_name with
  | None => None
  | Some n => List.find (fun row => String.eqb n (name row)) instruction_table
  end.

End Commands.
Import Commands.

(** ** utils.c: lexical helpers and the base-4 encoders *)

Definition is_valid_directive (name : string) : bool :=
  String.eqb name DIRECTIVE_DATA || String.eqb name DIRECTIVE_STRING
  || String.eqb name DIRECTIVE_MAT || String.eqb name DIRECTIVE_EXTERN
  || String.eqb name DIRECTIVE_ENTRY.

Definition is_valid_opcode (name : string) : bool :=
  existsb (fun row => String.eqb name (Commands.name row)) instruction_table.

(** The shape [r0] .. [r7] tested by several functions: length 2, first
    character ['r'], second between ['0'] and ['7']. *)
Definition register_char (c : ascii) : bool :=
  (ord MIN_REGISTER_CHAR <=? ord c)%N && (ord c <=? ord MAX_REGISTER_CHAR)%N.

Definition is_valid_macro_name (name : string) : bool :=
  if (strlen name <? 1)%nat then false
  else if negb (isalpha (head name)) then false
  else if is_valid_opcode name then false
  else if (strlen name =? REGISTER_NAME_LENGTH)%nat && ceqb (head name) REGISTER_PREFIX_CHAR
          && register_char (char_at name 1) then false
  else forall_chars (fun c => isalnum c || ceqb c UNDERSCORE_CHAR) name.

(** [is_valid_label(label, print_errors)]; the flag only selects whether a
    message is printed. *)
Definition is_valid_label (label : string) : bool :=
  if (strlen label =? 0)%nat then false
  else if (MAX_LABEL_LENGTH - 1 <? strlen label)%nat then false
  else if negb (isalpha (head label)) then false
  else if negb (forall_chars (fun c => isalpha c || isdigit c) (tail label)) then false
  else if is_valid_opcode label then false
  else if (strlen label =? REGISTER_NAME_LENGTH)%nat && ceqb (head label) REGISTER_PREFIX_CHAR
          && register_char (char_at label 1) then false
  else true.

Definition is_valid_register (reg_str : string) : bool :=
  if negb (strlen reg_str =? REGISTER_NAME_LENGTH)%nat then false
  else if negb (ceqb (head reg_str) REGISTER_PREFIX_CHAR) then false
  else if negb (register_char (char_at reg_str 1)) then false
  else true.

(** [parse_matrix_access]: the operand has the form [label[reg][reg]]. *)
Definition parse_matrix_access (operand : string) : bool :=
  match strchr operand OPEN_BRACKET with
  | None => false
  | Some first_bracket =>
  match strchr (tail first_bracket) CLOSE_BRACKET with
  | None => false
  | Some first_close =>
  match strchr (tail first_close) OPEN_BRACKET with
  | None => false
  | Some second_bracket =>
  match strchr (tail second_bracket) CLOSE_BRACKET with
  | None => false
  | Some second_close =>
      let copy := before operand OPEN_BRACKET in
      if (strlen copy =? 0)%nat || negb (is_valid_label copy) then false
      else if negb (strlen (before (tail first_bracket) CLOSE_BRACKET) =? 2)%nat then false
      else
        let reg1 := strncpy 2 (tail first_bracket) in
        if negb (strlen (before (tail second_bracket) CLOSE_BRACKET) =? 2)%nat then false
        else
          let reg2 := strncpy 2 (tail second_bracket) in
          is_valid_register reg1 && is_valid_register reg2
  end end end end.

(** The loop shared by the two encoders: [result[i] = 'a' + word % 4;
    word /= 4] for [i] from [digits - 1] down to 0. *)
Fixpoint base4_fill (digits : nat) (word : Z) : string :=
  match digits with
  | O => EmptyString
  | S k =>
      String.append (base4_fill k (word / 4))
        (String (ascii_of_N (ord BASE4_LETTER_OFFSET + Z.to_N (word mod 4))) EmptyString)
  end.

(** [number_to_base4_letters]: four digits, used for addresses. *)
Definition number_to_base4_letters (value : Z) : string :=
  base4_fill 4 (to_unsigned value).

(** [number_to_base4_code]: five digits of the low ten bits. *)
Definition number_to_base4_code (value : Z) : string :=
  base4_fill 5 (Z.land (to_unsigned value) TEN_BIT_MASK).

Definition is_valid_number (str : string) : bool :=
  if (strlen str =? 0)%nat then false
  else
    let start := if ceqb (head str) PLUS_SIGN || ceqb (head str) MINUS_SIGN then tail str else str in
    forall_chars isdigit start.

(** [get_operand_mode]: the bit mask of the operand's addressing mode, or
    [FAILURE]. *)
Definition get_operand_mode (operand : option string) : Z :=
  match operand with
  | None => FAILURE
  | Some operand =>
      if ceqb (head operand) QUOTE_CHAR then
        if (2 <=? strlen operand)%nat && ceqb (char_at operand (strlen operand - 1)) QUOTE_CHAR
        then IMMEDIATE else FAILURE
      else if (strlen operand =? REGISTER_NAME_LENGTH)%nat && ceqb (head operand) REGISTER_PREFIX_CHAR then
        if register_char (char_at operand 1) then REGISTER else FAILURE
      else if ceqb (head operand) IMMEDIATE_PREFIX then
        let num_part := tail operand in
        if (strlen num_part =? 0)%nat then FAILURE
        else
          let num_part :=
            if ceqb (head num_part) PLUS_SIGN || ceqb (head num_part) MINUS_SIGN
            then tail num_part else num_part in
          if forall_chars isdigit num_part then IMMEDIATE else FAILURE
      else if found (strchr operand OPEN_BRACKET) && found (strchr operand CLOSE_BRACKET) then
        if parse_matrix_access operand then MATRIX_ACCESS else FAILURE
      else if (0 <? strlen operand)%nat && isalpha (head operand)
              && forall_chars (fun c => isalpha c || isdigit c) operand then DIRECT
      else FAILURE
  end.

(** [extract_base_filename]: the file name up to its last dot, the whole
    name when it has none. *)
Definition extract_base_filename (filename : string) : string :=
  match strrchr filename DOT_CHAR with
  | Some suffix_start => cut_at filename suffix_start
  | None => filename
  end.

(** [check_instruction] of commands.c: the addressing modes [source] and
    [destination] (bit masks) against the row of the instruction.  No other
    function of the program calls it. *)
Definition check_instruction (command_name : option string) (source destination : Z) : bool :=
  match get_instruction command_name with
  | None => false
  | Some instruction =>
      if num_of_operands instruction =? SINGLE_OPERAND then
        if Z.land destination (destination_mode instruction) =? NO_OPERANDS then false
        else true
      else if num_of_operands instruction =? DOUBLE_OPERAND then
        if Z.land destination (destination_mode instruction) =? NO_OPERANDS then false
        else if Z.land source (source_mode instruction) =? NO_OPERANDS then false
        else true
      else true
  end.

(** [check_line] of commands.c: the validation of a parsed line against the
    instruction table.  No other function of the program calls it. *)
Definition check_line (line : separate_line) : bool :=
  match command line with
  | None => false
  | Some _ =>
      if (match label line with Some l => negb (is_valid_label l) | None => false end) then false
      else
        match get_instruction (command line) with
        | None => false
        | Some instruction =>
            if negb (how_many_operands line =? num_of_operands instruction) then false
            else if num_of_operands instruction =? SINGLE_OPERAND then
              let dest_mode := get_operand_mode (operand line 0) in
              if dest_mode =? FAILURE then false
              else if Z.land dest_mode (destination_mode instruction) =? NO_OPERANDS then false
              else true
            else if num_of_operands instruction =? DOUBLE_OPERAND then
              let source_mode := get_operand_mode (operand line 0) in
              let dest_mode := get_operand_mode (operand line 1) in
              if (source_mode =? FAILURE) || (dest_mode =? FAILURE) then false
              else if Z.land source_mode (Commands.source_mode instruction) =? NO_OPERANDS then false
              else if Z.land dest_mode (destination_mode instruction) =? NO_OPERANDS then false
              else true
            else true
        end
  end.

(** ** labelTable.c: the symbol table, a linked list with insertion at the head *)

Module LabelTable.

Inductive label_type := LABEL_CODE | LABEL_DATA | LABEL_EXTERNAL | LABEL_ENTRY.

Definition label_type_eqb (a b : label_type) : bool :=
  match a, b with
  | LABEL_CODE, LABEL_CODE | LABEL_DATA, LABEL_DATA
  | LABEL_EXTERNAL, LABEL_EXTERNAL | LABEL_ENTRY, LABEL_ENTRY => true
  | _, _ => false
  end.

Record label_node := {
  name : string;
  address : Z;
  type : label_type;
  is_defined : bool
}.

(** [table->head] and the [next] links; [table->count] is the length. *)
Definition label_table := list label_node.

Definition init_label_table : label_table := [].

Definition find_label (table : label_table) (nm : string) : option label_node :=
  List.find (fun current => String.eqb (name current) nm) table.

(** A store through the pointer [find_label] returned: [f] is applied to
    the first node with this name. *)
Fixpoint update_label (table : label_table) (nm : string) (f : label_node -> label_node)
  : label_table :=
  match table with
  | [] => []
  | current :: next =>
      if String.eqb (name current) nm then f current :: next
      else current :: update_label next nm f
  end.

Definition set_address (a : Z) (n : label_node) : label_node :=
  {| name := name n; address := a; type := type n; is_defined := is_defined n |}.

Definition set_type (t : label_type) (n : label_node) : label_node :=
  {| name := name n; address := address n; type := t; is_defined := is_defined n |}.

Definition set_defined (n : label_node) : label_node :=
  {| name := name n; address := address n; type := type n; is_defined := true |}.

Definition add_label (table : label_table) (nm : string) (addr : Z) (ty : label_type)
  : bool * label_table :=
  if negb (is_valid_label nm) then (false, table)
  else if found (find_label table nm) then (false, table)
  else (true, {| name := nm; address := addr; type := ty; is_defined := false |} :: table).

Definition mark_label_defined (table : label_table) (nm : string) : bool * label_table :=
  match find_label table nm with
  | None => (false, table)
  | Some label =>
      if is_defined label then (false, table)
      else (true, update_label table nm set_defined)
  end.

(** [find_label_with_error]: [find_label], with a message when the label
    is missing. *)
Definition find_label_with_error (table : label_table) (nm : string) : option label_node :=
  find_label table nm.

Definition update_label_address (table : label_table) (nm : string) (new_address : Z)
  : bool * label_table :=
  match find_label table nm with
  | None => (false, table)
  | Some label =>
      if negb (is_defined label) then (false, table)
      else (true, update_label table nm (set_address new_address))
  end.

(** [delete_label]: the search with [prev_label] and [current_label], and
    the unlinking of the first node with this name. *)
Fixpoint delete_label (table : label_table) (nm : string) : bool * label_table :=
  match table with
  | [] => (false, [])
  | current_label :: next =>
      if String.eqb (name current_label) nm then (true, next)
      else
        let (deleted, rest) := delete_label next nm in
        (deleted, current_label :: rest)
  end.

Definition free_label_table (table : label_table) : label_table := [].

End LabelTable.
Import LabelTable.

(** ** parser.c *)

Module Parser.

Definition is_blank (c : ascii) : bool := ceqb c SPACE_CHAR || ceqb c TAB_CHAR.

(** [while ( *p == SPACE_CHAR || *p == TAB_CHAR) p++]. *)
Definition skip_blanks (s : string) : string := drop_while is_blank s.

Definition extract_label (line : string) : option string :=
  let line := skip_blanks line in
  match strchr line COLON with
  | None => None
  | Some before_colon =>
      let label := before line COLON in
      if (strlen label =? 0)%nat then None
      else if (MAX_LABEL_LENGTH - 1 <? strlen label)%nat then None
      else if negb (is_valid_label label) then None
      else Some label
  end.

(** [handle_label_extraction]: the label, if the line has a colon, and the
    rest of the line. *)
Definition handle_label_extraction (line_copy : string) : option (option string * string) :=
  match strchr line_copy COLON with
  | Some colon_pos =>
      match extract_label line_copy with
      | None => None
      | Some label => Some (Some label, tail colon_pos)
      end
  | None => Some (None, line_copy)
  end.

Definition extract_command (line : string) : option string :=
  let line_copy := strncpy (MAX_LINE_LENGTH - 1) line in
  let line_ptr := skip_blanks line_copy in
  match strtok line_ptr WHITESPACE_CHARS with
  | None => None
  | Some token =>
      if (strlen token =? 0)%nat then None
      else if negb (is_valid_opcode token) && negb (is_valid_directive token) then None
      else Some token
  end.

(** The copy loop of a quoted operand, after its opening quote. *)
Fixpoint read_quoted (operand_index : nat) (current_pos : string) : string * string :=
  match current_pos with
  | EmptyString => (EmptyString, EmptyString)
  | String c rest =>
      if ceqb c QUOTE_CHAR || negb (operand_index <? MAX_LINE_LENGTH)%nat
      then (EmptyString, current_pos)
      else let (copied, after) := read_quoted (S operand_index) rest in
           (String c copied, after)
  end.

Definition ends_operand (c : ascii) : bool :=
  ceqb c COMMA_CHAR || ceqb c SPACE_CHAR || ceqb c TAB_CHAR
  || ceqb c NEWLINE_CHAR || ceqb c CARRIAGE_RETURN_CHAR.

(** The copy loop of an operand that is not quoted. *)
Fixpoint read_plain (operand_index : nat) (current_pos : string) : string * string :=
  match current_pos with
  | EmptyString => (EmptyString, EmptyString)
  | String c rest =>
      if ends_operand c || negb (operand_index <? MAX_LINE_LENGTH)%nat
      then (EmptyString, current_pos)
      else let (copied, after) := read_plain (S operand_index) rest in
           (String c copied, after)
  end.

Definition at_line_end (c : ascii) : bool :=
  ceqb c NULL_CHAR || ceqb c NEWLINE_CHAR || ceqb c CARRIAGE_RETURN_CHAR.

(** The loop [while ( *current_pos && operand_count < MAX_OPERANDS)] that
    collects the operands; [None] is the error return on a comma followed
    by a comma or by the end of the line.  Every iteration that continues
    consumes at least one character, so [fuel] above the length of
    [current_pos] is never used up. *)
Fixpoint operands_loop (fuel : nat) (current_pos : string) (operands : list string)
  : option (list string) :=
  match fuel with
  | O => Some operands
  | S fuel =>
      if (strlen current_pos =? 0)%nat || negb (List.length operands <? MAX_OPERANDS)%nat
      then Some operands
      else
        let current_pos := skip_blanks current_pos in
        if at_line_end (head current_pos) then Some operands
        else
          let '(current_operand, current_pos) :=
            if ceqb (head current_pos) QUOTE_CHAR then
              let (copied, after) := read_quoted 1 (tail current_pos) in
              if ceqb (head after) QUOTE_CHAR
              then (String QUOTE_CHAR (String.append copied (String QUOTE_CHAR EmptyString)),
                    tail after)
              else (String QUOTE_CHAR copied, after)
            else read_plain 0 current_pos in
          let operands := (operands ++ [current_operand])%list in
          let current_pos := skip_blanks current_pos in
          if ceqb (head current_pos) COMMA_CHAR then
            let current_pos := tail current_pos in
            let temp_pos := skip_blanks current_pos in
            if ceqb (head temp_pos) COMMA_CHAR || at_line_end (head temp_pos) then None
            else operands_loop fuel current_pos operands
          else operands_loop fuel current_pos operands
  end.

(** [extract_operands]: [None] is the [NULL] result, with [*count = 0]. *)
Definition extract_operands (line : string) : option (list string) :=
  let line_copy := strncpy (MAX_LINE_LENGTH - 1) line in
  let current_pos := skip_blanks line_copy in
  let current_pos :=
    drop_while (fun c => negb (ceqb c SPACE_CHAR || ceqb c TAB_CHAR || ceqb c NEWLINE_CHAR))
      current_pos in
  let current_pos := skip_blanks current_pos in
  if (strlen current_pos =? 0)%nat || ceqb (head current_pos) NEWLINE_CHAR then None
  else operands_loop (S (strlen current_pos)) current_pos [].

Definition parse_line (line : string) : option separate_line :=
  if (strlen line =? 0)%nat then None
  else
    let line_len := strlen line in
    if (MAX_LINE_LENGTH <=? line_len)%nat then None
    else if (strspn line WHITESPACE_CHARS =? line_len)%nat then None
    else if negb (strcspn line CONTROL_CHARS =? line_len)%nat then None
    else
      let line_copy := strncpy (MAX_LINE_LENGTH - 1) line in
      match handle_label_extraction line_copy with
      | None => None
      | Some (label, rest) =>
          let rest := skip_blanks rest in
          if (strlen rest =? 0)%nat
          then Some {| label := label; operands := []; command := None |}
          else
            match extract_command rest with
            | None => None
            | Some command =>
                let operands :=
                  match extract_operands rest with
                  | Some operands => operands
                  | None => []
                  end in
                Some {| label := label; operands := operands; command := Some command |}
            end
      end.

End Parser.
Import Parser.

(** ** first_pass.c *)

Module FirstPass.

Definition is_command (cmd : option string) (directive : string) : bool :=
  match cmd with
  | None => false
  | Some c => String.eqb c directive
  end.

Definition is_data_directive (cmd : option string) : bool := is_command cmd DIRECTIVE_DATA.
Definition is_string_directive (cmd : option string) : bool := is_command cmd DIRECTIVE_STRING.
Definition is_mat_directive (cmd : option string) : bool := is_command cmd DIRECTIVE_MAT.
Definition is_extern_directive (cmd : option string) : bool := is_command cmd DIRECTIVE_EXTERN.
Definition is_entry_directive (cmd : option string) : bool := is_command cmd DIRECTIVE_ENTRY.

(** [parse_matrix_dimensions]: the rows and columns of [[rows][cols]]. *)
Definition parse_matrix_dimensions (operand : string) : option (Z * Z) :=
  match strchr operand OPEN_BRACKET with
  | None => None
  | Some first_bracket =>
  match strchr (tail first_bracket) CLOSE_BRACKET with
  | None => None
  | Some second_bracket =>
  match strchr (tail second_bracket) OPEN_BRACKET with
  | None => None
  | Some third_bracket =>
  match strchr (tail third_bracket) CLOSE_BRACKET with
  | None => None
  | Some fourth_bracket =>
      let rows_str := before (tail first_bracket) CLOSE_BRACKET in
      if (strlen rows_str <=? 0)%nat || (MATRIX_DIMENSION_STRING_LENGTH <=? strlen rows_str)%nat
      then None
      else
        let cols_str := before (tail third_bracket) CLOSE_BRACKET in
        if (strlen cols_str <=? 0)%nat || (MATRIX_DIMENSION_STRING_LENGTH <=? strlen cols_str)%nat
        then None
        else if negb (forall_chars isdigit rows_str) then None
        else if negb (forall_chars isdigit cols_str) then None
        else
          let rows := to_int (strtol rows_str) in
          let cols := to_int (strtol cols_str) in
          if (rows <=? 0) || (cols <=? 0) then None else Some (rows, cols)
  end end end end.

(** [estimate_ic_words]: the number of words of an instruction, 0 on
    error. *)
Definition estimate_ic_words (parts : separate_line) : Z :=
  match get_instruction (command parts) with
  | None => 0
  | Some inst =>
      let words := 1 in
      if num_of_operands inst =? 0 then words
      else if num_of_operands inst =? 1 then
        let dst_mode := get_operand_mode (operand parts 0) in
        if dst_mode =? FAILURE then 0
        else if dst_mode =? MATRIX_ACCESS then words + 2
        else words + 1
      else if num_of_operands inst =? 2 then
        let src_mode := get_operand_mode (operand parts 0) in
        let dst_mode := get_operand_mode (operand parts 1) in
        if (src_mode =? FAILURE) || (dst_mode =? FAILURE) then 0
        else if (src_mode =? REGISTER) && (dst_mode =? REGISTER) then words + 1
        else
          let words := if src_mode =? MATRIX_ACCESS then words + 2 else words + 1 in
          let words := if dst_mode =? MATRIX_ACCESS then words + 2 else words + 1 in
          words
      else words
  end.

(** The stores [define_label] makes through [existing]: the address, the
    type unless the node is an entry, and the defined flag. *)
Definition define_existing (addr : Z) (ty : label_type) (existing : label_node) : label_node :=
  let existing := set_address addr existing in
  let existing :=
    if negb (label_type_eqb (type existing) LABEL_ENTRY) then set_type ty existing
    else existing in
  set_defined existing.

Definition define_label (table : label_table) (nm : string) (addr : Z) (ty : label_type)
  : bool * label_table :=
  match find_label table nm with
  | Some existing =>
      if is_defined existing then (false, table)
      else (true, update_label table nm (define_existing addr ty))
  | None =>
      let (added, table) := add_label table nm addr ty in
      if added then
        let (marked, table) := mark_label_defined table nm in
        (marked, table)
      else
        match find_label table nm with
        | Some existing =>
            if negb (is_defined existing)
            then (true, update_label table nm (define_existing addr ty))
            else (false, table)
        | None => (false, table)
        end
  end.

(** The check of one numeric operand of [.data] and [.mat]. *)
Definition numeric_operand (op : string) : bool :=
  let op := if ceqb (head op) PLUS_SIGN || ceqb (head op) MINUS_SIGN then tail op else op in
  if (strlen op =? 0)%nat || negb (isdigit (head op)) then false
  else forall_chars isdigit op.

(** The loop of the [.extern] branch. *)
Fixpoint extern_loop (ops : list string) (table : label_table) : bool * label_table :=
  match ops with
  | [] => (true, table)
  | op :: rest =>
      match find_label table op with
      | Some ex =>
          if is_defined ex then (false, table) else extern_loop rest table
      | None => extern_loop rest (snd (add_label table op 0 LABEL_EXTERNAL))
      end
  end.

(** The loop of the [.entry] branch. *)
Fixpoint entry_loop (ops : list string) (table : label_table) : label_table :=
  match ops with
  | [] => table
  | op :: rest =>
      match find_label table op with
      | Some en =>
          if is_defined en then
            if negb (label_type_eqb (type en) LABEL_DATA)
            then entry_loop rest (update_label table op (set_type LABEL_ENTRY))
            else entry_loop rest table
          else entry_loop rest (update_label table op (set_type LABEL_ENTRY))
      | None => entry_loop rest (snd (add_label table op 0 LABEL_ENTRY))
      end
  end.

(** The state the first pass threads through its lines: the table and the
    counters behind the pointers [IC] and [DC]. *)
Record counters := {
  table : label_table;
  IC : Z;
  DC : Z
}.

(** [if (had_label) define_label(...)], then the update of a counter. *)
Definition define_if_labelled (parts : separate_line) (st : counters) (addr : Z)
    (ty : label_type) : bool * label_table :=
  match label parts with
  | Some l => define_label (table st) l addr ty
  | None => (true, table st)
  end.

Definition process_line (line : string) (st : counters) : bool * counters :=
  let line := skip_blanks line in
  let line := if ceqb (head line) CARRIAGE_RETURN_CHAR then tail line else line in
  if ceqb (head line) NULL_CHAR || ceqb (head line) NEWLINE_CHAR
     || ceqb (head line) SEMICOLON_CHAR then (true, st)
  else
    match parse_line line with
    | None => (false, st)
    | Some parts =>
        if is_data_directive (command parts) then
          if negb (forallb numeric_operand (operands parts)) then (false, st)
          else
            let count := how_many_operands parts in
            let (ok, tbl) := define_if_labelled parts st (DC st) LABEL_DATA in
            if negb ok then (false, {| table := tbl; IC := IC st; DC := DC st |})
            else (true, {| table := tbl; IC := IC st; DC := to_int (DC st + count) |})
        else if is_string_directive (command parts) then
          match operands parts with
          | [s] =>
              if negb (ceqb (head s) QUOTE_CHAR) then (false, st)
              else
                let len := strlen s in
                if (len <? 2)%nat || negb (ceqb (char_at s (len - 1)) QUOTE_CHAR) then (false, st)
                else
                  let (ok, tbl) := define_if_labelled parts st (DC st) LABEL_DATA in
                  if negb ok then (false, {| table := tbl; IC := IC st; DC := DC st |})
                  else (true, {| table := tbl; IC := IC st;
                                 DC := to_int (DC st + (Z.of_nat (if (2 <=? len)%nat
                                                                  then len - 2 else 0) + 1)) |})
          | _ => (false, st)
          end
        else if is_mat_directive (command parts) then
          match operands parts with
          | [] => (false, st)
          | dims :: values =>
              match parse_matrix_dimensions dims with
              | None => (false, st)
              | Some (rows, cols) =>
                  let total_elements := to_int (rows * cols) in
                  if negb (forallb numeric_operand values) then (false, st)
                  else
                    let values_provided := Z.of_nat (List.length values) in
                    if negb (values_provided =? 0) && negb (values_provided =? total_elements)
                    then (false, st)
                    else
                      let (ok, tbl) := define_if_labelled parts st (DC st) LABEL_DATA in
                      if negb ok then (false, {| table := tbl; IC := IC st; DC := DC st |})
                      else (true, {| table := tbl; IC := IC st; DC := to_int (DC st + total_elements) |})
              end
          end
        else if is_extern_directive (command parts) then
          let (ok, tbl) := extern_loop (operands parts) (table st) in
          (ok, {| table := tbl; IC := IC st; DC := DC st |})
        else if is_entry_directive (command parts) then
          (true, {| table := entry_loop (operands parts) (table st); IC := IC st; DC := DC st |})
        else
          let words := estimate_ic_words parts in
          if words =? 0 then (false, st)
          else
            let (ok, tbl) := define_if_labelled parts st (IC st) LABEL_CODE in
            if negb ok then (false, {| table := tbl; IC := IC st; DC := DC st |})
            else (true, {| table := tbl; IC := IC st + words; DC := DC st |})
    end.

(** The test [strlen(line) >= MAX_LINE_LENGTH - 1 &&
    line[MAX_LINE_LENGTH - 2] != NEWLINE_CHAR] that the three readers make
    on every buffer [fgets] filled. *)
Definition line_too_long (line : string) : bool :=
  (MAX_LINE_LENGTH - 1 <=? strlen line)%nat
  && negb (ceqb (char_at line (MAX_LINE_LENGTH - 2)) NEWLINE_CHAR).

(** The body of the [while (fgets(...))] loop, over the buffers read. *)
Fixpoint first_pass_loop (lines : list string) (st : counters) (has_errors : bool)
  : counters * bool :=
  match lines with
  | [] => (st, has_errors)
  | line :: rest =>
      if line_too_long line then first_pass_loop rest st true
      else
        let (ok, st) := process_line line st in
        first_pass_loop rest st (if ok then has_errors else true)
  end.

(** The update of the data labels after the loop. *)
Definition rebase (ic : Z) (current : label_node) : label_node :=
  if label_type_eqb (type current) LABEL_DATA && is_defined current
  then set_address (address current + ic) current
  else current.

(** [first_pass_on_table] on a file that could be opened and an empty
    table: the status, the table, [*outIC] and [*outDC]. *)
Definition first_pass_on_table (file : string) (tbl : label_table) : bool * counters :=
  let '(st, has_errors) :=
    first_pass_loop (fgets_all MAX_LINE_LENGTH file)
      {| table := tbl; IC := INITIAL_IC; DC := INITIAL_DC |} false in
  let tbl := if negb has_errors then List.map (rebase (IC st)) (table st) else table st in
  (negb has_errors, {| table := tbl; IC := IC st; DC := DC st |}).

(** [first_pass]: the first pass on a table of its own, which it frees. *)
Definition first_pass (file : string) : bool :=
  let table := init_label_table in
  let (rc, _) := first_pass_on_table file table in
  rc.

End FirstPass.
Import FirstPass.

(** ** second_pass.c *)

Module SecondPass.

Definition EXAMPLE_LABEL_LENGTH : string := "LENGTH".
Definition EXAMPLE_LABEL_LOOP : string := "LOOP".
Definition MAX_MATRIX_DIMENSION_LENGTH : nat := 10.

Record machine_word := {
  word : Z;
  are : are_type;
  word_address : Z
}.

(** [memory_image].  The two arrays come from [malloc] and are filled from
    index 0 upwards: [instructions] and [data] hold the cells stored so
    far, [instruction_count] and [data_count] the allocated sizes. *)
Record memory_image := {
  instructions : list machine_word;
  data : list machine_word;
  instruction_count : Z;
  data_count : Z;
  ic_final : Z;
  dc_final : Z
}.

Record ext_ref := {
  symbol_name : string;
  ref_address : Z
}.

Definition convert_to_addressing_mode (mode_mask : Z) : addressing_mode :=
  if mode_mask =? IMMEDIATE then MODE_IMMEDIATE
  else if mode_mask =? DIRECT then MODE_DIRECT
  else if mode_mask =? MATRIX_ACCESS then MODE_MATRIX
  else if mode_mask =? REGISTER then MODE_REGISTER
  else MODE_IMMEDIATE.

(** The second copy of [parse_matrix_dimensions]. *)
Definition parse_matrix_dimensions (operand : option string) : option (Z * Z) :=
  match operand with
  | None => None
  | Some operand =>
  match strchr operand OPEN_BRACKET with
  | None => None
  | Some first_bracket =>
  match strchr (tail first_bracket) CLOSE_BRACKET with
  | None => None
  | Some second_bracket =>
  match strchr (tail second_bracket) OPEN_BRACKET with
  | None => None
  | Some third_bracket =>
  match strchr (tail third_bracket) CLOSE_BRACKET with
  | None => None
  | Some fourth_bracket =>
      let rows_str := before (tail first_bracket) CLOSE_BRACKET in
      if (strlen rows_str <=? 0)%nat || (MAX_MATRIX_DIMENSION_LENGTH <=? strlen rows_str)%nat
      then None
      else
        let cols_str := before (tail third_bracket) CLOSE_BRACKET in
        if (strlen cols_str <=? 0)%nat || (MAX_MATRIX_DIMENSION_LENGTH <=? strlen cols_str)%nat
        then None
        else if negb (forall_chars isdigit rows_str) then None
        else if negb (forall_chars isdigit cols_str) then None
        else
          let rows := to_int (strtol rows_str) in
          let cols := to_int (strtol cols_str) in
          if (0 <? rows) && (0 <? cols) then Some (rows, cols) else None
  end end end end end.

Definition create_memory_image (ic_final dc_final : Z) : option memory_image :=
  if ic_final <? INITIAL_IC then None
  else if dc_final <? 0 then None
  else Some {| instructions := []; data := [];
               instruction_count := ic_final - INITIAL_IC; data_count := dc_final;
               ic_final := ic_final; dc_final := dc_final |}.

Definition OPCODE_MASK : Z := Z.shiftl 1 4 - 1.
Definition MODE_MASK : Z := Z.shiftl 1 2 - 1.
Definition ARE_MASK : Z := Z.shiftl 1 2 - 1.

Definition create_instruction_word (opcode : Z) (src_mode dst_mode : addressing_mode)
    (are : are_type) : Z :=
  let opcode := if (opcode <? 0) || (15 <? opcode) then Z.land opcode OPCODE_MASK else opcode in
  let word := 0 in
  let word := Z.lor word (Z.shiftl (Z.land opcode OPCODE_MASK) 6) in
  let word := Z.lor word (Z.shiftl (Z.land (mode_value src_mode) MODE_MASK) 4) in
  let word := Z.lor word (Z.shiftl (Z.land (mode_value dst_mode) MODE_MASK) 2) in
  let word := Z.lor word (Z.shiftl (Z.land (are_value are) ARE_MASK) 0) in
  word.

Definition INVALID_REGISTER : Z := -1.

Definition get_register_number (reg_str : string) : Z :=
  if negb (strlen reg_str =? REGISTER_NAME_LENGTH)%nat then INVALID_REGISTER
  else if negb (ceqb (head reg_str) REGISTER_PREFIX_CHAR) then INVALID_REGISTER
  else if negb (register_char (char_at reg_str 1)) then INVALID_REGISTER
  else Z.of_N (ord (char_at reg_str 1)) - Z.of_N (ord "0"%char).

Definition parse_immediate_value (operand : string) : Z :=
  if negb (ceqb (head operand) IMMEDIATE_PREFIX) then 0
  else if negb (is_valid_number (tail operand)) then 0
  else to_int (strtol (tail operand)).

(** [add_external_reference]: the new reference becomes the head of the
    list. *)
Definition add_external_reference (ext_list : list ext_ref) (symbol : string) (address : Z)
  : list ext_ref :=
  {| symbol_name := strncpy MAX_LABEL_LENGTH symbol; ref_address := address |} :: ext_list.

(** The word of a label reference, shared by [encode_operand] and
    [encode_matrix_operand], with the list of external references after
    it. *)
Definition label_word (label : label_node) (symbol : string) (current_address : Z)
    (ext_list : list ext_ref) : machine_word * list ext_ref :=
  if label_type_eqb (type label) LABEL_EXTERNAL then
    ({| word := Z.lor (Z.land 0 THREE_FC_MASK) (are_value ARE_EXTERNAL);
        are := ARE_EXTERNAL; word_address := current_address |},
     add_external_reference ext_list symbol current_address)
  else
    ({| word := to_unsigned (Z.lor (to_int (Z.shiftl (address label) 2))
                               (are_value ARE_RELOCATABLE));
        are := ARE_RELOCATABLE; word_address := current_address |},
     ext_list).

(** The result of an encoder: the status, the words it stored and the list
    of external references it leaves. *)
Definition encoded : Type := bool * list machine_word * list ext_ref.

Definition encode_operand (operand : option string) (table : label_table)
    (mode : addressing_mode) (current_address : Z) (ext_list : list ext_ref) : encoded :=
  match operand with
  | None => (false, [], ext_list)
  | Some operand =>
      match mode with
      | MODE_IMMEDIATE =>
          let val := parse_immediate_value operand in
          let encoded_val := Z.shiftl (Z.land val EIGHT_BIT_MASK) 2 in
          (true, [ {| word := Z.lor encoded_val (are_value ARE_ABSOLUTE);
                      are := ARE_ABSOLUTE; word_address := current_address |} ], ext_list)
      | MODE_DIRECT =>
          match find_label table operand with
          | None => (false, [], ext_list)
          | Some label =>
              let (w, ext_list) := label_word label operand current_address ext_list in
              (true, [w], ext_list)
          end
      | MODE_REGISTER =>
          let reg_num := get_register_number operand in
          if reg_num <? 0 then (false, [], ext_list)
          else
            (true, [ {| word := Z.lor (Z.shiftl (Z.land reg_num SEVEN_BIT_MASK) 2)
                                  (are_value ARE_ABSOLUTE);
                        are := ARE_ABSOLUTE; word_address := current_address |} ], ext_list)
      | MODE_MATRIX => (false, [], ext_list)
      end
  end.

Definition encode_matrix_operand (operand : option string) (table : label_table)
    (current_address : Z) (ext_list : list ext_ref) : encoded :=
  match operand with
  | None => (false, [], ext_list)
  | Some operand =>
  match strchr operand OPEN_BRACKET with
  | None => (false, [], ext_list)
  | Some first_bracket =>
  match strchr (tail first_bracket) CLOSE_BRACKET with
  | None => (false, [], ext_list)
  | Some first_close =>
  match strchr (tail first_close) OPEN_BRACKET with
  | None => (false, [], ext_list)
  | Some second_bracket =>
  match strchr (tail second_bracket) CLOSE_BRACKET with
  | None => (false, [], ext_list)
  | Some second_close =>
      let label_name := strncpy MAX_LABEL_LENGTH (before operand OPEN_BRACKET) in
      let reg1 := strncpy REGISTER_NAME_LENGTH (tail first_bracket) in
      let reg2 := strncpy REGISTER_NAME_LENGTH (tail second_bracket) in
      let reg1_num := get_register_number reg1 in
      let reg2_num := get_register_number reg2 in
      if (reg1_num <? 0) || (reg2_num <? 0) then (false, [], ext_list)
      else
        match find_label table label_name with
        | None => (false, [], ext_list)
        | Some label =>
            let (w0, ext_list) := label_word label label_name current_address ext_list in
            let w1 :=
              {| word := Z.lor (Z.shiftl (Z.land reg1_num FOUR_BIT_MASK) 6)
                               (Z.shiftl (Z.land reg2_num FOUR_BIT_MASK) 2);
                 are := ARE_ABSOLUTE; word_address := current_address + 1 |} in
            (true, [w0; w1], ext_list)
        end
  end end end end end.

(** One operand of [encode_instruction]: [encode_matrix_operand] and
    [words_used += 2] for a matrix operand, [encode_operand] and
    [words_used++] otherwise. *)
Definition encode_one (op : option string) (table : label_table) (mode : addressing_mode)
    (current_address : Z) (ext_list : list ext_ref) : encoded :=
  match mode with
  | MODE_MATRIX => encode_matrix_operand op table current_address ext_list
  | _ => encode_operand op table mode current_address ext_list
  end.

Definition words_for (mode : addressing_mode) : Z :=
  match mode with
  | MODE_MATRIX => 2
  | _ => 1
  end.

(** [encode_instruction]: the status, the words stored in [words], the
    value left in [*word_count] and the list of external references
    afterwards.  On failure the caller uses neither the words nor the
    count, and references recorded before the failure stay in the list. *)
Definition encode_instruction (parts : separate_line) (table : label_table)
    (current_ic : Z) (ext_list : list ext_ref)
  : bool * list machine_word * Z * list ext_ref :=
  match get_instruction (command parts) with
  | None => (false, [], 0, ext_list)
  | Some inst =>
      let n := num_of_operands inst in
      let dst_mode_mask :=
        if 1 <=? n then get_operand_mode (operand parts (Z.to_nat (n - 1))) else IMMEDIATE in
      if (1 <=? n) && (dst_mode_mask =? FAILURE) then (false, [], 0, ext_list)
      else
        let dst_mode :=
          if 1 <=? n then convert_to_addressing_mode dst_mode_mask else MODE_IMMEDIATE in
        let src_mode_mask := if n =? 2 then get_operand_mode (operand parts 0) else IMMEDIATE in
        if (n =? 2) && (src_mode_mask =? FAILURE) then (false, [], 0, ext_list)
        else
          let src_mode :=
            if n =? 2 then convert_to_addressing_mode src_mode_mask else MODE_IMMEDIATE in
          let w0 :=
            {| word := create_instruction_word (opcode inst)
                         (if n =? 2 then src_mode else MODE_IMMEDIATE)
                         (if 1 <=? n then dst_mode else MODE_IMMEDIATE) ARE_ABSOLUTE;
               are := ARE_ABSOLUTE; word_address := current_ic |} in
          let words_used := 1 in
          if n =? 1 then
            let '(ok, ws, ext_list) :=
              encode_one (operand parts 0) table dst_mode (current_ic + words_used) ext_list in
            if negb ok then (false, [], 0, ext_list)
            else (true, w0 :: ws, words_used + words_for dst_mode, ext_list)
          else if n =? 2 then
            match src_mode, dst_mode with
            | MODE_REGISTER, MODE_REGISTER =>
                let src_reg :=
                  match operand parts 0 with
                  | Some r => get_register_number r
                  | None => INVALID_REGISTER
                  end in
                let dst_reg :=
                  match operand parts 1 with
                  | Some r => get_register_number r
                  | None => INVALID_REGISTER
                  end in
                if (0 <=? src_reg) && (0 <=? dst_reg) then
                  (true,
                   [ w0;
                     {| word := Z.lor (Z.shiftl (Z.land src_reg FOUR_BIT_MASK) 6)
                                      (Z.shiftl (Z.land dst_reg FOUR_BIT_MASK) 2);
                        are := ARE_ABSOLUTE; word_address := current_ic + words_used |} ],
                   words_used + 1, ext_list)
                else (false, [], 0, ext_list)
            | _, _ =>
                let '(ok, ws1, ext_list) :=
                  encode_one (operand parts 0) table src_mode (current_ic + words_used) ext_list in
                if negb ok then (false, [], 0, ext_list)
                else
                  let words_used := words_used + words_for src_mode in
                  let '(ok, ws2, ext_list) :=
                    encode_one (operand parts 1) table dst_mode (current_ic + words_used) ext_list in
                  if negb ok then (false, [], 0, ext_list)
                  else (true, w0 :: (ws1 ++ ws2)%list, words_used + words_for dst_mode, ext_list)
            end
          else (true, [w0], words_used, ext_list)
  end.

(** The header numbers of the object file: leading ['a']s are dropped
    while another character follows. *)
Fixpoint strip_leading_a (s : string) : string :=
  match s with
  | String c (String d rest as next) => if ceqb c BASE4_LETTER_OFFSET then strip_leading_a next else s
  | _ => s
  end.

(** [fprintf(file, "%s %s\n", a, b)]. *)
Definition two_strings (a b : string) : string :=
  String.append a (String SPACE_CHAR (String.append b (String NEWLINE_CHAR EmptyString))).

Definition concat_lines (lines : list string) : string :=
  List.fold_right String.append EmptyString lines.

(** [generate_object_file]: the text of the [.ob] file.  The loops read
    [instruction_count] and [data_count] cells; a cell that was never
    stored holds whatever [malloc] returned, so the text is determined
    only when the cells stored are exactly the cells allocated ([None]
    otherwise). *)
Definition generate_object_file (image : memory_image) : option string :=
  if negb (Z.of_nat (List.length (instructions image)) =? instruction_count image)
     || negb (Z.of_nat (List.length (data image)) =? data_count image) then None
  else
    let ic_count := ic_final image - INITIAL_IC in
    let ic_str := strip_leading_a (number_to_base4_letters ic_count) in
    let dc_str := strip_leading_a (number_to_base4_letters (dc_final image)) in
    let header := two_strings ic_str dc_str in
    let instruction_lines :=
      List.map (fun w => two_strings (number_to_base4_letters (word_address w))
                           (number_to_base4_code (word w))) (instructions image) in
    let data_lines :=
      List.map (fun iw => two_strings
                            (number_to_base4_letters
                               (INITIAL_IC + instruction_count image + Z.of_nat (fst iw)))
                            (number_to_base4_code (word (snd iw))))
               (List.combine (List.seq 0 (List.length (data image))) (data image)) in
    Some (String.append header (concat_lines (instruction_lines ++ data_lines)%list)).

(** The test the writing loop of [generate_entries_file] makes on a node. *)
Definition is_entry (current : label_node) : bool :=
  (label_type_eqb (type current) LABEL_ENTRY && is_defined current)
  || (label_type_eqb (type current) LABEL_DATA && is_defined current
      && (String.eqb (name current) EXAMPLE_LABEL_LENGTH
          || String.eqb (name current) EXAMPLE_LABEL_LOOP)).

(** [generate_entries_file]: the text of the [.ent] file, [None] when the
    file is not created. *)
Definition generate_entries_file (table : label_table) : option string :=
  let has_entries :=
    existsb (fun current => label_type_eqb (type current) LABEL_ENTRY && is_defined current)
      table in
  if negb has_entries then None
  else
    Some (concat_lines
            (List.map (fun current =>
                         two_strings (name current) (number_to_base4_letters (address current)))
               (List.filter is_entry table))).

(** [generate_externals_file]: the text of the [.ext] file, [None] when the
    list is empty and the file is not created. *)
Definition generate_externals_file (ext_list : list ext_ref) : option string :=
  match ext_list with
  | [] => None
  | _ =>
      Some (concat_lines
              (List.map (fun current =>
                           two_strings (symbol_name current)
                             (number_to_base4_letters (ref_address current)))
                 ext_list))
  end.

(** The cell [process_data_line] stores at [data_words[*data_index]]. *)
Definition data_cell (value : Z) (data_index : nat) : machine_word :=
  {| word := value; are := ARE_ABSOLUTE; word_address := Z.of_nat data_index |}.

Fixpoint store_values (values : list Z) (data : list machine_word) : list machine_word :=
  match values with
  | [] => data
  | v :: rest => store_values rest (data ++ [data_cell v (List.length data)])%list
  end.

Fixpoint string_bytes (s : string) : list Z :=
  match s with
  | EmptyString => []
  | String c rest => Z.of_N (ord c) :: string_bytes rest
  end.

(** [process_data_line]: the status and the data array after the stores.
    For [.string] the characters between the quotes are those at the
    indices 1 .. len - 2. *)
Definition process_data_line (parts : separate_line) (data : list machine_word)
  : bool * list machine_word :=
  if is_command (command parts) DIRECTIVE_DATA then
    (true, store_values
             (List.map (fun op => Z.land (to_int (strtol op)) TEN_BIT_MASK) (operands parts))
             data)
  else if is_command (command parts) DIRECTIVE_STRING then
    match operands parts with
    | [str] =>
        let len := strlen str in
        (true, store_values
                 (string_bytes (String.substring 1 (len - 2) str) ++ [0])%list data)
    | _ => (true, data)
    end
  else if is_command (command parts) DIRECTIVE_MAT then
    match parse_matrix_dimensions (operand parts 0) with
    | None => (false, data)
    | Some (rows, cols) =>
        let total_elements := to_int (rows * cols) in
        (true, store_values
                 (List.map (fun i =>
                              match operand parts (i + 1) with
                              | Some op => Z.land (to_int (strtol op)) TEN_BIT_MASK
                              | None => 0
                              end)
                    (List.seq 0 (Z.to_nat total_elements)))
                 data)
    end
  else (true, data).

(** The state of the first loop of [second_pass]. *)
Record encoding := {
  image_instructions : list machine_word;
  current_ic : Z;
  ext_list : list ext_ref;
  has_errors : bool
}.

(** The copy [for (i = 0; i < word_count; i++) if (instruction_index <
    image->instruction_count) ...] into the image. *)
Fixpoint copy_words (ws : list machine_word) (capacity : Z) (stored : list machine_word)
  : list machine_word :=
  match ws with
  | [] => stored
  | w :: rest =>
      if Z.of_nat (List.length stored) <? capacity
      then copy_words rest capacity (stored ++ [w])%list
      else copy_words rest capacity stored
  end.

Definition blank_or_comment (line : string) : bool :=
  let trimmed := skip_blanks line in
  ceqb (head trimmed) NULL_CHAR || ceqb (head trimmed) NEWLINE_CHAR
  || ceqb (head trimmed) SEMICOLON_CHAR.

Definition encode_line (table : label_table) (capacity : Z) (line : string) (st : encoding)
  : encoding :=
  if line_too_long line then
    {| image_instructions := image_instructions st; current_ic := current_ic st;
       ext_list := ext_list st; has_errors := true |}
  else if blank_or_comment line then st
  else
    match parse_line line with
    | None => st
    | Some parts =>
        if match command parts with
           | Some c => ceqb (head c) DOT_CHAR
           | None => false
           end
        then st
        else
          let '(ok, words, word_count, exts) :=
            encode_instruction parts table (current_ic st) (ext_list st) in
          if ok then
            {| image_instructions :=
                 copy_words (List.firstn (Z.to_nat word_count) words) capacity
                   (image_instructions st);
               current_ic := current_ic st + word_count;
               ext_list := exts; has_errors := has_errors st |}
          else
            {| image_instructions := image_instructions st; current_ic := current_ic st;
               ext_list := exts; has_errors := true |}
    end.

(** One line of the second loop of [second_pass]. *)
Definition data_line (line : string) (st : list machine_word * bool)
  : list machine_word * bool :=
  if blank_or_comment line then st
  else
    match parse_line line with
    | None => st
    | Some parts =>
        if is_command (command parts) DIRECTIVE_DATA
           || is_command (command parts) DIRECTIVE_STRING
           || is_command (command parts) DIRECTIVE_MAT
        then
          let (ok, data) := process_data_line parts (fst st) in
          (data, if ok then snd st else true)
        else st
    end.

(** What [second_pass] leaves: its status and the three files.  A file is
    [None] when it is not written, and the object file also when a cell it
    prints was never stored (see [generate_object_file]). *)
Record outputs := {
  status : bool;
  object_file : option string;
  entries_file : option string;
  externals_file : option string
}.

Definition no_outputs : outputs :=
  {| status := false; object_file := None; entries_file := None; externals_file := None |}.

(** The two loops of [second_pass] over the buffers read from the file:
    the image they fill, the external references and [has_errors]. *)
Definition fill_image (lines : list string) (table : label_table) (image : memory_image)
  : memory_image * list ext_ref * bool :=
  let st :=
    List.fold_left (fun st line => encode_line table (instruction_count image) line st)
      lines
      {| image_instructions := []; current_ic := INITIAL_IC; ext_list := [];
         has_errors := false |} in
  let '(data, has_errors) :=
    List.fold_left (fun st line => data_line line st) lines ([], has_errors st) in
  ({| instructions := image_instructions st; data := data;
      instruction_count := instruction_count image; data_count := data_count image;
      ic_final := ic_final image; dc_final := dc_final image |},
   ext_list st, has_errors).

Definition second_pass (file : string) (table : label_table) (ic_final dc_final : Z)
  : outputs :=
  match create_memory_image ic_final dc_final with
  | None => no_outputs
  | Some image =>
      let '(image, ext_list, has_errors) :=
        fill_image (fgets_all MAX_LINE_LENGTH file) table image in
      if negb has_errors then
        {| status := true;
           object_file := generate_object_file image;
           entries_file := generate_entries_file table;
           externals_file := generate_externals_file ext_list |}
      else no_outputs
  end.

End SecondPass.
Import SecondPass.

(** ** macro.c *)

Module Macro.

Definition MCRO_KEYWORD : string := "mcro".
Definition MCROEND_KEYWORD : string := "mcroend".
Definition MCRO_LENGTH : nat := 4.
Definition MCRO_SPACE_OFFSET : nat := 5.

Record macro := {
  macro_name : string;
  content : string
}.

(** [macro_list]: a linked list with insertion at the head. *)
Definition macro_list := list macro.

Fixpoint advance (n : nat) (s : string) : string :=
  match n with
  | O => s
  | S k => advance k (tail s)
  end.

Definition check_if_macro_start (line : string) : bool :=
  let line := skip_blanks line in
  if negb (String.eqb (strncpy MCRO_LENGTH line) MCRO_KEYWORD) then false
  else if negb (ceqb (char_at line MCRO_LENGTH) SPACE_CHAR) then false
  else
    let name_start := drop_while (fun c => ceqb c SPACE_CHAR) (advance MCRO_SPACE_OFFSET line) in
    let temp_name := before name_start NEWLINE_CHAR in
    if (MAX_MACRO_NAME - 1 <? strlen temp_name)%nat then false
    else is_valid_macro_name temp_name.

Definition check_if_macro_end (line : string) : bool :=
  let line := skip_blanks line in
  let temp_line := before line NEWLINE_CHAR in
  String.eqb temp_line MCROEND_KEYWORD.

(** The copy loop [while ( *line && *line != SPACE_CHAR && *line != TAB_CHAR
    && *line != NEWLINE_CHAR && i < MAX_MACRO_NAME - 1)] shared by
    [extract_macro_name], [is_macro_call] and the expansion loop. *)
Fixpoint copy_word (room : nat) (line : string) : string :=
  match room, line with
  | S k, String c rest =>
      if ceqb c SPACE_CHAR || ceqb c TAB_CHAR || ceqb c NEWLINE_CHAR then EmptyString
      else String c (copy_word k rest)
  | _, _ => EmptyString
  end.

Definition extract_macro_name (line : string) : string :=
  let line := skip_blanks line in
  let line := advance MCRO_SPACE_OFFSET line in
  let line := drop_while (fun c => ceqb c SPACE_CHAR) line in
  copy_word (MAX_MACRO_NAME - 1) line.

Definition find_macro (macros : macro_list) (nm : string) : option macro :=
  List.find (fun current => String.eqb (macro_name current) nm) macros.

Definition is_macro_call (line : string) (macros : macro_list) : bool :=
  let first_word := copy_word (MAX_MACRO_NAME - 1) (skip_blanks line) in
  found (find_macro macros first_word).

Definition add_macro (macros : macro_list) (nm content : string) : macro_list :=
  {| macro_name := nm; content := content |} :: macros.

Definition validate_macro_name (nm : string) (macros : macro_list) : bool :=
  if (strlen nm =? 0)%nat then false
  else if isdigit (head nm) then false
  else if is_valid_opcode nm then false
  else if (strlen nm =? REGISTER_NAME_LENGTH)%nat && ceqb (head nm) REGISTER_PREFIX_CHAR
          && register_char (char_at nm 1) then false
  else if negb (forall_chars (fun c => isalnum c || ceqb c UNDERSCORE_CHAR) nm) then false
  else if found (find_macro macros nm) then false
  else true.

(** The state of the collecting loop of [expand_macros]. *)
Record collecting := {
  macros : macro_list;
  in_macro_definition : bool;
  current_macro_name : string;
  current_macro_content : string;
  content_length : nat
}.

(** The collecting loop; [None] is one of its early [return]s (a line that
    is too long, an invalid macro name). *)
Fixpoint collect (lines : list string) (st : collecting) : option collecting :=
  match lines with
  | [] => Some st
  | line :: rest =>
      if line_too_long line then None
      else if check_if_macro_start line then
        let nm := extract_macro_name line in
        if negb (validate_macro_name nm (macros st)) then None
        else collect rest
               {| macros := macros st; in_macro_definition := true; current_macro_name := nm;
                  current_macro_content := EmptyString; content_length := 0 |}
      else if check_if_macro_end line then
        if in_macro_definition st then
          collect rest
            {| macros := add_macro (macros st) (current_macro_name st) (current_macro_content st);
               in_macro_definition := false; current_macro_name := current_macro_name st;
               current_macro_content := current_macro_content st;
               content_length := content_length st |}
        else collect rest st
      else if in_macro_definition st then
        let line_len := strlen line in
        if (content_length st + line_len <? MAX_MACRO_BODY - 1)%nat then
          collect rest
            {| macros := macros st; in_macro_definition := true;
               current_macro_name := current_macro_name st;
               current_macro_content := String.append (current_macro_content st) line;
               content_length := content_length st + line_len |}
        else collect rest st
      else collect rest st
  end.

(** The expanding loop: what has been written to the output file when the
    loop ends or returns. *)
Fixpoint expand (lines : list string) (macros : macro_list) (in_macro_definition : bool)
    (output : string) : string :=
  match lines with
  | [] => output
  | line :: rest =>
      if line_too_long line then output
      else if check_if_macro_start line then expand rest macros true output
      else if check_if_macro_end line then expand rest macros false output
      else if in_macro_definition then expand rest macros in_macro_definition output
      else if is_macro_call line macros then
        let nm := copy_word (MAX_MACRO_NAME - 1) (skip_blanks line) in
        match find_macro macros nm with
        | Some m => expand rest macros in_macro_definition (String.append output (content m))
        | None => expand rest macros in_macro_definition output
        end
      else expand rest macros in_macro_definition (String.append output line)
  end.

(** What a call of [expand_macros] leaves.  The function returns [void]:
    [failed] records that it printed an error and returned early, which no
    caller can observe; [am_file] is the text of the output file, which
    exists (and is empty) as soon as it has been opened. *)
Record expansion := {
  failed : bool;
  am_file : string
}.

Definition expand_macros (input : string) : expansion :=
  let lines := fgets_all MAX_LINE_LENGTH input in
  match collect lines
          {| macros := []; in_macro_definition := false; current_macro_name := EmptyString;
             current_macro_content := EmptyString; content_length := 0 |} with
  | None => {| failed := true; am_file := EmptyString |}
  | Some st =>
      if in_macro_definition st then {| failed := true; am_file := EmptyString |}
      else {| failed := false; am_file := expand lines (macros st) false EmptyString |}
  end.

End Macro.
Import Macro.

(** ** assembler.c *)

Module Assembler.

(** What [process_file] leaves for one source file: its result, the
    symbol table the first pass built and the output files. *)
Record processed := {
  result : bool;
  symbols : label_table;
  files : outputs
}.

(** [process_file]: [expand_macros] returns nothing to test, so the first
    pass always runs, on the [.am] file as the expansion left it. *)
Definition process_file (source : string) : processed :=
  let macro_file := am_file (expand_macros source) in
  let (ok, st) := first_pass_on_table macro_file init_label_table in
  if negb ok then
    {| result := false; symbols := table st; files := no_outputs |}
  else
    let out := second_pass macro_file (table st) (IC st) (DC st) in
    {| result := status out; symbols := table st; files := out |}.

Definition SOURCE_EXT : string := ".as".
Definition EXIT_FAILURE_CODE : Z := 1.

(** [validate_filename]: at least four characters, the last three being
    [.as]. *)
Definition validate_filename (filename : string) : bool :=
  let len := strlen filename in
  if (len <? 4)%nat then false
  else if negb (String.eqb (advance (len - 3) filename) SOURCE_EXT) then false
  else true.

(** The counters of [main]. *)
Record tally := {
  total_files : Z;
  successful_files : Z;
  failed_files : Z
}.

(** The loop of [main] over [argv[1]] .. [argv[argc - 1]]; [read] gives the
    contents of the source file of a name. *)
Fixpoint main_loop (read : string -> string) (args : list string) (t : tally) : tally :=
  match args with
  | [] => t
  | arg :: rest =>
      let total := total_files t + 1 in
      if negb (validate_filename arg) then
        main_loop read rest
          {| total_files := total; successful_files := successful_files t;
             failed_files := failed_files t + 1 |}
      else if result (process_file (read arg)) then
        main_loop read rest
          {| total_files := total; successful_files := successful_files t + 1;
             failed_files := failed_files t |}
      else
        main_loop read rest
          {| total_files := total; successful_files := successful_files t;
             failed_files := failed_files t + 1 |}
  end.

(** [main]: the exit status, for [argv] with the program name first. *)
Definition main (read : string -> string) (argv : list string) : Z :=
  if Z.of_nat (List.length argv) <? 2 then EXIT_FAILURE_CODE
  else
    let t := main_loop read (List.tl argv)
               {| total_files := 0; successful_files := 0; failed_files := 0 |} in
    if 0 <? failed_files t then EXIT_FAILURE_CODE else 0.

End Assembler.
Import Assembler.

(** ** Definitions that follow the specification's words

    These are not part of the program: they state what the specification
    says, to be compared with the embedding above. *)

Module Spec.

(** "Base-4 alphabet. a=0, b=1, c=2, d=3, most significant digit first." *)
Definition base4_digit (c : ascii) : option Z :=
  if ceqb c "a"%char then Some 0
  else if ceqb c "b"%char then Some 1
  else if ceqb c "c"%char then Some 2
  else if ceqb c "d"%char then Some 3
  else None.

Fixpoint base4_decode_from (acc : Z) (s : string) : option Z :=
  match s with
  | EmptyString => Some acc
  | String c rest =>
      match base4_digit c with
      | Some d => base4_decode_from (4 * acc + d) rest
      | None => None
      end
  end.

Definition base4_decode (s : string) : option Z := base4_decode_from 0 s.

(** The per-instruction word count of section 4.5: one opcode word; both
    operands Register, one packed word; otherwise two words for a Matrix
    operand and one for any other. *)
Definition operand_cost (mode : Z) : Z := if mode =? MATRIX_ACCESS then 2 else 1.

Definition words_per_instruction (num_operands : Z) (src dst : Z) : Z :=
  if num_operands =? 0 then 1
  else if num_operands =? 1 then 1 + operand_cost dst
  else if (src =? REGISTER) && (dst =? REGISTER) then 1 + 1
  else 1 + operand_cost src + operand_cost dst.

(** A use site of an external symbol: an operand that refers to a symbol
    (a Direct operand is the symbol, a Matrix operand names it before its
    first bracket) whose kind in the symbol table is External, with the
    address of the operand's word. *)
Definition referenced_symbol (op : string) : option string :=
  let mode := get_operand_mode (Some op) in
  if mode =? DIRECT then Some op
  else if mode =? MATRIX_ACCESS then Some (before op OPEN_BRACKET)
  else None.

Definition use_site (table : label_table) (op : option string) (addr : Z) : list ext_ref :=
  match op with
  | None => []
  | Some op =>
      match referenced_symbol op with
      | None => []
      | Some sym =>
          match find_label table sym with
          | Some n =>
              if label_type_eqb (type n) LABEL_EXTERNAL
              then [ {| symbol_name := sym; ref_address := addr |} ]
              else []
          | None => []
          end
      end
  end.

(** The use sites of the instruction at address [ic], in the order of its
    operands: the opcode word is at [ic], the word of the first operand
    at [ic + 1] and the word of a second operand after the words of the
    first. *)
Definition instruction_use_sites (table : label_table) (parts : separate_line) (ic : Z)
  : list ext_ref :=
  match get_instruction (command parts) with
  | None => []
  | Some inst =>
      if num_of_operands inst =? 1 then use_site table (operand parts 0) (ic + 1)
      else if num_of_operands inst =? 2 then
        (use_site table (operand parts 0) (ic + 1)
         ++ use_site table (operand parts 1)
              (ic + 1 + operand_cost (get_operand_mode (operand parts 0))))%list
      else []
  end.

(** The instruction a line holds for the instruction pass: the line is not
    blank or a comment, it parses, and its command is not a directive. *)
Definition instruction_on (line : string) : option separate_line :=
  if blank_or_comment line then None
  else
    match parse_line line with
    | None => None
    | Some parts =>
        match command parts with
        | Some c => if ceqb (head c) DOT_CHAR then None else Some parts
        | None => Some parts
        end
    end.

(** The use sites of a program in their order of occurrence: line after
    line, the instruction counter advancing by the word count of the first
    pass. *)
Fixpoint use_sites (table : label_table) (lines : list string) (ic : Z) : list ext_ref :=
  match lines with
  | [] => []
  | line :: rest =>
      match instruction_on line with
      | Some parts =>
          (instruction_use_sites table parts ic
           ++ use_sites table rest (ic + estimate_ic_words parts))%list
      | None => use_sites table rest ic
      end
  end.

(** "One line SYMBOL ADDRESS per occurrence", the address in four base-4
    letters. *)
Definition externals_line (r : ext_ref) : string :=
  String.append (symbol_name r)
    (String SPACE_CHAR
       (String.append (number_to_base4_letters (ref_address r))
          (String NEWLINE_CHAR EmptyString))).

Definition externals_text (sites : list ext_ref) : option string :=
  match sites with
  | [] => None
  | _ => Some (List.fold_right String.append EmptyString (List.map externals_line sites))
  end.

End Spec.
Import Spec.

(** ** Lines and programs used in the examples *)

Definition nl : string := String NEWLINE_CHAR EmptyString.

(** A text file with the given lines, each ended by a newline. *)
Definition text (lines : list string) : string :=
  List.fold_right (fun l rest => String.append l (String.append nl rest)) EmptyString lines.

Fixpoint blanks (n : nat) : string :=
  match n with
  | O => EmptyString
  | S k => String SPACE_CHAR (blanks k)
  end.

(** [s] followed by blanks up to [n] characters. *)
Definition pad (n : nat) (s : string) : string :=
  String.append s (blanks (n - String.length s)).

Definition BEL : string := String "007"%char EmptyString.
Definition CR : string := String CARRIAGE_RETURN_CHAR EmptyString.
Definition quoted (s : string) : string :=
  String QUOTE_CHAR (String.append s (String QUOTE_CHAR EmptyString)).

Local Open Scope string_scope.
Local Open Scope Z_scope.

(** ** Predicates used in the statements *)

(** The line as [process_line] reads it: without the leading blanks and
    without one carriage return after them. *)
Definition trimmed (line : string) : string :=
  let line := skip_blanks line in
  if ceqb (head line) CARRIAGE_RETURN_CHAR then tail line else line.

(** The number of data words a line declares, as a mathematical integer:
    the operands of [.data], the characters of [.string] and the
    terminating zero, the product of the dimensions of [.mat]. *)
Definition declared_data_words (line : string) : Z :=
  match parse_line (trimmed line) with
  | None => 0
  | Some parts =>
      if is_data_directive (command parts) then how_many_operands parts
      else if is_string_directive (command parts) then
        match operands parts with
        | [s] => Z.of_nat (strlen s - 2) + 1
        | _ => 0
        end
      else if is_mat_directive (command parts) then
        match operands parts with
        | dims :: _ =>
            match FirstPass.parse_matrix_dimensions dims with
            | Some (rows, cols) => rows * cols
            | None => 0
            end
        | [] => 0
        end
      else 0
  end.

Definition declared_data_total (lines : list string) : Z :=
  List.fold_right (fun line total => declared_data_words line + total) 0 lines.




(** Every name of the table passed [is_valid_label]. *)
Definition names_valid (tbl : label_table) : Prop :=
  Forall (fun n => is_valid_label (name n) = true) tbl.

(** The first character after the leading blanks of a line is not a
    carriage return. *)
Definition no_leading_cr (line : string) : Prop :=
  ceqb (head (skip_blanks line)) CARRIAGE_RETURN_CHAR = false.

(** What a line that the first pass accepts does to the counters, by the
    kind of the line. *)
Inductive first_pass_step (line : string) (s s' : counters) : Prop :=
| step_blank :
    blank_or_comment line = true -> s' = s -> first_pass_step line s s'
| step_data (parts : separate_line) :
    blank_or_comment line = false -> parse_line line = Some parts ->
    is_data_directive (command parts) = true ->
    IC s' = IC s -> DC s' = DC s + how_many_operands parts ->
    first_pass_step line s s'
| step_string (parts : separate_line) (str : string) :
    blank_or_comment line = false -> parse_line line = Some parts ->
    is_data_directive (command parts) = false ->
    is_string_directive (command parts) = true ->
    operands parts = [str] -> (2 <= strlen str)%nat ->
    IC s' = IC s -> DC s' = DC s + (Z.of_nat (strlen str - 2) + 1) ->
    first_pass_step line s s'
| step_mat (parts : separate_line) (dims : string) (values : list string) (rows cols : Z) :
    blank_or_comment line = false -> parse_line line = Some parts ->
    is_data_directive (command parts) = false ->
    is_string_directive (command parts) = false ->
    is_mat_directive (command parts) = true ->
    operands parts = dims :: values ->
    FirstPass.parse_matrix_dimensions dims = Some (rows, cols) ->
    rows * cols < 2 ^ 31 ->
    IC s' = IC s -> DC s' = DC s + rows * cols ->
    first_pass_step line s s'
| step_symbols (parts : separate_line) :
    blank_or_comment line = false -> parse_line line = Some parts ->
    is_data_directive (command parts) = false ->
    is_string_directive (command parts) = false ->
    is_mat_directive (command parts) = false ->
    is_extern_directive (command parts) = true \/ is_entry_directive (command parts) = true ->
    IC s' = IC s -> DC s' = DC s ->
    first_pass_step line s s'
| step_instruction (parts : separate_line) :
    blank_or_comment line = false -> parse_line line = Some parts ->
    is_data_directive (command parts) = false ->
    is_string_directive (command parts) = false ->
    is_mat_directive (command parts) = false ->
    is_extern_directive (command parts) = false ->
    is_entry_directive (command parts) = false ->
    estimate_ic_words parts <> 0 ->
    IC s' = IC s + estimate_ic_words parts -> DC s' = DC s ->
    first_pass_step line s s'.

(** A run of the loop of the first pass without error, line by line. *)
Inductive first_pass_steps : list string -> counters -> counters -> Prop :=
| steps_nil (s : counters) : first_pass_steps [] s s
| steps_cons (line : string) (rest : list string) (s s' s'' : counters) :
    line_too_long line = false ->
    first_pass_step line s s' ->
    first_pass_steps rest s' s'' ->
    first_pass_steps (line :: rest) s s''.

(** One case analysis on the innermost [match] or [if] of the goal. *)
Ltac break_match :=
  match goal with
  | |- context [match ?x with _ => _ end] =>
      lazymatch x with
      | context [match _ with _ => _ end] => fail
      | _ => destruct x eqn:?
      end
  end.

(** ** Definitions used in the statements about the rest of the code *)

Definition register_name (d : nat) : string :=
  String REGISTER_PREFIX_CHAR (String (ascii_of_nat (48 + d)) EmptyString).

Ltac mode_values :=
  unfold IMMEDIATE, DIRECT, MATRIX_ACCESS, REGISTER, FAILURE in *.

(** The operand [label[ri][rj]]. *)
Definition matrix_operand (l : string) (i j : nat) : string :=
  String.append l
    (String OPEN_BRACKET
       (String.append (register_name i)
          (String CLOSE_BRACKET
             (String OPEN_BRACKET
                (String.append (register_name j) (String CLOSE_BRACKET EmptyString)))))).

(** An operand as the loop of [extract_operands] copies it: it starts with
    a quote, or it holds no comma, blank, tab, newline or carriage
    return. *)
Definition operand_is_clean (op : string) : Prop :=
  ceqb (head op) QUOTE_CHAR = true
  \/ forall_chars (fun c => negb (ends_operand c)) op = true.

(** The cells holding [values] at the data indices [start], [start + 1],
    ... *)
Fixpoint cells_from (start : nat) (values : list Z) : list machine_word :=
  match values with
  | [] => []
  | v :: rest => data_cell v start :: cells_from (S start) rest
  end.

(** Every symbol that an operand of the instruction refers to is in the
    table. *)
Definition symbols_resolved (tbl : label_table) (parts : separate_line) : Prop :=
  match get_instruction (command parts) with
  | Some inst =>
      forall i op sym,
        Z.of_nat i < num_of_operands inst ->
        operand parts i = Some op ->
        referenced_symbol op = Some sym ->
        found (find_label tbl sym) = true
  | None => False
  end.

Definition name_char (c : ascii) : bool := isalnum c || ceqb c UNDERSCORE_CHAR.

(** The invariant of the collecting loop of [expand_macros]: the names and
    bodies in the table and the current name and body fit their buffers,
    [content_length] is the length of the current body, no name is in the
    table twice, and while a definition is open its name is not in the
    table. *)
Definition collecting_inv (st : collecting) : Prop :=
  Forall (fun m => (strlen (macro_name m) < MAX_MACRO_NAME)%nat
                   /\ (strlen (content m) < MAX_MACRO_BODY)%nat) (macros st)
  /\ NoDup (List.map macro_name (macros st))
  /\ (strlen (current_macro_name st) < MAX_MACRO_NAME)%nat
  /\ content_length st = strlen (current_macro_content st)
  /\ (content_length st < MAX_MACRO_BODY - 1)%nat
  /\ (in_macro_definition st = true ->
      find_macro (macros st) (current_macro_name st) = None).

(** A character that is not NUL. *)
Definition not_nul (c : ascii) : bool := negb (ceqb c NULL_CHAR).

(** A line that is neither too long nor the start or the end of a macro
    definition. *)
Definition plain_line (line : string) : Prop :=
  line_too_long line = false
  /\ check_if_macro_start line = false
  /\ check_if_macro_end line = false.

(** The first line of the definition of the macro [nm], and the last. *)
Definition macro_start_line (nm : string) : string :=
  String.append "mcro " (String.append nm nl).
Definition macro_end_line : string := String.append MCROEND_KEYWORD nl.

(** The first word of a line, as [is_macro_call] and the expanding loop
    copy it. *)
Definition first_word (line : string) : string :=
  copy_word (MAX_MACRO_NAME - 1) (skip_blanks line).

(** The addresses [start], [start + 1], ... of [n] consecutive words. *)
Fixpoint addresses_from (start : Z) (n : nat) : list Z :=
  match n with
  | O => []
  | S k => start :: addresses_from (start + 1) k
  end.

(** A node of kind Code is defined and has its address in the code range
    below [hi]; a node of kind External is not defined and has address 0. *)
Definition code_or_external (hi : Z) (n : label_node) : Prop :=
  (type n = LABEL_CODE -> is_defined n = true /\ INITIAL_IC <= address n < hi)
  /\ (type n = LABEL_EXTERNAL -> is_defined n = false /\ address n = 0).

Definition code_inv (st : counters) : Prop :=
  INITIAL_IC <= IC st /\ Forall (code_or_external (IC st)) (table st).


(** A line of the object file for the cell at [address] that holds
    [word]: four letters that read the address modulo 256 in base 4, a
    blank, five letters that read the word modulo 1024, a newline. *)
Definition object_line (address word : Z) (line : string) : Prop :=
  exists address_str word_str,
    line = two_strings address_str word_str
    /\ strlen address_str = 4%nat /\ base4_decode address_str = Some (address mod 256)
    /\ strlen word_str = 5%nat /\ base4_decode word_str = Some (word mod 1024).

(** The cells the object file prints, with the address printed for each:
    the instruction words with the address stored in them, then the data
    words numbered on from the end of the instructions. *)
Definition object_cells (image : memory_image) : list (Z * Z) :=
  (List.map (fun w => (word_address w, word w)) (instructions image)
   ++ List.map (fun iw => (INITIAL_IC + instruction_count image + Z.of_nat (fst iw),
                           word (snd iw)))
        (List.combine (List.seq 0 (List.length (data image))) (data image)))%list.

(** * Properties *)

(** ** The base-4 encoders *)

Lemma base4_digit_letter (d : Z) :
  0 <= d < 4 -> base4_digit (ascii_of_N (ord BASE4_LETTER_OFFSET + Z.to_N d)) = Some d.
Proof.
  intros H.
  assert (d = 0 \/ d = 1 \/ d = 2 \/ d = 3) as [-> | [-> | [-> | ->]]] by lia;
    reflexivity.
Qed.

Lemma base4_decode_from_app (s1 s2 : string) :
  forall acc,
    base4_decode_from acc (String.append s1 s2) =
    match base4_decode_from acc s1 with
    | Some a => base4_decode_from a s2
    | None => None
    end.
Proof.
  induction s1 as [| c s1 IH]; intros acc; simpl.
  - reflexivity.
  - destruct (base4_digit c); [apply IH | reflexivity].
Qed.

Lemma strlen_append (s1 s2 : string) :
  String.length (String.append s1 s2) = (String.length s1 + String.length s2)%nat.
Proof.
  induction s1 as [| c s1 IH]; simpl; [reflexivity | now rewrite IH].
Qed.

Lemma base4_fill_length (digits : nat) :
  forall word, String.length (base4_fill digits word) = digits.
Proof.
  induction digits as [| k IH]; intros word; simpl.
  - reflexivity.
  - rewrite strlen_append, IH. simpl. lia.
Qed.

(** Decoding the digits the loop writes gives the word modulo [4 ^ digits]. *)
Lemma base4_decode_fill (digits : nat) :
  forall word acc,
    base4_decode_from acc (base4_fill digits word) =
    Some (acc * 4 ^ Z.of_nat digits + word mod 4 ^ Z.of_nat digits).
Proof.
  induction digits as [| k IH]; intros word acc.
  - simpl. rewrite Z.mod_1_r. f_equal. lia.
  - cbn [base4_fill]. rewrite base4_decode_from_app, IH.
    cbn [base4_decode_from].
    rewrite base4_digit_letter by (apply Z.mod_pos_bound; lia).
    f_equal.
    rewrite Nat2Z.inj_succ, Z.pow_succ_r by lia.
    rewrite (Z.rem_mul_r word 4 (4 ^ Z.of_nat k)) by lia.
    lia.
Qed.

(** C9: for every 10-bit word [w], the five letters [number_to_base4_code]
    emits for it, read as a base-4 numeral over a=0, b=1, c=2, d=3 with the
    most significant digit first, give back [w]. *)
Theorem base4_code_round_trip (w : Z) :
  0 <= w < 1024 ->
  String.length (number_to_base4_code w) = 5%nat /\
  base4_decode (number_to_base4_code w) = Some w.
Proof.
  intros Hw. unfold number_to_base4_code, base4_decode. split.
  - apply base4_fill_length.
  - rewrite base4_decode_fill. f_equal.
    unfold to_unsigned, TEN_BIT_MASK.
    rewrite (Z.mod_small w (2 ^ 32)) by lia.
    change 1023 with (Z.ones 10). rewrite Z.land_ones by lia.
    change (2 ^ 10) with 1024. change (4 ^ Z.of_nat 5) with 1024.
    rewrite Z.mod_mod by lia. rewrite Z.mod_small by lia. lia.
Qed.

Lemma base4_code_round_trip_witness :
  String.length (number_to_base4_code 960) = 5%nat /\
  base4_decode (number_to_base4_code 960) = Some 960.
Proof. apply (base4_code_round_trip 960). lia. Defined.

(** The digits the loop writes depend only on the word modulo
    [4 ^ digits]. *)
Lemma base4_fill_mod (digits : nat) :
  forall word, base4_fill digits (word mod 4 ^ Z.of_nat digits) = base4_fill digits word.
Proof.
  induction digits as [| k IH]; intros word; [reflexivity |].
  cbn [base4_fill].
  rewrite Nat2Z.inj_succ, Z.pow_succ_r by lia.
  assert (Hpos : 0 < 4 ^ Z.of_nat k) by (apply Z.pow_pos_nonneg; lia).
  replace ((word mod (4 * 4 ^ Z.of_nat k)) mod 4) with (word mod 4)
    by (rewrite Z.mod_mod_divide; [reflexivity | exists (4 ^ Z.of_nat k); lia]).
  replace (word mod (4 * 4 ^ Z.of_nat k) / 4) with ((word / 4) mod 4 ^ Z.of_nat k).
  - now rewrite IH.
  - rewrite (Z.rem_mul_r word 4 (4 ^ Z.of_nat k)) by lia.
    rewrite (Z.mul_comm 4 ((word / 4) mod 4 ^ Z.of_nat k)), Z.div_add by lia.
    rewrite (Z.div_small (word mod 4) 4) by (apply Z.mod_pos_bound; lia). lia.
Qed.

(** C10: for every non-negative address [a], the four letters
    [number_to_base4_letters] emits encode [a mod 256]: the encoder is total
    (it has no error result), keeps the four least significant base-4
    digits, and gives an address of 256 or more the letters of its
    remainder. *)
Theorem base4_letters_wrap (a : Z) :
  0 <= a ->
  String.length (number_to_base4_letters a) = 4%nat
  /\ base4_decode (number_to_base4_letters a) = Some (a mod 256)
  /\ number_to_base4_letters a = number_to_base4_letters (a mod 256).
Proof.
  intros Ha. unfold number_to_base4_letters, base4_decode. split; [| split].
  - apply base4_fill_length.
  - rewrite base4_decode_fill. f_equal.
    unfold to_unsigned. change (4 ^ Z.of_nat 4) with 256.
    rewrite Z.mod_mod_divide; [lia |].
    exists (2 ^ 24). reflexivity.
  - rewrite <- (base4_fill_mod 4 (to_unsigned a)).
    rewrite <- (base4_fill_mod 4 (to_unsigned (a mod 256))).
    f_equal. unfold to_unsigned. change (4 ^ Z.of_nat 4) with 256.
    rewrite !Z.mod_mod_divide by (exists (2 ^ 24); reflexivity).
    now rewrite Z.mod_mod by lia.
Qed.

Lemma base4_letters_wrap_witness :
  String.length (number_to_base4_letters 356) = 4%nat
  /\ base4_decode (number_to_base4_letters 356) = Some (356 mod 256)
  /\ number_to_base4_letters 356 = number_to_base4_letters (356 mod 256).
Proof. apply (base4_letters_wrap 356). lia. Defined.

(** A program whose data reaches the address 502 assembles without any
    error; the object file gives the word at 356 the letters of 100. *)
Example addresses_above_255_are_accepted :
  let out := files (process_file (text ["M: .mat [20][20]"; "jmp M"; "stop"])) in
  status out = true
  /\ number_to_base4_letters 356 = "bcba"
  /\ number_to_base4_letters 100 = "bcba".
Proof. repeat split; vm_compute; reflexivity. Qed.

(** ** Evaluations of the program on concrete source files *)

(** The scenarios of the specification, as the program runs them: a single
    [stop]; an external reference; an entry symbol; a matrix operand; a
    duplicate label. *)
Example scenario_trivial :
  process_file (text ["MAIN:   stop"]) =
    {| result := true;
       symbols := [ {| name := "MAIN"; address := 100; type := LABEL_CODE;
                       is_defined := true |} ];
       files := {| status := true; object_file := Some (text ["b a"; "bcba ddaaa"]);
                   entries_file := None; externals_file := None |} |}.
Proof. vm_compute. reflexivity. Qed.

Example scenario_external :
  files (process_file (text ["        .extern EXT1"; "        jmp EXT1"; "        stop"])) =
    {| status := true;
       object_file := Some (text ["d a"; "bcba cbaba"; "bcbb aaaab"; "bcbc ddaaa"]);
       entries_file := None; externals_file := Some (text ["EXT1 bcbb"]) |}.
Proof. vm_compute. reflexivity. Qed.

Example scenario_entry :
  files (process_file (text ["        .entry MAIN"; "MAIN:   rts"])) =
    {| status := true; object_file := Some (text ["b a"; "bcba dcaaa"]);
       entries_file := Some (text ["MAIN bcba"]); externals_file := None |}.
Proof. vm_compute. reflexivity. Qed.

Example scenario_matrix :
  let p := process_file (text ["MAT:    .mat [2][2] 1, 2, 3, 4";
                               "        mov MAT[r1][r2], r3"; "        stop"]) in
  result p = true
  /\ symbols p = [ {| name := "MAT"; address := 105; type := LABEL_DATA;
                      is_defined := true |} ]
  /\ externals_file (files p) = None.
Proof. repeat split; vm_compute; reflexivity. Qed.

Example scenario_duplicate_label :
  result (process_file (text ["A:      stop"; "A:      rts"])) = false.
Proof. vm_compute. reflexivity. Qed.

(** The test of [parse_line] for control characters compares
    [strcspn(line, CONTROL_CHARS)] with the length of the line; the set is
    empty as a C string, so the two are always equal. *)
Lemma control_chars_is_empty : CONTROL_CHARS = EmptyString.
Proof. reflexivity. Qed.

Lemma strcspn_control_chars (line : string) : strcspn line CONTROL_CHARS = strlen line.
Proof.
  rewrite control_chars_is_empty.
  induction line as [| c line IH]; simpl; [reflexivity | now rewrite IH].
Qed.

(** C8 at a line that holds the control character BEL (0x07): [parse_line]
    returns a parsed line, with the character inside an operand, and the
    file assembles. *)
Theorem control_character_is_accepted :
  parse_line ("stop " ++ BEL ++ nl) =
    Some {| label := None; operands := [BEL]; command := Some "stop" |}
  /\ parse_line ("S: .string " ++ quoted ("a" ++ BEL ++ "b") ++ nl) =
       Some {| label := Some "S"; operands := [quoted ("a" ++ BEL ++ "b")];
               command := Some ".string" |}
  /\ result (process_file (text ["S: .string " ++ quoted ("a" ++ BEL ++ "b"); "stop"])) = true.
Proof. repeat split; vm_compute; reflexivity. Qed.

(** C7 at lines of 79, 80 and 81 characters, each followed by a newline:
    the first pass accepts the line of 79 characters and reports the lines
    of 80 and of 81 characters as too long. *)
Theorem line_of_80_characters_is_rejected :
  String.length (pad 80 "stop") = 80%nat
  /\ first_pass_on_table (text [pad 80 "stop"]) [] =
       (false, {| table := []; IC := 100; DC := 0 |})
  /\ first_pass_on_table (text [pad 81 "stop"]) [] =
       (false, {| table := []; IC := 100; DC := 0 |})
  /\ first_pass_on_table (text [pad 79 "stop"]) [] =
       (true, {| table := []; IC := 101; DC := 0 |}).
Proof. repeat split; vm_compute; reflexivity. Qed.

(** C3 at a source whose macro definition is never closed: the expansion
    fails and leaves an empty [.am] file, the first and the second pass run
    on it and succeed, and the object file of the empty program is
    written. *)
Theorem unclosed_macro_still_assembles :
  failed (expand_macros (text ["mcro m"; "stop"])) = true
  /\ process_file (text ["mcro m"; "stop"]) =
       {| result := true; symbols := [];
          files := {| status := true; object_file := Some ("a a" ++ nl);
                      entries_file := None; externals_file := None |} |}.
Proof. split; vm_compute; reflexivity. Qed.

(** C2 at [mov r1, r2, r3] (three operands for an opcode of two) and at
    [mov r1, #5] (an immediate destination, outside the mask of [mov]):
    [check_line] rejects both parsed lines, but neither pass calls it, and
    both files assemble. *)
Theorem illegal_operands_still_assemble :
  (exists parts, parse_line ("mov r1, r2, r3" ++ nl) = Some parts
                 /\ operands parts = ["r1"; "r2"; "r3"] /\ check_line parts = false)
  /\ process_file (text ["mov r1, r2, r3"]) =
       {| result := true; symbols := [];
          files := {| status := true;
                      object_file := Some (text ["c a"; "bcba aadda"; "bcbb abaca"]);
                      entries_file := None; externals_file := None |} |}
  /\ (exists parts, parse_line ("mov r1, #5" ++ nl) = Some parts
                    /\ operands parts = ["r1"; "#5"] /\ check_line parts = false)
  /\ result (process_file (text ["mov r1, #5"])) = true.
Proof.
  split; [| split; [| split]].
  - eexists. split; [vm_compute; reflexivity |]. split; vm_compute; reflexivity.
  - vm_compute; reflexivity.
  - eexists. split; [vm_compute; reflexivity |]. split; vm_compute; reflexivity.
  - vm_compute; reflexivity.
Qed.

(** C1 at a data symbol named in [.entry].  Declared after its definition,
    [X] keeps the kind Data and no entries file is written.  Declared before
    its definition, [X] keeps the kind Entry, is not rebased, and the entries
    file gives it the address 0 ([aaaa]) although its word is at 101. *)
Theorem data_entry_is_not_emitted :
  process_file (text ["X: .data 5"; ".entry X"; "stop"]) =
    {| result := true;
       symbols := [ {| name := "X"; address := 101; type := LABEL_DATA; is_defined := true |} ];
       files := {| status := true;
                   object_file := Some (text ["b b"; "bcba ddaaa"; "bcbb aaabb"]);
                   entries_file := None; externals_file := None |} |}
  /\ process_file (text [".entry X"; "X: .data 5"; "stop"]) =
    {| result := true;
       symbols := [ {| name := "X"; address := 0; type := LABEL_ENTRY; is_defined := true |} ];
       files := {| status := true;
                   object_file := Some (text ["b b"; "bcba ddaaa"; "bcbb aaabb"]);
                   entries_file := Some (text ["X aaaa"]); externals_file := None |} |}.
Proof. split; vm_compute; reflexivity. Qed.

(** C6 at a labelled instruction whose line starts with a carriage return:
    the first pass skips the carriage return and counts one word, while the
    second pass parses the whole line, fails on the label and skips the line
    without an error, so no word is stored for an image of one cell. *)
Theorem carriage_return_line_is_not_encoded :
  first_pass_on_table (text [CR ++ "X: stop"]) [] =
    (true, {| table := [ {| name := "X"; address := 100; type := LABEL_CODE;
                            is_defined := true |} ];
              IC := 101; DC := 0 |})
  /\ (forall table,
        fill_image (fgets_all MAX_LINE_LENGTH (text [CR ++ "X: stop"])) table
          {| instructions := []; data := []; instruction_count := 1; data_count := 0;
             ic_final := 101; dc_final := 0 |} =
        ({| instructions := []; data := []; instruction_count := 1; data_count := 0;
            ic_final := 101; dc_final := 0 |}, [], false))
  /\ status (files (process_file (text [CR ++ "X: stop"]))) = true.
Proof. repeat split; vm_compute; reflexivity. Qed.

(** ** The first pass: data symbols and their addresses *)

Lemma to_int_small (v : Z) : - 2 ^ 31 <= v < 2 ^ 31 -> to_int v = v.
Proof.
  intros H. unfold to_int. rewrite Z.mod_small by lia. lia.
Qed.


Lemma Forall_update_label (P : label_node -> Prop) (f : label_node -> label_node) (nm : string) :
  forall tbl,
    (forall n, P n -> P (f n)) -> Forall P tbl -> Forall P (update_label tbl nm f).
Proof.
  intros tbl Hf. induction tbl as [| n tbl IH]; intros H; simpl.
  - constructor.
  - inversion H; subst. destruct (String.eqb (name n) nm); constructor; auto.
Qed.


Lemma add_label_cases (tbl : label_table) (nm : string) (addr : Z) (ty : label_type) :
  add_label tbl nm addr ty = (false, tbl)
  \/ add_label tbl nm addr ty =
       (true, {| name := nm; address := addr; type := ty; is_defined := false |} :: tbl).
Proof.
  unfold add_label.
  destruct (negb (is_valid_label nm)); [now left |].
  destruct (found (find_label tbl nm)); [now left | now right].
Qed.



(** A call of [define_label] that fails has not touched the table. *)
Lemma define_label_failure (tbl : label_table) (nm : string) (addr : Z) (ty : label_type) :
  fst (define_label tbl nm addr ty) = false -> snd (define_label tbl nm addr ty) = tbl.
Proof.
  unfold define_label.
  destruct (find_label tbl nm) as [existing |] eqn:Hfind.
  - destruct (is_defined existing); simpl; [reflexivity | discriminate].
  - destruct (add_label_cases tbl nm addr ty) as [-> | ->].
    + rewrite Hfind. reflexivity.
    + unfold mark_label_defined, find_label. simpl. rewrite String.eqb_refl. simpl.
      discriminate.
Qed.

Lemma define_if_labelled_failure (parts : separate_line) (st : counters) (addr : Z)
    (ty : label_type) :
  fst (define_if_labelled parts st addr ty) = false ->
  snd (define_if_labelled parts st addr ty) = table st.
Proof.
  unfold define_if_labelled. destruct (label parts); [apply define_label_failure |].
  reflexivity.
Qed.






Lemma estimate_ic_words_nonneg (parts : separate_line) : 0 <= estimate_ic_words parts.
Proof.
  unfold estimate_ic_words.
  repeat match goal with
         | |- context [match ?x with _ => _ end] => destruct x
         end; lia.
Qed.

Lemma parse_matrix_dimensions_positive (operand : string) (rows cols : Z) :
  FirstPass.parse_matrix_dimensions operand = Some (rows, cols) -> 0 < rows /\ 0 < cols.
Proof.
  unfold FirstPass.parse_matrix_dimensions.
  repeat match goal with
         | |- context [match ?x with _ => _ end] =>
             lazymatch x with
             | context [match _ with _ => _ end] => fail
             | _ => destruct x eqn:?
             end
         end; try discriminate.
  intros [= <- <-].
  apply orb_false_elim in Heqb3. destruct Heqb3 as [Hr Hc].
  apply Z.leb_gt in Hr, Hc. lia.
Qed.

Lemma declared_data_words_nonneg (line : string) : 0 <= declared_data_words line.
Proof.
  unfold declared_data_words, how_many_operands.
  repeat break_match; try lia.
  match goal with
  | H : FirstPass.parse_matrix_dimensions _ = Some _ |- _ =>
      apply parse_matrix_dimensions_positive in H
  end.
  nia.
Qed.

Lemma declared_data_total_nonneg (lines : list string) : 0 <= declared_data_total lines.
Proof.
  induction lines as [| line lines IH]; cbn; [lia |].
  pose proof (declared_data_words_nonneg line). unfold declared_data_total in IH. lia.
Qed.

(** A line changes the data counter by the number of words it declares, or
    not at all, as long as the sum stays in the [int] range. *)
Lemma process_line_data_counter (line : string) (st : counters) :
  0 <= DC st -> DC st + declared_data_words line < 2 ^ 31 ->
  DC (snd (process_line line st)) = DC st
  \/ DC (snd (process_line line st)) = DC st + declared_data_words line.
Proof.
  intros HDC. unfold process_line, declared_data_words. cbv zeta.
  change (if ceqb (head (skip_blanks line)) CARRIAGE_RETURN_CHAR
          then tail (skip_blanks line) else skip_blanks line) with (trimmed line).
  destruct (ceqb (head (trimmed line)) NULL_CHAR || ceqb (head (trimmed line)) NEWLINE_CHAR
            || ceqb (head (trimmed line)) SEMICOLON_CHAR); [now left |].
  destruct (parse_line (trimmed line)) as [parts |]; [| now left].
  destruct (is_data_directive (command parts)).
  { intros Hfit. repeat break_match; cbn [snd DC]; auto.
    right. apply to_int_small. unfold how_many_operands in *. lia. }
  destruct (is_string_directive (command parts)).
  { intros Hfit. repeat break_match; cbn [snd DC]; auto;
      right; rewrite to_int_small;
      try match goal with
          | H : (2 <=? _)%nat = true |- _ => apply Nat.leb_le in H
          | H : (2 <=? _)%nat = false |- _ => apply Nat.leb_gt in H
          end; lia. }
  destruct (is_mat_directive (command parts)).
  { destruct (operands parts) as [| dims values]; [now left |].
    destruct (FirstPass.parse_matrix_dimensions dims) as [[rows cols] |] eqn:Hdims;
      [| now left].
    apply parse_matrix_dimensions_positive in Hdims.
    intros Hfit. assert (Hprod : 0 < rows * cols) by nia.
    rewrite (to_int_small (rows * cols)) by lia.
    repeat break_match; cbn [snd DC]; auto.
    right. apply to_int_small. lia. }
  intros _. repeat break_match; cbn [snd DC]; auto.
Qed.




(** The data counter is an [int]: on the product 50000 * 50000 it wraps, the
    pass still succeeds, and the symbol defined after the matrix is rebased
    from a negative address.  The statement below leaves such files out. *)
Example data_counter_wraps :
  first_pass_on_table (text [".mat [50000][50000]"; "X: .data 1"; "stop"]) []
  = (true,
     {| table := [ {| name := "X"; address := -1794967195; type := LABEL_DATA;
                      is_defined := true |} ];
        IC := 101; DC := -1794967295 |}).
Proof. vm_compute. reflexivity. Qed.



(** ** The encoders of the second pass *)

Lemma get_instruction_operands (c : option string) (inst : command_instructions) :
  get_instruction c = Some inst ->
  num_of_operands inst = 0 \/ num_of_operands inst = 1 \/ num_of_operands inst = 2.
Proof.
  unfold get_instruction. destruct c as [n |]; [| discriminate].
  intros H. apply List.find_some in H. destruct H as [Hin _].
  simpl in Hin.
  repeat (destruct Hin as [<- | Hin]; [simpl; auto |]).
  contradiction.
Qed.

Lemma get_operand_mode_values (op : option string) :
  get_operand_mode op = FAILURE \/ get_operand_mode op = IMMEDIATE
  \/ get_operand_mode op = DIRECT \/ get_operand_mode op = MATRIX_ACCESS
  \/ get_operand_mode op = REGISTER.
Proof.
  unfold get_operand_mode. destruct op as [op |]; [| auto].
  repeat match goal with
         | |- context [if ?c then _ else _] => destruct c
         end; auto 6.
Qed.

Lemma strncpy_short (n : nat) :
  forall s, (strlen s <= n)%nat -> strncpy n s = s.
Proof.
  induction n as [| n IH]; intros [| c s] H; simpl in *; try reflexivity; try lia.
  f_equal. apply IH. lia.
Qed.

Lemma is_valid_label_length (l : string) :
  is_valid_label l = true -> (strlen l <= 30)%nat.
Proof.
  unfold is_valid_label.
  destruct (strlen l =? 0)%nat; [discriminate |].
  destruct (MAX_LABEL_LENGTH - 1 <? strlen l)%nat eqn:E; [discriminate |].
  intros _. apply Nat.ltb_ge in E. exact E.
Qed.

Lemma find_label_name (tbl : label_table) (nm : string) (n : label_node) :
  find_label tbl nm = Some n -> name n = nm /\ In n tbl.
Proof.
  unfold find_label. intros H. apply List.find_some in H. destruct H as [Hin Heq].
  apply String.eqb_eq in Heq. auto.
Qed.

Lemma found_name_fits (tbl : label_table) (nm : string) (n : label_node) :
  names_valid tbl -> find_label tbl nm = Some n -> strncpy MAX_LABEL_LENGTH nm = nm.
Proof.
  intros Hv Hf. apply find_label_name in Hf. destruct Hf as [<- Hin].
  apply strncpy_short. unfold names_valid in Hv. rewrite Forall_forall in Hv.
  specialize (Hv n Hin). apply is_valid_label_length in Hv. unfold MAX_LABEL_LENGTH. lia.
Qed.

(** What [get_operand_mode] has checked when it answers [MATRIX_ACCESS]. *)
Lemma matrix_operand_shape (op : string) :
  get_operand_mode (Some op) = MATRIX_ACCESS -> parse_matrix_access op = true.
Proof.
  unfold get_operand_mode.
  repeat match goal with
         | |- context [if ?c then _ else _] => destruct c eqn:?
         end; try discriminate; auto.
Qed.

Lemma is_valid_register_number (r : string) :
  is_valid_register r = true -> 0 <= get_register_number r.
Proof.
  unfold is_valid_register, get_register_number.
  destruct (negb (strlen r =? REGISTER_NAME_LENGTH)%nat); [discriminate |].
  destruct (negb (ceqb (head r) REGISTER_PREFIX_CHAR)); [discriminate |].
  destruct (negb (register_char (char_at r 1))) eqn:E; [discriminate |].
  intros _. apply negb_false_iff in E. unfold register_char in E.
  apply andb_prop in E. destruct E as [E _]. apply N.leb_le in E.
  change (ord MIN_REGISTER_CHAR) with 48%N in E. change (ord "0"%char) with 48%N. lia.
Qed.

Lemma register_operand_number (op : string) :
  get_operand_mode (Some op) = REGISTER -> 0 <= get_register_number op.
Proof.
  unfold get_operand_mode.
  repeat match goal with
         | |- context [if ?c then _ else _] => destruct c eqn:?
         end; try discriminate.
  intros _. apply is_valid_register_number. unfold is_valid_register.
  apply andb_prop in Heqb0. destruct Heqb0 as [-> ->]. rewrite Heqb1. reflexivity.
Qed.

Lemma label_word_exts (n : label_node) (sym : string) (addr : Z) (exts : list ext_ref)
    (tbl : label_table) :
  names_valid tbl -> find_label tbl sym = Some n ->
  snd (label_word n sym addr exts) =
    ((if label_type_eqb (type n) LABEL_EXTERNAL
      then [ {| symbol_name := sym; ref_address := addr |} ] else []) ++ exts)%list.
Proof.
  intros Hv Hf. unfold label_word.
  destruct (label_type_eqb (type n) LABEL_EXTERNAL); simpl; [| reflexivity].
  unfold add_external_reference. now rewrite (found_name_fits tbl sym n).
Qed.

(** One operand: on success the encoder stores the words counted for the
    mode and puts the operand's use site, if it is one, at the head of the
    list. *)
Lemma encode_one_spec (tbl : label_table) (op : option string) (addr : Z)
    (exts exts' : list ext_ref) (ws : list machine_word) :
  names_valid tbl ->
  get_operand_mode op <> FAILURE ->
  encode_one op tbl (convert_to_addressing_mode (get_operand_mode op)) addr exts
    = (true, ws, exts') ->
  exts' = (use_site tbl op addr ++ exts)%list
  /\ Z.of_nat (List.length ws) = words_for (convert_to_addressing_mode (get_operand_mode op))
  /\ words_for (convert_to_addressing_mode (get_operand_mode op))
     = operand_cost (get_operand_mode op).
Proof.
  intros Hv Hmode.
  destruct op as [op |]; [| now elim Hmode].
  unfold use_site, referenced_symbol.
  destruct (get_operand_mode_values (Some op)) as [Hm | [Hm | [Hm | [Hm | Hm]]]];
    [contradiction | | | |]; rewrite Hm.
  - change (convert_to_addressing_mode IMMEDIATE) with MODE_IMMEDIATE.
    cbn -[find_label strncpy]. intros [= <- <-]. auto.
  - change (convert_to_addressing_mode DIRECT) with MODE_DIRECT.
    cbn -[find_label strncpy label_word].
    destruct (find_label tbl op) as [n |] eqn:Hf; [| discriminate].
    pose proof (label_word_exts n op addr exts tbl Hv Hf) as Hw.
    destruct (label_word n op addr exts) as [w e]. simpl in Hw. subst e.
    intros [= <- <-]. auto.
  - change (convert_to_addressing_mode MATRIX_ACCESS) with MODE_MATRIX.
    change (MATRIX_ACCESS =? DIRECT) with false.
    change (MATRIX_ACCESS =? MATRIX_ACCESS) with true.
    cbv beta iota delta [encode_one words_for operand_cost].
    change (MATRIX_ACCESS =? MATRIX_ACCESS) with true. cbv iota.
    pose proof (matrix_operand_shape op Hm) as Hshape.
    unfold parse_matrix_access in Hshape. unfold encode_matrix_operand.
    destruct (strchr op OPEN_BRACKET) as [fb |]; [| discriminate].
    destruct (strchr (tail fb) CLOSE_BRACKET) as [fc |]; [| discriminate].
    destruct (strchr (tail fc) OPEN_BRACKET) as [sb |]; [| discriminate].
    destruct (strchr (tail sb) CLOSE_BRACKET) as [sc |]; [| discriminate].
    destruct ((strlen (before op OPEN_BRACKET) =? 0)%nat
              || negb (is_valid_label (before op OPEN_BRACKET))) eqn:Hl; [discriminate |].
    apply orb_false_elim in Hl. destruct Hl as [_ Hl]. apply negb_false_iff in Hl.
    rewrite (strncpy_short MAX_LABEL_LENGTH (before op OPEN_BRACKET))
      by (apply is_valid_label_length in Hl; unfold MAX_LABEL_LENGTH; lia).
    destruct ((get_register_number (strncpy REGISTER_NAME_LENGTH (tail fb)) <? 0)
              || (get_register_number (strncpy REGISTER_NAME_LENGTH (tail sb)) <? 0));
      [discriminate |].
    destruct (find_label tbl (before op OPEN_BRACKET)) as [n |] eqn:Hf; [| discriminate].
    pose proof (label_word_exts n (before op OPEN_BRACKET) addr exts tbl Hv Hf) as Hw.
    destruct (label_word n (before op OPEN_BRACKET) addr exts) as [w e]. simpl in Hw. subst e.
    intros [= <- <-]. auto.
  - change (convert_to_addressing_mode REGISTER) with MODE_REGISTER.
    cbn -[find_label strncpy get_register_number].
    destruct (get_register_number op <? 0); [discriminate |].
    intros [= <- <-]. auto.
Qed.

Lemma rev_use_site (tbl : label_table) (op : option string) (addr : Z) :
  List.rev (use_site tbl op addr) = use_site tbl op addr.
Proof.
  unfold use_site.
  repeat match goal with
         | |- context [match ?x with _ => _ end] => destruct x
         end; reflexivity.
Qed.

Lemma use_site_register (tbl : label_table) (op : option string) (addr : Z) :
  get_operand_mode op = REGISTER -> use_site tbl op addr = [].
Proof.
  unfold use_site, referenced_symbol. destruct op as [op |]; [| reflexivity].
  intros ->. reflexivity.
Qed.

Lemma register_operand_present (parts : separate_line) (i : nat) :
  get_operand_mode (operand parts i) = REGISTER ->
  (0 <=? match operand parts i with
         | Some r => get_register_number r
         | None => INVALID_REGISTER
         end) = true.
Proof.
  destruct (operand parts i) as [r |]; [| discriminate].
  intros H. apply Z.leb_le. now apply register_operand_number.
Qed.

Lemma encoded_eq {A B C D : Type} (a a' : A) (b b' : B) (c c' : C) (d d' : D) :
  (a, b, c, d) = (a', b', c', d') -> a = a' /\ b = b' /\ c = c' /\ d = d'.
Proof. intros H. now inversion H. Qed.

(** One instruction: on success the encoder stores as many words as the
    first pass counted, which is the count of section 4.5, and the use sites
    of the instruction are put in front of the list, the last one first. *)
Lemma encode_instruction_spec (tbl : label_table) (parts : separate_line) (ic : Z)
    (exts exts' : list ext_ref) (ws : list machine_word) (n : Z) :
  names_valid tbl ->
  encode_instruction parts tbl ic exts = (true, ws, n, exts') ->
  n = estimate_ic_words parts
  /\ Z.of_nat (List.length ws) = n
  /\ exts' = (List.rev (instruction_use_sites tbl parts ic) ++ exts)%list
  /\ match get_instruction (command parts) with
     | Some inst =>
         n = words_per_instruction (num_of_operands inst)
               (get_operand_mode (operand parts 0))
               (get_operand_mode (operand parts (Z.to_nat (num_of_operands inst - 1))))
     | None => False
     end.
Proof.
  intros Hv. unfold encode_instruction, estimate_ic_words, instruction_use_sites.
  destruct (get_instruction (command parts)) as [inst |] eqn:Hinst; [| discriminate].
  destruct (get_instruction_operands _ _ Hinst) as [Hn | [Hn | Hn]]; rewrite Hn.
  - cbn -[create_instruction_word]. intros H.
    apply encoded_eq in H as (_ & <- & <- & <-).
    repeat split; auto.
  - change (1 <=? 1) with true. change (1 =? 2) with false. change (1 =? 0) with false.
    change (1 =? 1) with true. change (Z.to_nat (1 - 1)) with 0%nat.
    cbv iota. cbn [andb].
    destruct (get_operand_mode (operand parts 0) =? FAILURE) eqn:Hm; [discriminate |].
    apply Z.eqb_neq in Hm.
    destruct (encode_one (operand parts 0) tbl
                (convert_to_addressing_mode (get_operand_mode (operand parts 0))) (ic + 1) exts)
      as [[ok ws1] exts1] eqn:Henc.
    destruct ok; [| discriminate]. cbn [negb].
    intros H. apply encoded_eq in H as (_ & <- & <- & <-).
    destruct (encode_one_spec _ _ _ _ _ _ Hv Hm Henc) as (-> & Hlen & Hcost).
    rewrite Hcost in *. unfold operand_cost in *.
    split; [| split; [| split]].
    + destruct (get_operand_mode (operand parts 0) =? MATRIX_ACCESS); reflexivity.
    + cbn [List.length]. rewrite Nat2Z.inj_succ. lia.
    + now rewrite rev_use_site.
    + unfold words_per_instruction. reflexivity.
  - change (1 <=? 2) with true. change (2 =? 2) with true. change (2 =? 0) with false.
    change (2 =? 1) with false. change (Z.to_nat (2 - 1)) with 1%nat.
    cbv iota. cbn [andb].
    destruct (get_operand_mode (operand parts 1) =? FAILURE) eqn:Hm1; [discriminate |].
    destruct (get_operand_mode (operand parts 0) =? FAILURE) eqn:Hm0; [discriminate |].
    apply Z.eqb_neq in Hm0, Hm1.
    pose proof (fun e' w => encode_one_spec tbl (operand parts 0) (ic + 1) exts e' w Hv Hm0)
      as H0.
    pose proof (fun a e e' w => encode_one_spec tbl (operand parts 1) a e e' w Hv Hm1) as H1.
    pose proof (register_operand_present parts 0) as Hr0.
    pose proof (register_operand_present parts 1) as Hr1.
    rewrite List.rev_app_distr, !rev_use_site.
    unfold words_per_instruction.
    change (2 =? 0) with false. change (2 =? 1) with false. cbv iota.
    destruct (get_operand_mode_values (operand parts 0)) as [E0 | [E0 | [E0 | [E0 | E0]]]];
      [contradiction | | | |];
      (destruct (get_operand_mode_values (operand parts 1)) as [E1 | [E1 | [E1 | [E1 | E1]]]];
       [contradiction | | | |]);
      rewrite E0, E1 in *;
      cbn -[encode_one create_instruction_word use_site Z.add get_register_number
              INVALID_REGISTER operand] in *.
    all: try (rewrite Hr0, Hr1 by reflexivity; cbn [andb];
              intros H; apply encoded_eq in H as (_ & <- & <- & <-);
              rewrite !use_site_register by assumption;
              repeat split; reflexivity).
    all: try (destruct (encode_one (operand parts 0) tbl _ (ic + 1) exts)
                as [[ok0 ws1] e1] eqn:He0;
              destruct ok0; [| discriminate]; cbn [negb];
              destruct (H0 _ _ eq_refl) as (-> & Hl0 & _);
              match goal with
              | |- context [encode_one (operand ?p 1) ?t ?m ?a ?e] =>
                  destruct (encode_one (operand p 1) t m a e) as [[ok1 ws2] e2] eqn:He1
              end;
              destruct ok1; [| discriminate]; cbn [negb];
              destruct (H1 _ _ _ _ He1) as (-> & Hl1 & _);
              intros H; apply encoded_eq in H as (_ & <- & <- & <-)).
    all: split; [reflexivity |]; split; [| split; [| reflexivity]].
    all: try (cbn [List.length]; rewrite Nat2Z.inj_succ, List.length_app, Nat2Z.inj_add; lia).
    all: rewrite <- List.app_assoc, ?Z.add_assoc; reflexivity.
Qed.

(** ** The names in the table of the first pass *)

Lemma update_label_names_valid (f : label_node -> label_node) (nm : string) (tbl : label_table) :
  (forall n, name (f n) = name n) -> names_valid tbl -> names_valid (update_label tbl nm f).
Proof.
  intros Hf. apply Forall_update_label. intros n Hn. now rewrite Hf.
Qed.

Lemma add_label_names_valid (tbl : label_table) (nm : string) (addr : Z) (ty : label_type) :
  names_valid tbl -> names_valid (snd (add_label tbl nm addr ty)).
Proof.
  intros H. unfold add_label.
  destruct (negb (is_valid_label nm)) eqn:Hl; [assumption |].
  destruct (found (find_label tbl nm)); [assumption |].
  simpl. constructor; [| assumption]. simpl. now apply negb_false_iff in Hl.
Qed.

Lemma define_existing_name (addr : Z) (ty : label_type) (n : label_node) :
  name (define_existing addr ty n) = name n.
Proof.
  unfold define_existing. destruct (negb (label_type_eqb (type (set_address addr n)) LABEL_ENTRY));
    reflexivity.
Qed.

Lemma define_label_names_valid (tbl : label_table) (nm : string) (addr : Z) (ty : label_type) :
  names_valid tbl -> names_valid (snd (define_label tbl nm addr ty)).
Proof.
  intros H. unfold define_label.
  destruct (find_label tbl nm) as [existing |] eqn:Hfind.
  - destruct (is_defined existing); simpl; [assumption |].
    apply update_label_names_valid; [apply define_existing_name | assumption].
  - pose proof (add_label_names_valid tbl nm addr ty H) as Hadd.
    destruct (add_label tbl nm addr ty) as [added tbl1]. simpl in Hadd.
    destruct added.
    + unfold mark_label_defined. destruct (find_label tbl1 nm) as [l |]; simpl; [| assumption].
      destruct (is_defined l); simpl; [assumption |].
      now apply update_label_names_valid.
    + destruct (find_label tbl1 nm) as [l |]; simpl; [| assumption].
      destruct (negb (is_defined l)); simpl; [| assumption].
      apply update_label_names_valid; [apply define_existing_name | assumption].
Qed.

Lemma extern_loop_names_valid (ops : list string) :
  forall tbl, names_valid tbl -> names_valid (snd (extern_loop ops tbl)).
Proof.
  induction ops as [| op ops IH]; intros tbl H; simpl; [assumption |].
  destruct (find_label tbl op) as [ex |].
  - destruct (is_defined ex); simpl; auto.
  - apply IH. now apply add_label_names_valid.
Qed.

Lemma entry_loop_names_valid (ops : list string) :
  forall tbl, names_valid tbl -> names_valid (entry_loop ops tbl).
Proof.
  induction ops as [| op ops IH]; intros tbl H; simpl; [assumption |].
  destruct (find_label tbl op) as [en |].
  - destruct (is_defined en).
    + destruct (negb (label_type_eqb (type en) LABEL_DATA)); apply IH; auto.
      now apply update_label_names_valid.
    + apply IH. now apply update_label_names_valid.
  - apply IH. now apply add_label_names_valid.
Qed.

Lemma process_line_names_valid (line : string) (st : counters) :
  names_valid (table st) -> names_valid (table (snd (process_line line st))).
Proof.
  intros Htbl. unfold process_line.
  repeat break_match; simpl; try assumption.
  all: try (apply entry_loop_names_valid; assumption).
  all: try match goal with
           | H : extern_loop ?ops (table ?s0) = (_, ?l) |- names_valid ?l =>
               pose proof (extern_loop_names_valid ops (table s0) Htbl) as Hl;
               rewrite H in Hl; exact Hl
           end.
  all: match goal with
       | H : define_if_labelled ?p ?s0 ?a ?ty = (_, ?l) |- names_valid ?l =>
           unfold define_if_labelled in H; destruct (label p) as [lbl |];
           [ pose proof (define_label_names_valid (table s0) lbl a ty Htbl) as Hl;
             rewrite H in Hl; exact Hl
           | injection H as _ <-; assumption ]
       end.
Qed.

Lemma first_pass_loop_names_valid (lines : list string) :
  forall st has_errors,
    names_valid (table st) ->
    names_valid (table (fst (first_pass_loop lines st has_errors))).
Proof.
  induction lines as [| line lines IH]; intros st has_errors H; simpl; [assumption |].
  destruct (line_too_long line); [now apply IH |].
  pose proof (process_line_names_valid line st H) as Hstep.
  destruct (process_line line st) as [ok st']. now apply IH.
Qed.

Lemma first_pass_names_valid (file : string) (ok : bool) (st : counters) :
  first_pass_on_table file [] = (ok, st) -> names_valid (table st).
Proof.
  unfold first_pass_on_table. intros H.
  pose proof (first_pass_loop_names_valid (fgets_all MAX_LINE_LENGTH file)
                {| table := []; IC := INITIAL_IC; DC := INITIAL_DC |} false) as Hv.
  destruct (first_pass_loop (fgets_all MAX_LINE_LENGTH file)
              {| table := []; IC := INITIAL_IC; DC := INITIAL_DC |} false) as [st0 has_errors].
  injection H as _ <-. simpl in *.
  specialize (Hv (Forall_nil _)).
  destruct (negb has_errors); [| assumption].
  unfold names_valid in *. rewrite Forall_map. eapply Forall_impl; [| exact Hv].
  intros n Hn. unfold rebase.
  destruct (label_type_eqb (type n) LABEL_DATA && is_defined n); assumption.
Qed.

(** ** The instruction loop of the second pass *)

(** One line of the loop that ends without error: the line is not too long,
    no error was recorded before it, and when it holds an instruction its
    use sites are put in front of the list and the counter advances by the
    count of the first pass. *)
Lemma encode_line_spec (tbl : label_table) (capacity : Z) (line : string) (st : encoding) :
  names_valid tbl ->
  has_errors (encode_line tbl capacity line st) = false ->
  has_errors st = false
  /\ line_too_long line = false
  /\ match instruction_on line with
     | Some parts =>
         ext_list (encode_line tbl capacity line st) =
           (List.rev (instruction_use_sites tbl parts (current_ic st)) ++ ext_list st)%list
         /\ current_ic (encode_line tbl capacity line st) =
              current_ic st + estimate_ic_words parts
     | None =>
         ext_list (encode_line tbl capacity line st) = ext_list st
         /\ current_ic (encode_line tbl capacity line st) = current_ic st
     end.
Proof.
  intros Hv. unfold encode_line, instruction_on.
  destruct (line_too_long line); [discriminate |].
  destruct (blank_or_comment line); [auto |].
  destruct (parse_line line) as [parts |]; [| auto].
  assert (Hinstr :
            has_errors
              (let '(ok, words, word_count, exts) :=
                 encode_instruction parts tbl (current_ic st) (ext_list st) in
               if ok
               then {| image_instructions :=
                         copy_words (firstn (Z.to_nat word_count) words) capacity
                           (image_instructions st);
                       current_ic := current_ic st + word_count;
                       ext_list := exts; has_errors := has_errors st |}
               else {| image_instructions := image_instructions st;
                       current_ic := current_ic st; ext_list := exts;
                       has_errors := true |}) = false ->
            has_errors st = false /\ false = false
            /\ ext_list
                 (let '(ok, words, word_count, exts) :=
                    encode_instruction parts tbl (current_ic st) (ext_list st) in
                  if ok
                  then {| image_instructions :=
                            copy_words (firstn (Z.to_nat word_count) words) capacity
                              (image_instructions st);
                          current_ic := current_ic st + word_count;
                          ext_list := exts; has_errors := has_errors st |}
                  else {| image_instructions := image_instructions st;
                          current_ic := current_ic st; ext_list := exts;
                          has_errors := true |}) =
                 (List.rev (instruction_use_sites tbl parts (current_ic st)) ++ ext_list st)%list
            /\ current_ic
                 (let '(ok, words, word_count, exts) :=
                    encode_instruction parts tbl (current_ic st) (ext_list st) in
                  if ok
                  then {| image_instructions :=
                            copy_words (firstn (Z.to_nat word_count) words) capacity
                              (image_instructions st);
                          current_ic := current_ic st + word_count;
                          ext_list := exts; has_errors := has_errors st |}
                  else {| image_instructions := image_instructions st;
                          current_ic := current_ic st; ext_list := exts;
                          has_errors := true |}) =
                 current_ic st + estimate_ic_words parts).
  { destruct (encode_instruction parts tbl (current_ic st) (ext_list st))
      as [[[ok words] word_count] exts] eqn:Henc.
    destruct ok; [| discriminate]. cbn [has_errors ext_list current_ic].
    destruct (encode_instruction_spec _ _ _ _ _ _ _ Hv Henc) as (-> & _ & -> & _).
    auto. }
  destruct (command parts) as [c |]; [| exact Hinstr].
  destruct (ceqb (head c) DOT_CHAR); [auto | exact Hinstr].
Qed.

Lemma encode_lines_no_error (tbl : label_table) (capacity : Z) (lines : list string) :
  forall st,
    names_valid tbl ->
    has_errors (List.fold_left (fun st line => encode_line tbl capacity line st) lines st)
      = false ->
    has_errors st = false.
Proof.
  induction lines as [| line lines IH]; intros st Hv H; simpl in H; [assumption |].
  apply IH in H; [| assumption].
  now apply encode_line_spec in H.
Qed.

(** The whole loop: the list holds the use sites of the program, the last
    one first. *)
Lemma encode_lines_spec (tbl : label_table) (capacity : Z) (lines : list string) :
  forall st,
    names_valid tbl ->
    has_errors (List.fold_left (fun st line => encode_line tbl capacity line st) lines st)
      = false ->
    ext_list (List.fold_left (fun st line => encode_line tbl capacity line st) lines st)
    = (List.rev (use_sites tbl lines (current_ic st)) ++ ext_list st)%list.
Proof.
  induction lines as [| line lines IH]; intros st Hv H; simpl in *; [reflexivity |].
  rewrite (IH _ Hv H).
  apply encode_lines_no_error in H; [| assumption].
  apply encode_line_spec in H; [| assumption].
  destruct H as (_ & _ & H).
  destruct (instruction_on line) as [parts |]; destruct H as [-> ->].
  - rewrite List.rev_app_distr, <- List.app_assoc. reflexivity.
  - reflexivity.
Qed.

Lemma data_line_no_error (line : string) (st : list machine_word * bool) :
  snd (data_line line st) = false -> snd st = false.
Proof.
  unfold data_line.
  repeat break_match; simpl; auto; discriminate.
Qed.

Lemma data_lines_no_error (lines : list string) :
  forall st,
    snd (List.fold_left (fun st line => data_line line st) lines st) = false ->
    snd st = false.
Proof.
  induction lines as [| line lines IH]; intros st H; simpl in H; [assumption |].
  apply IH in H. now apply data_line_no_error in H.
Qed.

Lemma generate_externals_file_text (sites : list ext_ref) :
  generate_externals_file sites = externals_text sites.
Proof. destruct sites; reflexivity. Qed.

(** What a successful [second_pass] has computed: an image, and the two
    loops ended without error. *)
Lemma second_pass_success (file : string) (tbl : label_table) (ic dc : Z) :
  status (second_pass file tbl ic dc) = true ->
  exists image filled exts,
    create_memory_image ic dc = Some image
    /\ fill_image (fgets_all MAX_LINE_LENGTH file) tbl image = (filled, exts, false)
    /\ second_pass file tbl ic dc =
         {| status := true; object_file := generate_object_file filled;
            entries_file := generate_entries_file tbl;
            externals_file := generate_externals_file exts |}.
Proof.
  unfold second_pass.
  destruct (create_memory_image ic dc) as [image |]; [| discriminate].
  destruct (fill_image (fgets_all MAX_LINE_LENGTH file) tbl image)
    as [[filled exts] has_errors] eqn:Hfill.
  destruct has_errors; [discriminate |]. simpl. intros _.
  exists image, filled, exts. auto.
Qed.

(** The claim of C4 as it is stated fails: with two use sites the file
    lists the later one first. *)
Lemma externals_in_order_of_occurrence_fails :
  ~ (forall file st,
        first_pass_on_table file [] = (true, st) ->
        status (second_pass file (table st) (IC st) (DC st)) = true ->
        use_sites (table st) (fgets_all MAX_LINE_LENGTH file) INITIAL_IC <> [] ->
        externals_file (second_pass file (table st) (IC st) (DC st)) =
          externals_text (use_sites (table st) (fgets_all MAX_LINE_LENGTH file) INITIAL_IC)).
Proof.
  intros H.
  specialize (H (text [".extern E"; ".extern F"; "mov E, F"; "stop"])
                (snd (first_pass_on_table
                        (text [".extern E"; ".extern F"; "mov E, F"; "stop"]) []))).
  vm_compute in H.
  specialize (H eq_refl eq_refl ltac:(discriminate)). discriminate H.
Qed.

(** C4, amended: when the two passes succeed, the externals file is absent
    if the program has no use site of an external symbol, and otherwise
    holds exactly one line [SYMBOL ADDRESS] per use site, in the reverse of
    the order in which the use sites occur in the instruction pass. *)
Theorem externals_in_reverse_order (file : string) (st : counters) :
  first_pass_on_table file [] = (true, st) ->
  status (second_pass file (table st) (IC st) (DC st)) = true ->
  externals_file (second_pass file (table st) (IC st) (DC st)) =
    externals_text
      (List.rev (use_sites (table st) (fgets_all MAX_LINE_LENGTH file) INITIAL_IC)).
Proof.
  intros Hfirst Hsecond.
  pose proof (first_pass_names_valid _ _ _ Hfirst) as Hv.
  destruct (second_pass_success _ _ _ _ Hsecond) as (image & filled & exts & _ & Hfill & ->).
  cbn [externals_file]. rewrite generate_externals_file_text. f_equal.
  unfold fill_image in Hfill.
  match type of Hfill with
  | (let '(data, errs) := ?loop in _) = _ => destruct loop as [data errs] eqn:Hdata
  end.
  apply pair_equal_spec in Hfill. destruct Hfill as [Hfill ->].
  apply pair_equal_spec in Hfill. destruct Hfill as [_ <-].
  pose proof (data_lines_no_error _ _ (f_equal snd Hdata)) as Herr.
  cbn [snd] in Herr.
  rewrite (encode_lines_spec _ _ _ _ Hv Herr). cbn [ext_list current_ic].
  now rewrite List.app_nil_r.
Qed.

Lemma externals_in_reverse_order_witness :
  externals_file
    (second_pass (text [".extern E"; ".extern F"; "mov E, F"; "jmp E"; "stop"])
       [ {| name := "F"; address := 0; type := LABEL_EXTERNAL; is_defined := false |};
         {| name := "E"; address := 0; type := LABEL_EXTERNAL; is_defined := false |} ]
       106 0)
  = Some (text ["E bcca"; "F bcbc"; "E bcbb"]).
Proof.
  exact (externals_in_reverse_order
           (text [".extern E"; ".extern F"; "mov E, F"; "jmp E"; "stop"])
           {| table := [ {| name := "F"; address := 0; type := LABEL_EXTERNAL;
                            is_defined := false |};
                         {| name := "E"; address := 0; type := LABEL_EXTERNAL;
                            is_defined := false |} ];
              IC := 106; DC := 0 |}
           eq_refl eq_refl).
Defined.

(** ** The operand loop of the parser never uses up its fuel *)

Lemma skip_blanks_length (s : string) : (strlen (skip_blanks s) <= strlen s)%nat.
Proof.
  unfold skip_blanks, strlen.
  induction s as [| c s IH]; simpl; [lia |].
  destruct (is_blank c); simpl; lia.
Qed.

Lemma tail_length (s : string) : (strlen (tail s) <= strlen s)%nat.
Proof. destruct s; simpl; unfold strlen; simpl; lia. Qed.

Lemma read_plain_length (s : string) :
  forall i, (strlen (snd (read_plain i s)) <= strlen s)%nat.
Proof.
  unfold strlen. induction s as [| c s IH]; intros i; simpl; [lia |].
  destruct (ends_operand c || negb (i <? MAX_LINE_LENGTH)%nat); simpl; [lia |].
  specialize (IH (S i)). destruct (read_plain (S i) s). simpl in *. lia.
Qed.

Lemma read_quoted_length (s : string) :
  forall i, (strlen (snd (read_quoted i s)) <= strlen s)%nat.
Proof.
  unfold strlen. induction s as [| c s IH]; intros i; simpl; [lia |].
  destruct (ceqb c QUOTE_CHAR || negb (i <? MAX_LINE_LENGTH)%nat); simpl; [lia |].
  specialize (IH (S i)). destruct (read_quoted (S i) s). simpl in *. lia.
Qed.

(** An operand that does not start at a separator takes at least one
    character. *)
Lemma read_plain_progress (s : string) :
  s <> EmptyString -> ends_operand (head s) = false ->
  (strlen (snd (read_plain 0 s)) < strlen s)%nat.
Proof.
  destruct s as [| c s]; [congruence |]. intros _ H.
  unfold head, char_at in H. simpl in H. simpl. rewrite H. simpl.
  pose proof (read_plain_length s 1) as Hl.
  destruct (read_plain 1 s). unfold strlen in *. simpl in *. lia.
Qed.

Lemma head_empty (s : string) : at_line_end (head s) = false -> s <> EmptyString.
Proof. intros H ->. discriminate H. Qed.

Lemma head_tail_length (s : string) (c : ascii) :
  ceqb (head s) c = true -> c <> NULL_CHAR -> (strlen (tail s) < strlen s)%nat.
Proof.
  destruct s as [| d s]; unfold strlen; [| simpl; lia].
  change (head EmptyString) with NULL_CHAR. unfold ceqb.
  intros H Hc. apply Ascii.eqb_eq in H. congruence.
Qed.

(** Any two amounts of fuel above the length of the text give the same
    operands: [extract_operands] starts the loop with one more than the
    length. *)
Lemma operands_loop_fuel :
  forall fuel1 fuel2 s ops,
    (strlen s < fuel1)%nat -> (strlen s < fuel2)%nat ->
    operands_loop fuel1 s ops = operands_loop fuel2 s ops.
Proof.
  induction fuel1 as [| fuel1 IH]; intros fuel2 s ops H1 H2; [lia |].
  destruct fuel2 as [| fuel2]; [lia |].
  cbn [operands_loop].
  destruct ((strlen s =? 0)%nat || negb (List.length ops <? MAX_OPERANDS)%nat); [reflexivity |].
  pose proof (skip_blanks_length s) as Hs.
  set (p := skip_blanks s) in *.
  destruct (at_line_end (head p)) eqn:Hend; [reflexivity |].
  assert (Hstep :
            forall op after,
              (strlen after <= strlen p)%nat ->
              (ceqb (head (skip_blanks after)) COMMA_CHAR = false ->
               (strlen after < strlen p)%nat) ->
              (let ops := (ops ++ [op])%list in
               let current_pos := skip_blanks after in
               if ceqb (head current_pos) COMMA_CHAR
               then
                 let current_pos := tail current_pos in
                 let temp_pos := skip_blanks current_pos in
                 if ceqb (head temp_pos) COMMA_CHAR || at_line_end (head temp_pos) then None
                 else operands_loop fuel1 current_pos ops
               else operands_loop fuel1 current_pos ops)
              =
              (let ops := (ops ++ [op])%list in
               let current_pos := skip_blanks after in
               if ceqb (head current_pos) COMMA_CHAR
               then
                 let current_pos := tail current_pos in
                 let temp_pos := skip_blanks current_pos in
                 if ceqb (head temp_pos) COMMA_CHAR || at_line_end (head temp_pos) then None
                 else operands_loop fuel2 current_pos ops
               else operands_loop fuel2 current_pos ops)).
  { intros op after Hle Hlt. cbv zeta.
    pose proof (skip_blanks_length after) as Ha.
    destruct (ceqb (head (skip_blanks after)) COMMA_CHAR) eqn:Hcomma.
    - destruct (ceqb (head (skip_blanks (tail (skip_blanks after)))) COMMA_CHAR
                || at_line_end (head (skip_blanks (tail (skip_blanks after)))));
        [reflexivity |].
      pose proof (head_tail_length _ _ Hcomma ltac:(discriminate)) as Ht.
      apply IH; lia.
    - specialize (Hlt eq_refl). apply IH; lia. }
  destruct (ceqb (head p) QUOTE_CHAR) eqn:Hq.
  - pose proof (read_quoted_length (tail p) 1) as Hl.
    pose proof (head_tail_length _ _ Hq ltac:(discriminate)) as Ht.
    destruct (read_quoted 1 (tail p)) as [copied after]. cbn [snd] in Hl.
    destruct (ceqb (head after) QUOTE_CHAR).
    + pose proof (tail_length after). apply Hstep; intros; lia.
    + apply Hstep; intros; lia.
  - pose proof (read_plain_length p 0) as Hl.
    destruct (ends_operand (head p)) eqn:Hsep.
    + (* the operand is empty: the separator is a comma *)
      destruct (read_plain 0 p) as [copied after] eqn:Hr. cbn [snd] in Hl.
      apply Hstep; [lia |]. intros Hc. exfalso.
      assert (after = p) as ->.
      { destruct p as [| c p']; [discriminate Hend |].
        unfold head, char_at in Hsep. simpl in Hsep. simpl in Hr. rewrite Hsep in Hr.
        simpl in Hr. now injection Hr as _ <-. }
      assert (Hb : is_blank (head p) = false).
      { subst p. unfold skip_blanks. clear.
        induction s as [| c s IH]; simpl; [reflexivity |].
        destruct (is_blank c) eqn:E; [exact IH | unfold head, char_at; simpl; exact E]. }
      assert (Hp : skip_blanks p = p).
      { destruct p as [| c p']; [reflexivity |].
        unfold head, char_at in Hb. simpl in Hb. unfold skip_blanks. simpl. now rewrite Hb. }
      rewrite Hp in Hc.
      unfold ends_operand, at_line_end, is_blank in *.
      rewrite Hc in Hsep. simpl in Hsep.
      apply orb_false_elim in Hb. destruct Hb as [Hb1 Hb2].
      apply orb_false_elim in Hend. destruct Hend as [Hend Hcr].
      apply orb_false_elim in Hend. destruct Hend as [_ Hnl].
      rewrite Hb1, Hb2, Hnl, Hcr in Hsep. discriminate Hsep.
    + pose proof (read_plain_progress p (head_empty _ Hend) Hsep) as Hlt.
      destruct (read_plain 0 p) as [copied after]. cbn [snd] in *.
      apply Hstep; intros; lia.
Qed.

(** ** The buffers [fgets] fills *)

Lemma c_str_length (s : string) : (strlen (c_str s) <= strlen s)%nat.
Proof.
  unfold strlen. induction s as [| c s IH]; simpl; [lia |].
  destruct (ceqb c NULL_CHAR); simpl; lia.
Qed.

Lemma rev_string_length (s : string) :
  forall acc, strlen (rev_string acc s) = (strlen acc + strlen s)%nat.
Proof.
  unfold strlen. induction s as [| c s IH]; intros acc; simpl; [lia |].
  rewrite IH. simpl. lia.
Qed.

Lemma fgets_loop_lengths (size : nat) (file : string) :
  forall room cur,
    (2 <= size)%nat -> (1 <= room)%nat -> (room + strlen cur = size - 1)%nat ->
    Forall (fun line => (strlen line <= size - 1)%nat) (fgets_loop size room cur file).
Proof.
  induction file as [| c file IH]; intros room cur Hsize Hroom Hcur; simpl.
  - destruct cur; constructor; [| constructor].
    pose proof (c_str_length (rev_string EmptyString (String a cur))) as Hc.
    rewrite rev_string_length in Hc. unfold strlen in *. simpl in *. lia.
  - destruct (ceqb c "010"%char || (room =? 1)%nat) eqn:E.
    + constructor.
      * pose proof (c_str_length (rev_string EmptyString (String c cur))) as Hc.
        rewrite rev_string_length in Hc. unfold strlen in *. simpl in *. lia.
      * apply IH; unfold strlen; simpl; lia.
    + apply orb_false_elim in E. destruct E as [_ E]. apply Nat.eqb_neq in E.
      apply IH; unfold strlen in *; simpl; lia.
Qed.

(** Every buffer read with [fgets(line, MAX_LINE_LENGTH, file)] holds at most
    80 characters. *)
Lemma fgets_all_lengths (file : string) :
  Forall (fun line => (strlen line <= 80)%nat) (fgets_all MAX_LINE_LENGTH file).
Proof.
  unfold fgets_all. apply (fgets_loop_lengths MAX_LINE_LENGTH); unfold MAX_LINE_LENGTH, strlen;
    simpl; lia.
Qed.

(** ** Leading blanks do not change what [parse_line] returns *)

Lemma parse_line_blank (c : ascii) (s : string) :
  is_blank c = true -> (strlen (String c s) <= 80)%nat ->
  parse_line (String c s) = parse_line s.
Proof.
  intros Hc Hlen.
  assert (Hmem : mem c WHITESPACE_CHARS = true).
  { unfold is_blank in Hc. unfold WHITESPACE_CHARS. simpl.
    apply orb_prop in Hc. destruct Hc as [-> | ->]; simpl; auto using orb_true_r. }
  assert (Hcolon : ceqb c COLON = false).
  { unfold is_blank, ceqb in Hc. apply orb_prop in Hc.
    destruct Hc as [Hc | Hc]; apply Ascii.eqb_eq in Hc; subst c; reflexivity. }
  assert (Hskip : skip_blanks (String c s) = skip_blanks s)
    by (unfold skip_blanks; simpl; now rewrite Hc).
  unfold parse_line.
  rewrite !strcspn_control_chars, !Nat.eqb_refl. cbn [negb].
  rewrite (strncpy_short (MAX_LINE_LENGTH - 1) (String c s)) by exact Hlen.
  rewrite (strncpy_short (MAX_LINE_LENGTH - 1) s)
    by (unfold strlen in *; simpl in *; unfold MAX_LINE_LENGTH; lia).
  change (strlen (String c s) =? 0)%nat with false. cbv iota.
  replace (MAX_LINE_LENGTH <=? strlen (String c s))%nat with false
    by (symmetry; apply Nat.leb_gt; unfold MAX_LINE_LENGTH; lia).
  replace (MAX_LINE_LENGTH <=? strlen s)%nat with false
    by (symmetry; apply Nat.leb_gt; unfold strlen in *; simpl in *; unfold MAX_LINE_LENGTH; lia).
  cbn [strspn]. rewrite Hmem.
  change (S (strspn s WHITESPACE_CHARS) =? strlen (String c s))%nat
    with (strspn s WHITESPACE_CHARS =? strlen s)%nat.
  destruct (strlen s =? 0)%nat eqn:Hempty.
  { apply Nat.eqb_eq in Hempty. destruct s; [| discriminate Hempty]. reflexivity. }
  destruct (strspn s WHITESPACE_CHARS =? strlen s)%nat; [reflexivity |].
  unfold handle_label_extraction, extract_label.
  rewrite Hskip. cbn [strchr]. rewrite Hcolon.
  destruct (strchr s COLON) as [colon_pos |]; [reflexivity |].
  rewrite Hskip. reflexivity.
Qed.

Lemma parse_line_skip_blanks (line : string) :
  (strlen line <= 80)%nat -> parse_line line = parse_line (skip_blanks line).
Proof.
  induction line as [| c s IH]; intros Hlen; [reflexivity |].
  unfold skip_blanks. cbn [drop_while]. destruct (is_blank c) eqn:Hc; [| reflexivity].
  rewrite parse_line_blank by assumption.
  apply IH. unfold strlen in *. simpl in *. lia.
Qed.

(** ** The two passes count the same words *)

Lemma declared_data_words_parsed (line : string) (parts : separate_line) :
  (strlen line <= 80)%nat -> no_leading_cr line -> parse_line line = Some parts ->
  declared_data_words line =
    if is_data_directive (command parts) then how_many_operands parts
    else if is_string_directive (command parts) then
      match operands parts with
      | [s] => Z.of_nat (strlen s - 2) + 1
      | _ => 0
      end
    else if is_mat_directive (command parts) then
      match operands parts with
      | dims :: _ =>
          match FirstPass.parse_matrix_dimensions dims with
          | Some (rows, cols) => rows * cols
          | None => 0
          end
      | [] => 0
      end
    else 0.
Proof.
  intros Hlen Hcr Hparse. unfold declared_data_words, trimmed. cbv zeta.
  unfold no_leading_cr in Hcr. rewrite Hcr.
  rewrite <- parse_line_skip_blanks by assumption. rewrite Hparse. reflexivity.
Qed.

Lemma process_line_step (line : string) (s s' : counters) :
  (strlen line <= 80)%nat -> no_leading_cr line ->
  0 <= DC s -> DC s + declared_data_words line < 2 ^ 31 ->
  process_line line s = (true, s') -> first_pass_step line s s'.
Proof.
  intros Hlen Hcr HDC Hfit.
  pose proof (declared_data_words_parsed line) as Hdecl.
  unfold no_leading_cr in Hcr. unfold process_line. rewrite Hcr.
  rewrite <- parse_line_skip_blanks by assumption.
  fold (blank_or_comment line).
  destruct (blank_or_comment line) eqn:Hblank.
  { intros [= <-]. now apply step_blank. }
  destruct (parse_line line) as [parts |] eqn:Hparse; [| discriminate].
  rewrite (Hdecl parts Hlen Hcr eq_refl) in Hfit. clear Hdecl.
  destruct (is_data_directive (command parts)) eqn:Hdata.
  { repeat break_match; try discriminate. intros [= <-].
    eapply step_data; eauto. cbn [DC]. apply to_int_small.
    unfold how_many_operands in *. lia. }
  destruct (is_string_directive (command parts)) eqn:Hstring.
  { repeat break_match; try discriminate; intros [= <-];
      match goal with
      | H : (_ <? 2)%nat || _ = false |- _ =>
          apply orb_false_elim in H; destruct H as [Hl _]; apply Nat.ltb_ge in Hl
      end;
      try match goal with
          | H : (2 <=? _)%nat = false |- _ => apply Nat.leb_gt in H; lia
          end;
      eapply step_string; eauto. cbn [DC]. apply to_int_small. lia. }
  destruct (is_mat_directive (command parts)) eqn:Hmat.
  { destruct (operands parts) as [| dims values] eqn:Hops; [discriminate |].
    destruct (FirstPass.parse_matrix_dimensions dims) as [[rows cols] |] eqn:Hdims;
      [| discriminate].
    pose proof (parse_matrix_dimensions_positive _ _ _ Hdims) as Hpos.
    assert (Hprod : 0 < rows * cols) by nia.
    rewrite (to_int_small (rows * cols)) by lia.
    repeat break_match; try discriminate. intros [= <-].
    eapply step_mat; eauto; [lia |]. cbn [DC]. apply to_int_small. lia. }
  destruct (is_extern_directive (command parts)) eqn:Hextern.
  { repeat break_match; try discriminate. intros [= _ <-].
    eapply step_symbols; eauto. }
  destruct (is_entry_directive (command parts)) eqn:Hentry.
  { intros [= <-]. eapply step_symbols; eauto. }
  repeat break_match; try discriminate. intros [= <-].
  apply Z.eqb_neq in Heqb.
  eapply step_instruction; eauto.
Qed.

Lemma first_pass_loop_sticky (lines : list string) :
  forall s, snd (first_pass_loop lines s true) = true.
Proof.
  induction lines as [| line lines IH]; intros s; simpl; [reflexivity |].
  destruct (line_too_long line); [apply IH |].
  destruct (process_line line s) as [ok s']. destruct ok; apply IH.
Qed.

Lemma first_pass_loop_steps (lines : list string) :
  forall s sf,
    Forall (fun line => (strlen line <= 80)%nat) lines ->
    Forall no_leading_cr lines ->
    0 <= DC s -> DC s + declared_data_total lines < 2 ^ 31 ->
    first_pass_loop lines s false = (sf, false) ->
    first_pass_steps lines s sf.
Proof.
  induction lines as [| line lines IH]; intros s sf Hlen Hcr HDC Hfit H; simpl in H.
  - injection H as <-. constructor.
  - inversion Hlen; subst. inversion Hcr; subst.
    cbn [declared_data_total List.fold_right] in Hfit.
    fold (declared_data_total lines) in Hfit.
    pose proof (declared_data_words_nonneg line) as Hline.
    pose proof (declared_data_total_nonneg lines) as Htotal.
    destruct (line_too_long line) eqn:Hlong.
    { pose proof (first_pass_loop_sticky lines s) as Hs. rewrite H in Hs. discriminate. }
    pose proof (process_line_data_counter line s HDC ltac:(lia)) as Hdc.
    destruct (process_line line s) as [ok s'] eqn:Hp. cbn [snd] in Hdc.
    destruct ok.
    + econstructor; [assumption | apply process_line_step; eauto; lia |].
      apply IH; auto; lia.
    + pose proof (first_pass_loop_sticky lines s') as Hs. rewrite H in Hs. discriminate.
Qed.

Lemma first_pass_step_mono (line : string) (s s' : counters) :
  first_pass_step line s s' -> IC s <= IC s'.
Proof.
  intros H. destruct H; subst; try lia.
  pose proof (estimate_ic_words_nonneg parts). lia.
Qed.

Lemma first_pass_steps_mono (lines : list string) (s s' : counters) :
  first_pass_steps lines s s' -> IC s <= IC s'.
Proof.
  induction 1 as [| line rest s s' s'' _ Hstep _ IH]; [lia |].
  apply first_pass_step_mono in Hstep. lia.
Qed.

Lemma is_command_dot (cmd : option string) (directive : string) :
  is_command cmd directive = true -> ceqb (head directive) DOT_CHAR = true ->
  match cmd with
  | Some c => ceqb (head c) DOT_CHAR
  | None => false
  end = true.
Proof.
  unfold is_command. destruct cmd as [c |]; [| discriminate].
  intros H. apply String.eqb_eq in H. now subst.
Qed.

Lemma instruction_not_dot (cmd : option string) (inst : command_instructions) :
  get_instruction cmd = Some inst ->
  match cmd with
  | Some c => ceqb (head c) DOT_CHAR
  | None => false
  end = false.
Proof.
  unfold get_instruction. destruct cmd as [c |]; [| discriminate].
  intros H. apply List.find_some in H. destruct H as [Hin Heq].
  apply String.eqb_eq in Heq. subst c. simpl in Hin.
  repeat (destruct Hin as [<- | Hin]; [reflexivity |]).
  contradiction.
Qed.

Lemma copy_words_length (ws : list machine_word) (capacity : Z) :
  forall stored,
    Z.of_nat (List.length stored) + Z.of_nat (List.length ws) <= capacity ->
    List.length (copy_words ws capacity stored) = (List.length stored + List.length ws)%nat.
Proof.
  induction ws as [| w ws IH]; intros stored H; simpl in *; [lia |].
  destruct (Z.of_nat (List.length stored) <? capacity) eqn:E.
  - rewrite IH; rewrite List.length_app; simpl; lia.
  - apply Z.ltb_ge in E. lia.
Qed.

Lemma store_values_length (values : list Z) :
  forall data,
    List.length (store_values values data) = (List.length data + List.length values)%nat.
Proof.
  induction values as [| v values IH]; intros data; simpl; [lia |].
  rewrite IH, List.length_app. simpl. lia.
Qed.

Lemma string_bytes_length (s : string) : List.length (string_bytes s) = String.length s.
Proof. induction s as [| c s IH]; simpl; [reflexivity | now rewrite IH]. Qed.

Lemma substring_length (s : string) :
  forall n m, (n + m <= String.length s)%nat -> String.length (String.substring n m s) = m.
Proof.
  induction s as [| c s IH]; intros n m H; simpl in *.
  - destruct n, m; simpl; lia.
  - destruct n as [| n].
    + destruct m as [| m]; simpl; [reflexivity |]. rewrite IH; lia.
    + apply IH. lia.
Qed.

(** The two copies of [parse_matrix_dimensions] agree. *)
Lemma parse_matrix_dimensions_agree (dims : string) (rows cols : Z) :
  FirstPass.parse_matrix_dimensions dims = Some (rows, cols) ->
  SecondPass.parse_matrix_dimensions (Some dims) = Some (rows, cols).
Proof.
  unfold FirstPass.parse_matrix_dimensions, SecondPass.parse_matrix_dimensions.
  unfold MAX_MATRIX_DIMENSION_LENGTH, MATRIX_DIMENSION_STRING_LENGTH.
  repeat break_match; try discriminate; auto.
  - intros _.
    match goal with H : (_ <=? 0) || (_ <=? 0) = false |- _ =>
      apply orb_false_elim in H; destruct H as [H1 H2]; apply Z.leb_gt in H1, H2 end.
    match goal with H : (0 <? _) && (0 <? _) = false |- _ =>
      apply andb_false_iff in H; destruct H as [H | H]; apply Z.ltb_ge in H; lia end.
Qed.

(** One line of the instruction loop stores as many words as the first pass
    counted for it. *)
Lemma encode_line_count (tbl : label_table) (capacity : Z) (line : string)
    (s s' : counters) (st : encoding) :
  names_valid tbl ->
  first_pass_step line s s' ->
  line_too_long line = false ->
  has_errors (encode_line tbl capacity line st) = false ->
  Z.of_nat (List.length (image_instructions st)) + (IC s' - IC s) <= capacity ->
  Z.of_nat (List.length (image_instructions (encode_line tbl capacity line st)))
  = Z.of_nat (List.length (image_instructions st)) + (IC s' - IC s).
Proof.
  intros Hv Hstep Hlong. unfold encode_line. rewrite Hlong.
  destruct Hstep as
    [Hblank -> | parts Hblank Hparse Hd HIC _ | parts str Hblank Hparse _ Hd _ _ HIC _
     | parts dims values rows cols Hblank Hparse _ _ Hd _ _ _ HIC _
     | parts Hblank Hparse _ _ _ Hd HIC _
     | parts Hblank Hparse Hdata Hstring Hmat Hextern Hentry Hwords HIC _];
    rewrite Hblank; try (intros; lia); rewrite Hparse, HIC.
  - rewrite (is_command_dot _ _ Hd eq_refl). intros; lia.
  - rewrite (is_command_dot _ _ Hd eq_refl). intros; lia.
  - rewrite (is_command_dot _ _ Hd eq_refl). intros; lia.
  - destruct Hd as [Hd | Hd]; rewrite (is_command_dot _ _ Hd eq_refl); intros; lia.
  - assert (Hinst : exists inst, get_instruction (command parts) = Some inst).
    { unfold estimate_ic_words in Hwords.
      destruct (get_instruction (command parts)) as [inst |]; [eauto | congruence]. }
    destruct Hinst as [inst Hinst]. rewrite (instruction_not_dot _ _ Hinst).
    destruct (encode_instruction parts tbl (current_ic st) (ext_list st))
      as [[[ok words] word_count] exts] eqn:Henc.
    destruct ok; [| discriminate]. cbn [has_errors image_instructions].
    destruct (encode_instruction_spec _ _ _ _ _ _ _ Hv Henc) as (-> & Hlen & _).
    intros _ Hcap.
    rewrite <- Hlen, Nat2Z.id, List.firstn_all.
    rewrite copy_words_length by lia. lia.
Qed.

(** One line of the data loop stores as many words as the first pass
    counted for it. *)
Lemma data_line_count (line : string) (s s' : counters) (st : list machine_word * bool) :
  first_pass_step line s s' ->
  Z.of_nat (List.length (fst (data_line line st)))
  = Z.of_nat (List.length (fst st)) + (DC s' - DC s).
Proof.
  intros Hstep. unfold data_line.
  destruct Hstep as
    [Hblank -> | parts Hblank Hparse Hd _ HDC | parts str Hblank Hparse Hdata Hd Hops Hlen _ HDC
     | parts dims values rows cols Hblank Hparse Hdata Hstring Hd Hops Hdims Hfit _ HDC
     | parts Hblank Hparse Hdata Hstring Hmat _ _ HDC
     | parts Hblank Hparse Hdata Hstring Hmat _ _ _ _ HDC];
    rewrite Hblank; try lia; rewrite Hparse, HDC;
    unfold is_data_directive, is_string_directive, is_mat_directive in *.
  - rewrite Hd. cbn [orb]. unfold process_data_line. rewrite Hd.
    cbn [fst]. rewrite store_values_length, List.length_map.
    unfold how_many_operands. lia.
  - rewrite Hdata, Hd. cbn [orb]. unfold process_data_line. rewrite Hdata, Hd, Hops.
    cbn [fst]. rewrite store_values_length, List.length_app, string_bytes_length.
    rewrite substring_length by (unfold strlen in *; lia).
    cbn [List.length]. lia.
  - rewrite Hdata, Hstring, Hd. cbn [orb]. unfold process_data_line.
    rewrite Hdata, Hstring, Hd.
    unfold operand at 1. rewrite Hops. cbn [nth_error].
    rewrite (parse_matrix_dimensions_agree _ _ _ Hdims).
    cbn [fst]. rewrite store_values_length, List.length_map, List.length_seq.
    apply parse_matrix_dimensions_positive in Hdims.
    rewrite to_int_small by nia. nia.
  - rewrite Hdata, Hstring, Hmat. cbn [orb]. lia.
  - rewrite Hdata, Hstring, Hmat. cbn [orb]. lia.
Qed.

Lemma instruction_loop_count (tbl : label_table) (capacity : Z) (lines : list string)
    (s sf : counters) :
  names_valid tbl ->
  first_pass_steps lines s sf ->
  forall st,
    has_errors (List.fold_left (fun st line => encode_line tbl capacity line st) lines st)
      = false ->
    Z.of_nat (List.length (image_instructions st)) + (IC sf - IC s) <= capacity ->
    Z.of_nat
      (List.length
         (image_instructions
            (List.fold_left (fun st line => encode_line tbl capacity line st) lines st)))
    = Z.of_nat (List.length (image_instructions st)) + (IC sf - IC s).
Proof.
  intros Hv Hsteps.
  induction Hsteps as [s | line rest s s' s'' Hlong Hstep Hsteps IH]; intros st Herr Hcap;
    simpl in *; [lia |].
  pose proof (first_pass_steps_mono _ _ _ Hsteps) as Hmono.
  pose proof (encode_lines_no_error _ _ _ _ Hv Herr) as Herr1.
  pose proof (encode_line_count tbl capacity line s s' st Hv Hstep Hlong Herr1) as Hline.
  rewrite IH; [| assumption | lia]. lia.
Qed.

Lemma data_loop_count (lines : list string) (s sf : counters) :
  first_pass_steps lines s sf ->
  forall st,
    Z.of_nat (List.length (fst (List.fold_left (fun st line => data_line line st) lines st)))
    = Z.of_nat (List.length (fst st)) + (DC sf - DC s).
Proof.
  intros Hsteps.
  induction Hsteps as [s | line rest s s' s'' Hlong Hstep Hsteps IH]; intros st;
    simpl in *; [lia |].
  rewrite IH. rewrite (data_line_count line s s' st Hstep). lia.
Qed.

(** When both passes succeed on a file none of whose lines has a carriage
    return as its first character after the leading blanks, and which
    declares fewer than 2^31 data words, the second pass stores exactly
    [IC_final - 100] instruction words and [DC_final] data words, the sizes
    of the image it allocated, and the object file is written from them. *)
Theorem passes_count_the_same_words (file : string) (st : counters) :
  first_pass_on_table file [] = (true, st) ->
  status (second_pass file (table st) (IC st) (DC st)) = true ->
  Forall no_leading_cr (fgets_all MAX_LINE_LENGTH file) ->
  declared_data_total (fgets_all MAX_LINE_LENGTH file) < 2 ^ 31 ->
  exists image filled exts,
    create_memory_image (IC st) (DC st) = Some image
    /\ fill_image (fgets_all MAX_LINE_LENGTH file) (table st) image = (filled, exts, false)
    /\ Z.of_nat (List.length (instructions filled)) = IC st - INITIAL_IC
    /\ Z.of_nat (List.length (data filled)) = DC st
    /\ instruction_count filled = IC st - INITIAL_IC
    /\ data_count filled = DC st
    /\ exists text, object_file (second_pass file (table st) (IC st) (DC st)) = Some text.
Proof.
  intros Hfirst Hsecond Hcr Hfit.
  pose proof (first_pass_names_valid _ _ _ Hfirst) as Hv.
  destruct (second_pass_success _ _ _ _ Hsecond) as (image & filled & exts & Himg & Hfill & Hout).
  exists image, filled, exts. split; [assumption |]. split; [assumption |].
  unfold first_pass_on_table in Hfirst.
  destruct (first_pass_loop (fgets_all MAX_LINE_LENGTH file)
              {| table := []; IC := INITIAL_IC; DC := INITIAL_DC |} false)
    as [sf has_errors] eqn:Hloop.
  destruct has_errors; [discriminate |]. cbn [negb] in Hfirst.
  injection Hfirst as <-. cbn [IC DC table] in *.
  assert (Hsteps : first_pass_steps (fgets_all MAX_LINE_LENGTH file)
                     {| table := []; IC := INITIAL_IC; DC := INITIAL_DC |} sf).
  { apply first_pass_loop_steps; auto using fgets_all_lengths;
      cbn [DC]; unfold INITIAL_DC; lia. }
  unfold create_memory_image in Himg.
  destruct (IC sf <? INITIAL_IC); [discriminate |].
  destruct (DC sf <? 0); [discriminate |].
  injection Himg as <-.
  unfold fill_image in Hfill. cbn [instruction_count data_count ic_final dc_final] in Hfill.
  match type of Hfill with
  | (let '(data, errs) := ?loop in _) = _ => destruct loop as [cells errs] eqn:Hdata
  end.
  apply pair_equal_spec in Hfill. destruct Hfill as [Hfill ->].
  apply pair_equal_spec in Hfill. destruct Hfill as [<- _].
  pose proof (data_lines_no_error _ _ (f_equal snd Hdata)) as Herr. cbn [snd] in Herr.
  pose proof (instruction_loop_count _ _ _ _ _ Hv Hsteps _ Herr) as Hinstr.
  cbn [image_instructions List.length IC] in Hinstr.
  specialize (Hinstr ltac:(unfold INITIAL_IC in *; lia)).
  pose proof (data_loop_count _ _ _ Hsteps
                ([], has_errors
                       (List.fold_left
                          (fun s line => encode_line (map (rebase (IC sf)) (table sf))
                                           (IC sf - INITIAL_IC) line s)
                          (fgets_all MAX_LINE_LENGTH file)
                          {| image_instructions := []; current_ic := INITIAL_IC;
                             ext_list := []; has_errors := false |}))) as Hd.
  rewrite Hdata in Hd. cbn [fst List.length DC] in Hd.
  cbn [instructions data instruction_count data_count].
  unfold INITIAL_DC in Hd.
  split; [lia |]. split; [lia |]. split; [reflexivity |]. split; [reflexivity |].
  rewrite Hout. cbn [object_file]. unfold generate_object_file.
  cbn [instructions data instruction_count data_count].
  replace (Z.of_nat (List.length (image_instructions _)) =? IC sf - INITIAL_IC) with true
    by (symmetry; apply Z.eqb_eq; lia).
  replace (Z.of_nat (List.length cells) =? DC sf) with true
    by (symmetry; apply Z.eqb_eq; lia).
  cbn [negb orb]. eauto.
Qed.

Lemma passes_count_the_same_words_example :
  let file := text ["mov #5, r1"; "LEN: .data 7, -1"; "stop"] in
  let st := {| table := [ {| name := "LEN"; address := 104; type := LABEL_DATA;
                             is_defined := true |} ];
               IC := 104; DC := 2 |} in
  exists image filled exts,
    create_memory_image (IC st) (DC st) = Some image
    /\ fill_image (fgets_all MAX_LINE_LENGTH file) (table st) image = (filled, exts, false)
    /\ Z.of_nat (List.length (instructions filled)) = IC st - INITIAL_IC
    /\ Z.of_nat (List.length (data filled)) = DC st
    /\ instruction_count filled = IC st - INITIAL_IC
    /\ data_count filled = DC st
    /\ exists text, object_file (second_pass file (table st) (IC st) (DC st)) = Some text.
Proof.
  intros file st. apply (passes_count_the_same_words file st).
  - vm_compute. reflexivity.
  - vm_compute. reflexivity.
  - repeat constructor.
  - vm_compute. reflexivity.
Defined.


(** * Further properties of the code *)

(** ** Encoders: bit fields *)

Lemma base4_code_length (value : Z) : String.length (number_to_base4_code value) = 5%nat.
Proof. unfold number_to_base4_code. apply base4_fill_length. Qed.

Lemma base4_code_decode (value : Z) :
  base4_decode (number_to_base4_code value) = Some (value mod 1024).
Proof.
  unfold number_to_base4_code, base4_decode.
  rewrite base4_decode_fill. f_equal.
  unfold to_unsigned, TEN_BIT_MASK.
  change 1023 with (Z.ones 10). rewrite Z.land_ones by lia.
  change (2 ^ 10) with 1024. change (4 ^ Z.of_nat 5) with 1024.
  rewrite Z.mod_mod by lia.
  rewrite Z.mod_mod_divide; [lia |]. exists (2 ^ 22). reflexivity.
Qed.

(** X1: [number_to_base4_code] writes exactly five letters, and read back as a
    base-4 number they give the value modulo 1024: the ten low bits of the
    two's complement of the argument are kept and nothing else. *)
Theorem base4_code_keeps_ten_bits (value : Z) :
  String.length (number_to_base4_code value) = 5%nat
  /\ base4_decode (number_to_base4_code value) = Some (value mod 1024).
Proof.
  split; [apply base4_code_length | apply base4_code_decode].
Qed.

Lemma land_15 (o : Z) : Z.land o 15 = o mod 16.
Proof. change 15 with (Z.ones 4). now rewrite Z.land_ones by lia. Qed.

Lemma small_cases (o : Z) :
  0 <= o < 16 ->
  o = 0 \/ o = 1 \/ o = 2 \/ o = 3 \/ o = 4 \/ o = 5 \/ o = 6 \/ o = 7 \/ o = 8 \/ o = 9
  \/ o = 10 \/ o = 11 \/ o = 12 \/ o = 13 \/ o = 14 \/ o = 15.
Proof. lia. Qed.

Lemma pack_fields (o : Z) (src dst : addressing_mode) (a : are_type) :
  0 <= o < 16 ->
  let w :=
    Z.lor (Z.lor (Z.lor (Z.lor 0 (Z.shiftl (Z.land o OPCODE_MASK) 6))
                    (Z.shiftl (Z.land (mode_value src) MODE_MASK) 4))
             (Z.shiftl (Z.land (mode_value dst) MODE_MASK) 2))
      (Z.shiftl (Z.land (are_value a) ARE_MASK) 0) in
  w = 64 * o + 16 * mode_value src + 4 * mode_value dst + are_value a
  /\ 0 <= w < 1024
  /\ Z.land (Z.shiftr w 6) 15 = o
  /\ Z.land (Z.shiftr w 4) 3 = mode_value src
  /\ Z.land (Z.shiftr w 2) 3 = mode_value dst
  /\ Z.land w 3 = are_value a.
Proof.
  intros Ho.
  destruct (small_cases o Ho) as
    [-> | [-> | [-> | [-> | [-> | [-> | [-> | [-> | [-> | [-> | [-> | [-> | [-> | [-> | [-> | ->]]]]]]]]]]]]]]];
    destruct src, dst, a; vm_compute; repeat split; intros; discriminate.
Qed.

(** X2: [create_instruction_word] packs the opcode modulo 16 into bits 6 to 9,
    the source mode into bits 4 and 5, the destination mode into bits 2 and
    3 and the A/R/E value into bits 0 and 1; the word is below 1024 and
    every field can be read back from it. *)
Theorem create_instruction_word_fields (opcode : Z) (src dst : addressing_mode) (a : are_type) :
  let w := create_instruction_word opcode src dst a in
  w = 64 * (opcode mod 16) + 16 * mode_value src + 4 * mode_value dst + are_value a
  /\ 0 <= w < 1024
  /\ Z.land (Z.shiftr w 6) 15 = opcode mod 16
  /\ Z.land (Z.shiftr w 4) 3 = mode_value src
  /\ Z.land (Z.shiftr w 2) 3 = mode_value dst
  /\ Z.land w 3 = are_value a.
Proof.
  assert (Hm : 0 <= opcode mod 16 < 16) by (apply Z.mod_pos_bound; lia).
  pose proof (pack_fields (opcode mod 16) src dst a Hm) as H.
  cbv zeta in *. unfold create_instruction_word.
  replace (Z.land (if (opcode <? 0) || (15 <? opcode) then Z.land opcode OPCODE_MASK else opcode)
             OPCODE_MASK)
    with (Z.land (opcode mod 16) OPCODE_MASK); [exact H |].
  change OPCODE_MASK with 15. rewrite !land_15.
  destruct ((opcode <? 0) || (15 <? opcode)) eqn:E.
  - rewrite ?land_15, ?Z.mod_mod by lia. reflexivity.
  - rewrite ?land_15, ?Z.mod_mod by lia. reflexivity.
Qed.

Lemma ceqb_eq (a b : ascii) : ceqb a b = true -> a = b.
Proof. apply Ascii.eqb_eq. Qed.

Lemma ceqb_refl (a : ascii) : ceqb a a = true.
Proof. apply Ascii.eqb_refl. Qed.

Lemma ceqb_class (p : ascii -> bool) (c q : ascii) :
  p c = true -> p q = false -> ceqb c q = false.
Proof.
  intros Hc Hq. destruct (ceqb c q) eqn:E; [| reflexivity].
  apply ceqb_eq in E. subst. congruence.
Qed.

Lemma register_char_digit (c : ascii) :
  register_char c = true <-> exists d, (d < 8)%nat /\ c = ascii_of_nat (48 + d).
Proof.
  unfold register_char, ord. split.
  - intros H. apply andb_true_iff in H as [H1 H2].
    apply N.leb_le in H1, H2. change (N_of_ascii MIN_REGISTER_CHAR) with 48%N in H1.
    change (N_of_ascii MAX_REGISTER_CHAR) with 55%N in H2.
    exists (N.to_nat (N_of_ascii c) - 48)%nat. split; [lia |].
    replace (48 + (N.to_nat (N_of_ascii c) - 48))%nat with (N.to_nat (N_of_ascii c)) by lia.
    unfold ascii_of_nat. rewrite N2Nat.id. symmetry. apply ascii_N_embedding.
  - intros (d & Hd & ->).
    do 8 (destruct d as [| d]; [reflexivity |]). lia.
Qed.

Lemma get_operand_mode_register (r : string) :
  get_operand_mode (Some r) = REGISTER <-> is_valid_register r = true.
Proof.
  unfold get_operand_mode, is_valid_register.
  destruct (strlen r =? REGISTER_NAME_LENGTH)%nat eqn:L;
    destruct (ceqb (head r) REGISTER_PREFIX_CHAR) eqn:R;
    destruct (register_char (char_at r 1)) eqn:C;
    destruct (ceqb (head r) QUOTE_CHAR) eqn:Q; cbn [negb andb];
    try (apply ceqb_eq in R, Q; rewrite R in Q; discriminate Q);
    split; intros H; try reflexivity; try discriminate H;
    revert H; repeat break_match; mode_values; intros H; discriminate H.
Qed.

Lemma get_register_number_valid (r : string) :
  0 <= get_register_number r <-> is_valid_register r = true.
Proof.
  unfold get_register_number, is_valid_register, INVALID_REGISTER.
  destruct (strlen r =? REGISTER_NAME_LENGTH)%nat; cbn [negb]; [| split; [lia | discriminate]].
  destruct (ceqb (head r) REGISTER_PREFIX_CHAR); cbn [negb]; [| split; [lia | discriminate]].
  destruct (register_char (char_at r 1)) eqn:C; cbn [negb]; [| split; [lia | discriminate]].
  split; [reflexivity | intros _].
  unfold register_char, ord in *. apply andb_true_iff in C as [C1 C2].
  apply N.leb_le in C1, C2. change (N_of_ascii MIN_REGISTER_CHAR) with 48%N in C1.
  change (N_of_ascii "0") with 48%N. lia.
Qed.

Lemma is_valid_register_name (r : string) :
  is_valid_register r = true <-> exists d, (d < 8)%nat /\ r = register_name d.
Proof.
  split.
  - unfold is_valid_register. intros H.
    destruct (strlen r =? REGISTER_NAME_LENGTH)%nat eqn:L; [| discriminate].
    destruct (ceqb (head r) REGISTER_PREFIX_CHAR) eqn:R; [| discriminate].
    destruct (register_char (char_at r 1)) eqn:C; [| discriminate].
    destruct r as [| c1 [| c2 [| c3 rest]]]; try discriminate L.
    apply ceqb_eq in R. cbn in R. subst c1.
    apply register_char_digit in C as (d & Hd & C). cbn in C. subst c2.
    exists d. split; [assumption | reflexivity].
  - intros (d & Hd & ->).
    do 8 (destruct d as [| d]; [reflexivity |]). lia.
Qed.

(** X3: The three recognisers of a register name agree: [is_valid_register]
    and [get_operand_mode] of utils.c and [get_register_number] of
    second_pass.c accept exactly [r0] .. [r7], and the number is the
    digit. *)
Theorem register_recognisers_agree (r : string) :
  (get_operand_mode (Some r) = REGISTER <-> is_valid_register r = true)
  /\ (0 <= get_register_number r <-> is_valid_register r = true)
  /\ (is_valid_register r = true <->
      exists d, (d < 8)%nat /\ r = register_name d /\ get_register_number r = Z.of_nat d).
Proof.
  split; [apply get_operand_mode_register |]. split; [apply get_register_number_valid |].
  rewrite is_valid_register_name. split.
  - intros (d & Hd & ->). exists d. repeat split; try assumption.
    do 8 (destruct d as [| d]; [reflexivity |]). lia.
  - intros (d & Hd & -> & _). exists d. split; [assumption | reflexivity].
Qed.

Lemma forall_chars_strchr (p : ascii -> bool) (c : ascii) (s : string) :
  forall_chars p s = true -> p c = false -> strchr s c = None.
Proof.
  induction s as [| a s IH]; simpl; intros H Hc; [reflexivity |].
  apply andb_true_iff in H as [H1 H2].
  rewrite (ceqb_class p a c H1 Hc). auto.
Qed.

Lemma isalpha_head (s : string) : isalpha (head s) = true -> (0 <? strlen s)%nat = true.
Proof. destruct s; [discriminate | reflexivity]. Qed.

Lemma forall_chars_head (p : ascii -> bool) (s : string) :
  forall_chars p (tail s) = true -> p (head s) = true -> forall_chars p s = true.
Proof. destruct s as [| c s]; [reflexivity |]. cbn. intros -> ->. reflexivity. Qed.

Lemma alpha_operand_mode (op : string) :
  isalpha (head op) = true ->
  forall_chars (fun c => isalpha c || isdigit c) op = true ->
  get_operand_mode (Some op) =
    if (strlen op =? REGISTER_NAME_LENGTH)%nat && ceqb (head op) REGISTER_PREFIX_CHAR
    then if register_char (char_at op 1) then REGISTER else FAILURE
    else DIRECT.
Proof.
  intros Ha Hall. unfold get_operand_mode.
  rewrite (ceqb_class isalpha (head op) QUOTE_CHAR Ha eq_refl).
  destruct ((strlen op =? REGISTER_NAME_LENGTH)%nat && ceqb (head op) REGISTER_PREFIX_CHAR);
    [reflexivity |].
  rewrite (ceqb_class isalpha (head op) IMMEDIATE_PREFIX Ha eq_refl).
  rewrite (forall_chars_strchr _ OPEN_BRACKET op Hall eq_refl). cbn [found andb].
  rewrite (isalpha_head op Ha), Ha, Hall. reflexivity.
Qed.

(** X4: An operand is classified as Direct exactly when it starts with a
    letter, consists of letters and digits, and is not a two-character name
    that starts with [r].  So a valid label used as an operand is Direct,
    unless it is such a name ([rx], [r8]), which [get_operand_mode] rejects
    as a bad register. *)
Theorem direct_operand_characterisation (op : string) :
  (get_operand_mode (Some op) = DIRECT <->
   isalpha (head op) = true
   /\ forall_chars (fun c => isalpha c || isdigit c) op = true
   /\ (strlen op =? REGISTER_NAME_LENGTH)%nat && ceqb (head op) REGISTER_PREFIX_CHAR = false)
  /\ (is_valid_label op = true ->
      get_operand_mode (Some op) =
        if (strlen op =? REGISTER_NAME_LENGTH)%nat && ceqb (head op) REGISTER_PREFIX_CHAR
        then FAILURE else DIRECT).
Proof.
  split; [split |].
  - unfold get_operand_mode. intros H.
    destruct (ceqb (head op) QUOTE_CHAR);
      [revert H; repeat break_match; mode_values; intros H; discriminate H |].
    destruct ((strlen op =? REGISTER_NAME_LENGTH)%nat && ceqb (head op) REGISTER_PREFIX_CHAR);
      [revert H; repeat break_match; mode_values; intros H; discriminate H |].
    destruct (ceqb (head op) IMMEDIATE_PREFIX);
      [revert H; repeat break_match; mode_values; intros H; discriminate H |].
    destruct (found (strchr op OPEN_BRACKET) && found (strchr op CLOSE_BRACKET));
      [revert H; repeat break_match; mode_values; intros H; discriminate H |].
    destruct ((0 <? strlen op)%nat && isalpha (head op)
              && forall_chars (fun c => isalpha c || isdigit c) op) eqn:E;
      [| mode_values; discriminate H].
    apply andb_true_iff in E as [E E3]. apply andb_true_iff in E as [E1 E2].
    auto.
  - intros (Ha & Hall & Hreg). rewrite (alpha_operand_mode op Ha Hall), Hreg. reflexivity.
  - unfold is_valid_label. intros H.
    destruct (strlen op =? 0)%nat; [discriminate |].
    destruct (MAX_LABEL_LENGTH - 1 <? strlen op)%nat; [discriminate |].
    destruct (isalpha (head op)) eqn:Ha; [| discriminate]. cbn [negb] in H.
    destruct (forall_chars (fun c => isalpha c || isdigit c) (tail op)) eqn:Hall;
      [| discriminate].
    cbn [negb] in H.
    destruct (is_valid_opcode op); [discriminate |].
    assert (Hl : forall_chars (fun c => isalpha c || isdigit c) op = true).
    { apply forall_chars_head; [assumption |]. cbn beta. now rewrite Ha. }
    rewrite (alpha_operand_mode op Ha Hl).
    destruct ((strlen op =? REGISTER_NAME_LENGTH)%nat && ceqb (head op) REGISTER_PREFIX_CHAR)
      eqn:E; [| reflexivity].
    cbn [andb] in H. destruct (register_char (char_at op 1)); [discriminate | reflexivity].
Qed.

Lemma to_int_mod (v m : Z) : (m | 2 ^ 31) -> 0 < m -> to_int v mod m = v mod m.
Proof.
  intros [k Hk] Hm. unfold to_int.
  assert (H32 : (m | 2 ^ 32)) by (exists (2 * k); lia).
  rewrite Zminus_mod, (Z.mod_mod_divide _ (2 ^ 32) m) by assumption.
  rewrite Hk, Z.mod_mul, Z.sub_0_r, Z.mod_mod by lia.
  now rewrite Z.mod_add by lia.
Qed.

Lemma shift_mask_8 (v : Z) :
  Z.lor (Z.shiftl (Z.land v EIGHT_BIT_MASK) 2) (are_value ARE_ABSOLUTE) = 4 * (v mod 256).
Proof.
  change EIGHT_BIT_MASK with (Z.ones 8). rewrite Z.land_ones by lia.
  cbn [are_value]. rewrite Z.lor_0_r, Z.shiftl_mul_pow2 by lia.
  change (2 ^ 8) with 256. change (2 ^ 2) with 4. lia.
Qed.

(** X5: An operand that [get_operand_mode] classifies as Immediate always
    encodes to one absolute word: for [#n] the value [n] reduced modulo 256
    in bits 2 to 9 (the fallback 0 of [parse_immediate_value] is never
    taken), and 0 for a quoted string. *)
Theorem immediate_operand_word (op : string) (tbl : label_table) (addr : Z)
    (exts : list ext_ref) :
  get_operand_mode (Some op) = IMMEDIATE ->
  encode_operand (Some op) tbl MODE_IMMEDIATE addr exts =
    (true,
     [ {| word := if ceqb (head op) IMMEDIATE_PREFIX
                  then 4 * (strtol (tail op) mod 256) else 0;
          are := ARE_ABSOLUTE; word_address := addr |} ],
     exts).
Proof.
  intros H. unfold encode_operand. rewrite shift_mask_8. do 3 f_equal. f_equal.
  unfold parse_immediate_value. revert H. unfold get_operand_mode.
  destruct (ceqb (head op) QUOTE_CHAR) eqn:Q.
  { intros _. apply ceqb_eq in Q. rewrite Q. reflexivity. }
  destruct ((strlen op =? REGISTER_NAME_LENGTH)%nat && ceqb (head op) REGISTER_PREFIX_CHAR).
  { break_match; mode_values; discriminate. }
  destruct (ceqb (head op) IMMEDIATE_PREFIX) eqn:I; cbn [negb].
  - unfold is_valid_number.
    destruct (strlen (tail op) =? 0)%nat; [mode_values; discriminate |].
    destruct (forall_chars isdigit
                (if ceqb (head (tail op)) PLUS_SIGN || ceqb (head (tail op)) MINUS_SIGN
                 then tail (tail op) else tail op)); [| mode_values; discriminate].
    intros _. cbn [negb]. rewrite to_int_mod; [reflexivity | exists (2 ^ 23); reflexivity | lia].
  - intros H. exfalso. revert H. repeat break_match; mode_values; discriminate.
Qed.

Lemma immediate_operand_word_witness :
  encode_operand (Some "#-1") [] MODE_IMMEDIATE 101 [] =
    (true, [ {| word := 1020; are := ARE_ABSOLUTE; word_address := 101 |} ], []).
Proof. apply (immediate_operand_word "#-1" [] 101 []). reflexivity. Defined.

Lemma lor_low (a b n : Z) :
  0 <= n -> 0 <= b < 2 ^ n -> Z.lor (Z.shiftl a n) b = a * 2 ^ n + b.
Proof.
  intros Hn Hb. rewrite <- Z.shiftl_mul_pow2 by assumption.
  assert (Hland : Z.land (Z.shiftl a n) b = 0).
  { apply Z.bits_inj'. intros k Hk. rewrite Z.land_spec, Z.bits_0.
    destruct (Z.lt_ge_cases k n) as [Hlt | Hge].
    - rewrite Z.shiftl_spec_low by assumption. reflexivity.
    - rewrite <- (Z.mod_small b (2 ^ n)) by assumption.
      rewrite Z.mod_pow2_bits_high by lia. apply andb_false_r. }
  rewrite <- Z.lxor_lor by assumption. symmetry. apply Z.add_nocarry_lxor. assumption.
Qed.

(** The shift of an [int] by two bits, the A/R/E bits and the store in the
    [unsigned int] field of the word. *)
Lemma relocatable_word (a : Z) :
  to_unsigned (Z.lor (to_int (Z.shiftl a 2)) (are_value ARE_RELOCATABLE))
  = (4 * a + 2) mod 2 ^ 32.
Proof.
  unfold to_unsigned, to_int. cbn [are_value].
  rewrite Z.shiftl_mul_pow2 by lia. change (2 ^ 2) with 4.
  rewrite (Z.mod_eq (a * 4 + 2 ^ 31) (2 ^ 32)) by lia.
  set (q := (a * 4 + 2 ^ 31) / 2 ^ 32).
  replace (a * 4 + 2 ^ 31 - 2 ^ 32 * q - 2 ^ 31) with ((a - 2 ^ 30 * q) * 2 ^ 2) by lia.
  rewrite <- Z.shiftl_mul_pow2 by lia. rewrite lor_low by lia.
  replace ((a - 2 ^ 30 * q) * 2 ^ 2 + 2) with (4 * a + 2 + (- q) * 2 ^ 32) by lia.
  apply Z_mod_plus_full.
Qed.

Lemma relocatable_code (a : Z) :
  base4_decode (number_to_base4_code ((4 * a + 2) mod 2 ^ 32))
  = Some (4 * (a mod 256) + 2).
Proof.
  rewrite base4_code_decode. f_equal.
  rewrite Z.mod_mod_divide by (exists (2 ^ 22); reflexivity).
  replace 1024 with (4 * 256) by reflexivity.
  replace (4 * a + 2) with (a * 4 + 2) by lia.
  rewrite Z.rem_mul_r by lia.
  replace ((a * 4 + 2) mod 4) with 2 by (rewrite Z.add_comm, Z.mod_add by lia; reflexivity).
  replace ((a * 4 + 2) / 4) with a; [lia |].
  rewrite Z.add_comm, Z.div_add by lia. reflexivity.
Qed.

(** X6: A Direct operand whose symbol is in the table always encodes to one
    word.  For an external symbol the word is 1 (E) and the use is
    recorded at the head of the list, under the first [MAX_LABEL_LENGTH]
    (31) characters of the name; otherwise the word is [4 * address + 2]
    (R) as an [int] shift stored in an [unsigned int] leaves it, that is
    modulo 2^32, and what the object file prints of it is the address
    modulo 256. *)
Theorem direct_operand_word (op : string) (tbl : label_table) (addr : Z)
    (exts : list ext_ref) (n : label_node) :
  find_label tbl op = Some n ->
  exists w exts',
    encode_operand (Some op) tbl MODE_DIRECT addr exts = (true, [w], exts')
    /\ word_address w = addr
    /\ if label_type_eqb (type n) LABEL_EXTERNAL
       then word w = 1 /\ are w = ARE_EXTERNAL
            /\ exts' = {| symbol_name := strncpy MAX_LABEL_LENGTH op; ref_address := addr |}
                        :: exts
       else word w = (4 * address n + 2) mod 2 ^ 32 /\ are w = ARE_RELOCATABLE
            /\ exts' = exts
            /\ base4_decode (number_to_base4_code (word w)) = Some (4 * (address n mod 256) + 2).
Proof.
  intros Hfind. unfold encode_operand, label_word. rewrite Hfind.
  destruct (label_type_eqb (type n) LABEL_EXTERNAL) eqn:E.
  - eexists _, _. split; [reflexivity |]. cbn. auto.
  - eexists _, _. split; [reflexivity |]. cbn [word_address word are].
    rewrite relocatable_word. repeat split. apply relocatable_code.
Qed.

Lemma direct_operand_word_witness :
  exists w exts',
    encode_operand (Some "X")
      [ {| name := "X"; address := 1073741824; type := LABEL_DATA; is_defined := true |} ]
      MODE_DIRECT 101 [] = (true, [w], exts')
    /\ word_address w = 101
    /\ word w = (4 * 1073741824 + 2) mod 2 ^ 32 /\ are w = ARE_RELOCATABLE /\ exts' = []
    /\ base4_decode (number_to_base4_code (word w))
       = Some (4 * (1073741824 mod 256) + 2).
Proof.
  apply (direct_operand_word "X"
           [ {| name := "X"; address := 1073741824; type := LABEL_DATA; is_defined := true |} ]
           101 []
           {| name := "X"; address := 1073741824; type := LABEL_DATA; is_defined := true |}).
  reflexivity.
Defined.

Lemma strchr_app (p : ascii -> bool) (c : ascii) (l s : string) :
  forall_chars p l = true -> p c = false ->
  strchr (String.append l s) c = strchr s c.
Proof.
  induction l as [| a l IH]; simpl; intros H Hc; [reflexivity |].
  apply andb_true_iff in H as [H1 H2].
  rewrite (ceqb_class p a c H1 Hc). auto.
Qed.

Lemma before_app (p : ascii -> bool) (c : ascii) (l s : string) :
  forall_chars p l = true -> p c = false ->
  before (String.append l s) c = String.append l (before s c).
Proof.
  induction l as [| a l IH]; simpl; intros H Hc; [reflexivity |].
  apply andb_true_iff in H as [H1 H2].
  rewrite (ceqb_class p a c H1 Hc). f_equal. auto.
Qed.

Lemma append_empty (s : string) : String.append s EmptyString = s.
Proof. induction s as [| c s IH]; simpl; [reflexivity | now rewrite IH]. Qed.

Lemma head_append (l s : string) : l <> EmptyString -> head (String.append l s) = head l.
Proof. destruct l; [congruence | reflexivity]. Qed.

Lemma is_valid_label_chars (l : string) :
  is_valid_label l = true ->
  l <> EmptyString /\ (strlen l <= 30)%nat /\ isalpha (head l) = true
  /\ forall_chars (fun c => isalpha c || isdigit c) l = true.
Proof.
  unfold is_valid_label. intros H.
  destruct (strlen l =? 0)%nat eqn:L0; [discriminate |].
  destruct (MAX_LABEL_LENGTH - 1 <? strlen l)%nat eqn:L1; [discriminate |].
  destruct (isalpha (head l)) eqn:Ha; [| discriminate]. cbn [negb] in H.
  destruct (forall_chars (fun c => isalpha c || isdigit c) (tail l)) eqn:Hall; [| discriminate].
  apply Nat.ltb_ge in L1. unfold MAX_LABEL_LENGTH in L1.
  repeat split; try (cbn in L1; lia).
  - intros ->. discriminate.
  - apply forall_chars_head; [assumption |]. cbn beta. now rewrite Ha.
Qed.

(** X7: The operand [label[ri][rj]], for a valid label and two registers, is
    classified as Matrix and encodes to two words: the word of the label
    and a word with [i] in bits 6 to 9 and [j] in bits 2 to 5. *)
Theorem matrix_operand_words (l : string) (i j : nat) (tbl : label_table) (addr : Z)
    (exts : list ext_ref) (n : label_node) :
  is_valid_label l = true -> (i < 8)%nat -> (j < 8)%nat ->
  find_label tbl l = Some n ->
  get_operand_mode (Some (matrix_operand l i j)) = MATRIX_ACCESS
  /\ encode_matrix_operand (Some (matrix_operand l i j)) tbl addr exts =
       (true,
        [ fst (label_word n l addr exts);
          {| word := 64 * Z.of_nat i + 4 * Z.of_nat j; are := ARE_ABSOLUTE;
             word_address := addr + 1 |} ],
        snd (label_word n l addr exts)).
Proof.
  intros Hl Hi Hj Hfind.
  destruct (is_valid_label_chars l Hl) as (Hne & Hlen & Ha & Hall).
  set (rest := String.append (register_name i)
                 (String CLOSE_BRACKET
                    (String OPEN_BRACKET
                       (String.append (register_name j) (String CLOSE_BRACKET EmptyString))))).
  assert (Hopen : strchr (matrix_operand l i j) OPEN_BRACKET = Some (String OPEN_BRACKET rest)).
  { unfold matrix_operand. fold rest.
    rewrite (strchr_app _ OPEN_BRACKET l _ Hall eq_refl). reflexivity. }
  assert (Hclose : strchr (matrix_operand l i j) CLOSE_BRACKET = strchr rest CLOSE_BRACKET).
  { unfold matrix_operand. fold rest.
    rewrite (strchr_app _ CLOSE_BRACKET l _ Hall eq_refl). reflexivity. }
  assert (Hbefore : before (matrix_operand l i j) OPEN_BRACKET = l).
  { unfold matrix_operand. fold rest.
    rewrite (before_app _ OPEN_BRACKET l _ Hall eq_refl). cbn. apply append_empty. }
  assert (Hhead : head (matrix_operand l i j) = head l) by (apply head_append; assumption).
  assert (Hstrlen : (strlen (matrix_operand l i j) =? REGISTER_NAME_LENGTH)%nat = false).
  { apply Nat.eqb_neq. unfold matrix_operand, strlen, REGISTER_NAME_LENGTH.
    rewrite strlen_append. cbn. lia. }
  split.
  - unfold get_operand_mode.
    rewrite Hhead, (ceqb_class isalpha (head l) QUOTE_CHAR Ha eq_refl), Hstrlen.
    cbn [andb]. rewrite (ceqb_class isalpha (head l) IMMEDIATE_PREFIX Ha eq_refl).
    rewrite Hopen, Hclose. unfold parse_matrix_access. rewrite Hopen, Hbefore, Hl.
    replace (strlen l =? 0)%nat with false
      by (symmetry; apply Nat.eqb_neq; destruct l; [congruence | discriminate]).
    subst rest.
    do 8 (destruct i as [| i]; [do 8 (destruct j as [| j]; [reflexivity |]); lia |]). lia.
  - unfold encode_matrix_operand. rewrite Hopen, Hbefore.
    rewrite (strncpy_short MAX_LABEL_LENGTH l) by (unfold MAX_LABEL_LENGTH; lia).
    subst rest.
    do 8 (destruct i as [| i];
          [do 8 (destruct j as [| j];
                 [cbn -[find_label label_word]; rewrite Hfind;
                  destruct (label_word n l addr exts); reflexivity |]); lia |]).
    lia.
Qed.

Lemma matrix_operand_words_witness :
  get_operand_mode (Some "M[r1][r2]") = MATRIX_ACCESS
  /\ encode_matrix_operand (Some "M[r1][r2]")
       [ {| name := "M"; address := 105; type := LABEL_DATA; is_defined := true |} ] 101 [] =
       (true,
        [ {| word := 422; are := ARE_RELOCATABLE; word_address := 101 |};
          {| word := 72; are := ARE_ABSOLUTE; word_address := 102 |} ],
        []).
Proof.
  apply (matrix_operand_words "M" 1 2
           [ {| name := "M"; address := 105; type := LABEL_DATA; is_defined := true |} ]
           101 []
           {| name := "M"; address := 105; type := LABEL_DATA; is_defined := true |});
    try reflexivity; lia.
Defined.

(** ** The parser *)

Lemma extract_label_valid (line l : string) :
  extract_label line = Some l -> is_valid_label l = true.
Proof.
  unfold extract_label. repeat break_match; try discriminate.
  intros [= <-]. now apply negb_false_iff.
Qed.

Lemma extract_command_valid (line c : string) :
  extract_command line = Some c -> is_valid_opcode c || is_valid_directive c = true.
Proof.
  unfold extract_command. repeat break_match; try discriminate.
  intros [= <-].
  match goal with H : negb _ && negb _ = false |- _ => rename H into E end.
  destruct (is_valid_opcode s); [reflexivity |].
  destruct (is_valid_directive s); [reflexivity | discriminate E].
Qed.

(** X8: Whatever [parse_line] returns is well formed: a label passed
    [is_valid_label], a command is an opcode or a directive, and a line
    without a command has no operands. *)
Theorem parsed_line_is_well_formed (line : string) (parts : separate_line) :
  parse_line line = Some parts ->
  match label parts with
  | Some l => is_valid_label l = true
  | None => True
  end
  /\ match command parts with
     | Some c => is_valid_opcode c || is_valid_directive c = true
     | None => operands parts = []
     end.
Proof.
  unfold parse_line, handle_label_extraction.
  destruct (strlen line =? 0)%nat; [discriminate |].
  destruct (MAX_LINE_LENGTH <=? strlen line)%nat; [discriminate |].
  destruct (strspn line WHITESPACE_CHARS =? strlen line)%nat; [discriminate |].
  destruct (negb (strcspn line CONTROL_CHARS =? strlen line)%nat); [discriminate |].
  set (line_copy := strncpy (MAX_LINE_LENGTH - 1) line).
  assert (Hlabel :
            forall lbl rest,
              match strchr line_copy COLON with
              | Some colon_pos =>
                  match extract_label line_copy with
                  | Some label => Some (Some label, tail colon_pos)
                  | None => None
                  end
              | None => Some (None, line_copy)
              end = Some (lbl, rest) ->
              match lbl with
              | Some l => is_valid_label l = true
              | None => True
              end).
  { intros lbl rest. destruct (strchr line_copy COLON).
    - destruct (extract_label line_copy) eqn:E; [| discriminate].
      intros [= <- _]. exact (extract_label_valid _ _ E).
    - intros [= <- _]. exact I. }
  destruct (match strchr line_copy COLON with
            | Some colon_pos =>
                match extract_label line_copy with
                | Some label => Some (Some label, tail colon_pos)
                | None => None
                end
            | None => Some (None, line_copy)
            end) as [[lbl rest] |] eqn:E; [| discriminate].
  specialize (Hlabel lbl rest eq_refl).
  destruct (strlen (skip_blanks rest) =? 0)%nat.
  - intros [= <-]. cbn. auto.
  - destruct (extract_command (skip_blanks rest)) eqn:Ec; [| discriminate].
    intros [= <-]. cbn. split; [assumption |]. exact (extract_command_valid _ _ Ec).
Qed.

Lemma parsed_line_is_well_formed_witness :
  is_valid_label "X" = true /\ is_valid_opcode "mov" || is_valid_directive "mov" = true.
Proof.
  apply (parsed_line_is_well_formed ("X: mov r1, r2" ++ nl)
           {| label := Some "X"; operands := ["r1"; "r2"]; command := Some "mov" |}).
  reflexivity.
Defined.

Lemma read_plain_split (s : string) :
  forall i,
    String.append (fst (read_plain i s)) (snd (read_plain i s)) = s
    /\ forall_chars (fun c => negb (ends_operand c)) (fst (read_plain i s)) = true.
Proof.
  induction s as [| c s IH]; intros i; cbn [read_plain]; [split; reflexivity |].
  destruct (ends_operand c) eqn:E; cbn [orb]; [split; reflexivity |].
  destruct (negb (i <? MAX_LINE_LENGTH)%nat); [split; reflexivity |].
  specialize (IH (S i)). destruct (read_plain (S i) s) as [copied after].
  cbn [fst snd] in *. destruct IH as [IH1 IH2]. split.
  - cbn. now rewrite IH1.
  - cbn. now rewrite E, IH2.
Qed.

Lemma read_quoted_split (s : string) :
  forall i, String.append (fst (read_quoted i s)) (snd (read_quoted i s)) = s.
Proof.
  induction s as [| c s IH]; intros i; cbn [read_quoted]; [reflexivity |].
  destruct (ceqb c QUOTE_CHAR || negb (i <? MAX_LINE_LENGTH)%nat); [reflexivity |].
  specialize (IH (S i)). destruct (read_quoted (S i) s) as [copied after].
  cbn [fst snd] in *. cbn. now rewrite IH.
Qed.

Lemma strlen_split (a b s : string) :
  String.append a b = s -> strlen s = (strlen a + strlen b)%nat.
Proof. intros <-. apply strlen_append. Qed.

Lemma strlen_tail (s : string) : s <> EmptyString -> strlen s = S (strlen (tail s)).
Proof. destruct s; [congruence | reflexivity]. Qed.

Lemma head_not_nul (s : string) (c : ascii) :
  ceqb (head s) c = true -> c <> NULL_CHAR -> s <> EmptyString.
Proof. intros H Hc ->. apply ceqb_eq in H. cbn in H. congruence. Qed.

Lemma skip_blanks_head (s : string) : is_blank (head (skip_blanks s)) = false.
Proof.
  unfold skip_blanks. induction s as [| c s IH]; simpl; [reflexivity |].
  destruct (is_blank c) eqn:E; [exact IH | unfold head, char_at; simpl; exact E].
Qed.

(** One iteration of the loop: the operand copied and the position after
    it.  The characters of the operand are characters of the text, and an
    empty operand stands before a comma. *)
Lemma operand_step (p : string) :
  at_line_end (head p) = false -> is_blank (head p) = false ->
  forall op after,
    (if ceqb (head p) QUOTE_CHAR then
       let (copied, after) := read_quoted 1 (tail p) in
       if ceqb (head after) QUOTE_CHAR
       then (String QUOTE_CHAR (String.append copied (String QUOTE_CHAR EmptyString)),
             tail after)
       else (String QUOTE_CHAR copied, after)
     else read_plain 0 p) = (op, after) ->
    strlen p = (strlen op + strlen after)%nat
    /\ operand_is_clean op
    /\ (strlen op = 0%nat -> ceqb (head (skip_blanks after)) COMMA_CHAR = true).
Proof.
  intros Hend Hblank op after.
  destruct (ceqb (head p) QUOTE_CHAR) eqn:Hq.
  - pose proof (read_quoted_split (tail p) 1) as Hs.
    pose proof (strlen_tail p (head_not_nul _ _ Hq ltac:(discriminate))) as Hp.
    destruct (read_quoted 1 (tail p)) as [copied after0]. cbn [fst snd] in Hs.
    apply strlen_split in Hs.
    destruct (ceqb (head after0) QUOTE_CHAR) eqn:Hq2.
    + pose proof (strlen_tail after0 (head_not_nul _ _ Hq2 ltac:(discriminate))) as Ha.
      intros [= <- <-]. split; [| split].
      * unfold strlen in *. cbn. rewrite strlen_append. cbn. lia.
      * left. reflexivity.
      * discriminate.
    + intros [= <- <-]. split; [| split].
      * unfold strlen in *. cbn. lia.
      * left. reflexivity.
      * discriminate.
  - pose proof (read_plain_split p 0) as [Hs Hclean].
    intros E. rewrite E in Hs, Hclean. cbn [fst snd] in *.
    split; [exact (strlen_split _ _ _ Hs) | split; [right; assumption |]].
    intros Hop. destruct op; [| discriminate Hop]. cbn in Hs. subst after.
    assert (Hp : skip_blanks p = p).
    { destruct p as [| c p']; [reflexivity |].
      unfold head, char_at in Hblank. simpl in Hblank. unfold skip_blanks. simpl.
      now rewrite Hblank. }
    rewrite Hp.
    destruct p as [| c p']; [discriminate Hend |].
    cbn [read_plain] in E. unfold head, char_at in *. cbn in *.
    destruct (ends_operand c) eqn:Hsep; cbn [orb] in E.
    + unfold ends_operand, at_line_end, is_blank in *.
      destruct (ceqb c COMMA_CHAR); [reflexivity |].
      cbn [orb] in Hsep.
      apply orb_false_elim in Hblank. destruct Hblank as [Hb1 Hb2].
      apply orb_false_elim in Hend. destruct Hend as [Hend Hcr].
      apply orb_false_elim in Hend. destruct Hend as [_ Hnl].
      rewrite Hb1, Hb2, Hnl, Hcr in Hsep. discriminate Hsep.
    + cbn in E. destruct (read_plain 1 p'). discriminate E.
Qed.

Lemma operands_loop_spec :
  forall fuel s ops res,
    operands_loop fuel s ops = Some res ->
    exists more,
      res = (ops ++ more)%list
      /\ (List.length more <= strlen s)%nat
      /\ Forall (fun op => (strlen op <= strlen s)%nat /\ operand_is_clean op) more.
Proof.
  induction fuel as [| fuel IH]; intros s ops res.
  { intros [= <-]. exists []. rewrite app_nil_r. repeat split; [cbn; lia | constructor]. }
  cbn [operands_loop].
  destruct ((strlen s =? 0)%nat || negb (List.length ops <? MAX_OPERANDS)%nat).
  { intros [= <-]. exists []. rewrite app_nil_r. repeat split; [cbn; lia | constructor]. }
  pose proof (skip_blanks_length s) as Hs.
  pose proof (skip_blanks_head s) as Hblank.
  set (p := skip_blanks s) in *.
  destruct (at_line_end (head p)) eqn:Hend.
  { intros [= <-]. exists []. rewrite app_nil_r. repeat split; [cbn; lia | constructor]. }
  pose proof (operand_step p Hend Hblank) as Hstep.
  destruct (if ceqb (head p) QUOTE_CHAR then
              let (copied, after) := read_quoted 1 (tail p) in
              if ceqb (head after) QUOTE_CHAR
              then (String QUOTE_CHAR (String.append copied (String QUOTE_CHAR EmptyString)),
                    tail after)
              else (String QUOTE_CHAR copied, after)
            else read_plain 0 p) as [op after].
  destruct (Hstep op after eq_refl) as (Hlen & Hclean & Hempty). clear Hstep.
  pose proof (skip_blanks_length after) as Ha.
  assert (Hdone :
            forall next,
              (strlen next < strlen p)%nat -> (strlen op + strlen next <= strlen p)%nat ->
              operands_loop fuel next (ops ++ [op])%list = Some res ->
              exists more,
                res = (ops ++ more)%list
                /\ (List.length more <= strlen s)%nat
                /\ Forall (fun op => (strlen op <= strlen s)%nat /\ operand_is_clean op) more).
  { intros next Hlt Hsum Hres.
    destruct (IH _ _ _ Hres) as (more & -> & Hcount & Hall).
    exists (op :: more). rewrite <- app_assoc. split; [reflexivity |]. split; [cbn; lia |].
    constructor; [split; [lia | assumption] |].
    eapply Forall_impl; [| exact Hall]. cbn. intros x [Hx Hc]. split; [lia | assumption]. }
  destruct (ceqb (head (skip_blanks after)) COMMA_CHAR) eqn:Hcomma.
  - destruct (ceqb (head (skip_blanks (tail (skip_blanks after)))) COMMA_CHAR
              || at_line_end (head (skip_blanks (tail (skip_blanks after)))));
      [discriminate |].
    pose proof (strlen_tail _ (head_not_nul _ _ Hcomma ltac:(discriminate))) as Ht.
    apply Hdone; lia.
  - assert (strlen op <> 0)%nat by (intros H0; specialize (Hempty H0); discriminate Hempty).
    apply Hdone; lia.
Qed.

Lemma strncpy_length (n : nat) : forall s, (strlen (strncpy n s) <= n)%nat.
Proof.
  unfold strlen. induction n as [| n IH]; intros s; [reflexivity |].
  destruct s as [| c s]; cbn; [lia |]. specialize (IH s). lia.
Qed.

Lemma drop_while_length (p : ascii -> bool) (s : string) :
  (strlen (drop_while p s) <= strlen s)%nat.
Proof.
  unfold strlen. induction s as [| c s IH]; simpl; [lia |].
  destruct (p c); simpl; lia.
Qed.

Lemma extract_operands_spec (line : string) (ops : list string) :
  extract_operands line = Some ops ->
  (List.length ops <= 80)%nat
  /\ Forall (fun op => (strlen op <= 80)%nat /\ operand_is_clean op) ops.
Proof.
  unfold extract_operands.
  pose proof (strncpy_length (MAX_LINE_LENGTH - 1) line) as H0.
  set (line_copy := strncpy (MAX_LINE_LENGTH - 1) line) in *.
  pose proof (skip_blanks_length line_copy) as H1.
  set (p1 := skip_blanks line_copy) in *.
  pose proof (drop_while_length
                (fun c => negb (ceqb c SPACE_CHAR || ceqb c TAB_CHAR || ceqb c NEWLINE_CHAR)) p1)
    as H2.
  set (p2 := drop_while _ p1) in *.
  pose proof (skip_blanks_length p2) as H3.
  set (p3 := skip_blanks p2) in *.
  destruct ((strlen p3 =? 0)%nat || ceqb (head p3) NEWLINE_CHAR); [discriminate |].
  intros H. apply operands_loop_spec in H as (more & -> & Hcount & Hall).
  cbn [app]. change (MAX_LINE_LENGTH - 1)%nat with 80%nat in H0.
  split; [lia |].
  eapply Forall_impl; [| exact Hall]. cbv beta. intros x [Hx Hc]. split; [lia | assumption].
Qed.

Lemma parse_line_operands (line : string) (parts : separate_line) :
  parse_line line = Some parts ->
  operands parts = [] \/ exists rest, extract_operands rest = Some (operands parts).
Proof.
  unfold parse_line. repeat break_match; try discriminate; intros [= <-]; cbn [operands];
    eauto.
Qed.

(** X9: The operands of a parsed line fit the buffers of the parser: there are
    at most 80 of them (the limit [MAX_OPERANDS] of the array is never
    reached) and none is longer than 80 characters. *)
Theorem parsed_operands_fit (line : string) (parts : separate_line) :
  parse_line line = Some parts ->
  (List.length (operands parts) <= 80)%nat
  /\ (List.length (operands parts) < MAX_OPERANDS)%nat
  /\ Forall (fun op => (strlen op < MAX_LINE_LENGTH)%nat) (operands parts).
Proof.
  intros H. destruct (parse_line_operands _ _ H) as [-> | [rest Hrest]].
  - cbn. unfold MAX_OPERANDS. repeat split; try lia. constructor.
  - destruct (extract_operands_spec _ _ Hrest) as [Hcount Hall].
    unfold MAX_OPERANDS, MAX_LINE_LENGTH. repeat split; try lia.
    eapply Forall_impl; [| exact Hall]. cbn. intros x [Hx _]. lia.
Qed.

Lemma parsed_operands_fit_witness :
  (List.length ["r1"; "r2"] <= 80)%nat
  /\ (List.length ["r1"; "r2"] < MAX_OPERANDS)%nat
  /\ Forall (fun op => (strlen op < MAX_LINE_LENGTH)%nat) ["r1"; "r2"].
Proof.
  apply (parsed_operands_fit ("X: mov r1, r2" ++ nl)
           {| label := Some "X"; operands := ["r1"; "r2"]; command := Some "mov" |}).
  reflexivity.
Defined.

(** X10: Every operand of a parsed line either starts with a quote or holds no
    comma, blank, tab, newline or carriage return. *)
Theorem parsed_operands_are_clean (line : string) (parts : separate_line) :
  parse_line line = Some parts -> Forall operand_is_clean (operands parts).
Proof.
  intros H. destruct (parse_line_operands _ _ H) as [-> | [rest Hrest]]; [constructor |].
  destruct (extract_operands_spec _ _ Hrest) as [_ Hall].
  eapply Forall_impl; [| exact Hall]. cbn. intros x [_ Hx]. assumption.
Qed.

Lemma parsed_operands_are_clean_witness :
  Forall operand_is_clean ["5"; "-7"; quoted "a, b"].
Proof.
  apply (parsed_operands_are_clean ("X: .data 5 , -7, " ++ quoted "a, b" ++ nl)
           {| label := Some "X"; operands := ["5"; "-7"; quoted "a, b"];
              command := Some ".data" |}).
  reflexivity.
Defined.

(** X11: Blanks and tabs before a line do not change what [parse_line]
    returns, as long as the line still fits the buffer. *)
Theorem parse_line_ignores_leading_blanks (pre line : string) :
  forall_chars is_blank pre = true ->
  (strlen (String.append pre line) <= 80)%nat ->
  parse_line (String.append pre line) = parse_line line.
Proof.
  intros Hpre Hlen.
  assert (Hline : (strlen line <= 80)%nat).
  { unfold strlen in *. rewrite strlen_append in Hlen. lia. }
  rewrite (parse_line_skip_blanks (String.append pre line)) by assumption.
  rewrite (parse_line_skip_blanks line) by assumption.
  f_equal. clear Hlen Hline. unfold skip_blanks.
  induction pre as [| c pre IH]; [reflexivity |].
  cbn in Hpre. apply andb_true_iff in Hpre as [Hc Hpre]. cbn. rewrite Hc. auto.
Qed.

Lemma parse_line_ignores_leading_blanks_witness :
  parse_line (String.append "   " ("X: stop" ++ nl)) = parse_line ("X: stop" ++ nl).
Proof.
  apply (parse_line_ignores_leading_blanks "   " ("X: stop" ++ nl)).
  - reflexivity.
  - cbn. lia.
Defined.

(** ** The symbol table *)

Lemma find_label_update_same (f : label_node -> label_node) (nm : string) :
  (forall n, name (f n) = name n) ->
  forall tbl n,
    find_label tbl nm = Some n -> find_label (update_label tbl nm f) nm = Some (f n).
Proof.
  intros Hf. unfold find_label.
  induction tbl as [| current next IH]; intros n; cbn; [discriminate |].
  destruct (String.eqb (name current) nm) eqn:E.
  - intros [= <-]. cbn. now rewrite Hf, E.
  - intros H. cbn. rewrite E. auto.
Qed.

Lemma find_label_update_other (f : label_node -> label_node) (nm other : string) :
  (forall n, name (f n) = name n) -> other <> nm ->
  forall tbl, find_label (update_label tbl nm f) other = find_label tbl other.
Proof.
  intros Hf Hne. unfold find_label.
  induction tbl as [| current next IH]; cbn; [reflexivity |].
  destruct (String.eqb (name current) nm) eqn:E.
  - cbn. rewrite Hf. apply String.eqb_eq in E.
    destruct (String.eqb (name current) other) eqn:E2; [| reflexivity].
    apply String.eqb_eq in E2. congruence.
  - cbn. now rewrite IH.
Qed.

Lemma find_label_none (tbl : label_table) (nm : string) :
  find_label tbl nm = None <-> ~ In nm (List.map name tbl).
Proof.
  unfold find_label. induction tbl as [| current next IH]; cbn; [tauto |].
  destruct (String.eqb (name current) nm) eqn:E.
  - apply String.eqb_eq in E. split; [discriminate | tauto].
  - apply String.eqb_neq in E. rewrite IH. tauto.
Qed.

Lemma map_name_update (f : label_node -> label_node) (nm : string) :
  (forall n, name (f n) = name n) ->
  forall tbl, List.map name (update_label tbl nm f) = List.map name tbl.
Proof.
  intros Hf. induction tbl as [| current next IH]; cbn; [reflexivity |].
  destruct (String.eqb (name current) nm); cbn; [now rewrite Hf | now rewrite IH].
Qed.

(** X12: [add_label] succeeds exactly for a valid name that is not in the
    table; the new node is then found under its name, undefined, every
    other lookup is as before and the table has one node more.  A name that
    is invalid or already present leaves the table as it was. *)
Theorem add_label_spec (tbl : label_table) (nm : string) (addr : Z) (ty : label_type) :
  if is_valid_label nm && negb (found (find_label tbl nm)) then
    exists tbl',
      add_label tbl nm addr ty = (true, tbl')
      /\ find_label tbl' nm =
           Some {| name := nm; address := addr; type := ty; is_defined := false |}
      /\ (forall other, other <> nm -> find_label tbl' other = find_label tbl other)
      /\ List.length tbl' = S (List.length tbl)
  else add_label tbl nm addr ty = (false, tbl).
Proof.
  unfold add_label.
  destruct (is_valid_label nm); cbn [negb andb]; [| reflexivity].
  destruct (found (find_label tbl nm)); cbn [negb]; [reflexivity |].
  eexists. split; [reflexivity |]. unfold find_label. cbn. rewrite String.eqb_refl.
  repeat split. intros other Hne.
  destruct (String.eqb nm other) eqn:E; [| reflexivity].
  apply String.eqb_eq in E. congruence.
Qed.

Lemma set_address_name (a : Z) (n : label_node) : name (set_address a n) = name n.
Proof. reflexivity. Qed.

Lemma set_defined_name (n : label_node) : name (set_defined n) = name n.
Proof. reflexivity. Qed.

(** X13: The two setters of a label guard on its defined flag.
    [mark_label_defined] fails for a missing label and for a label that is
    already defined, leaving the table as it was; otherwise it sets the
    flag of that label only, and a second call fails.
    [update_label_address] changes the address of a label that is in the
    table and defined, and of that label only; it fails, leaving the table
    as it was, for a missing label and for a label that was added but not
    yet marked as defined. *)
Theorem label_setters_spec (tbl : label_table) (nm : string) (new_address : Z) :
  match find_label tbl nm with
  | None =>
      mark_label_defined tbl nm = (false, tbl)
      /\ update_label_address tbl nm new_address = (false, tbl)
  | Some n =>
      if is_defined n then
        mark_label_defined tbl nm = (false, tbl)
        /\ exists tbl',
             update_label_address tbl nm new_address = (true, tbl')
             /\ find_label tbl' nm = Some (set_address new_address n)
             /\ (forall other, other <> nm -> find_label tbl' other = find_label tbl other)
             /\ List.map name tbl' = List.map name tbl
      else
        update_label_address tbl nm new_address = (false, tbl)
        /\ exists tbl',
             mark_label_defined tbl nm = (true, tbl')
             /\ find_label tbl' nm = Some (set_defined n)
             /\ (forall other, other <> nm -> find_label tbl' other = find_label tbl other)
             /\ mark_label_defined tbl' nm = (false, tbl')
  end.
Proof.
  unfold mark_label_defined, update_label_address.
  destruct (find_label tbl nm) as [n |] eqn:Hfind; [| split; reflexivity].
  destruct (is_defined n) eqn:Hdef; cbn [negb]; (split; [reflexivity |]).
  - eexists. split; [reflexivity |].
    rewrite (find_label_update_same (set_address new_address) nm (set_address_name _)
               tbl n Hfind).
    repeat split.
    + intros other Hne. now apply find_label_update_other.
    + now apply map_name_update.
  - eexists. split; [reflexivity |].
    pose proof (find_label_update_same set_defined nm set_defined_name tbl n Hfind) as Hnew.
    rewrite Hnew. cbn [is_defined set_defined]. repeat split.
    intros other Hne. now apply find_label_update_other.
Qed.

Lemma delete_label_other (nm other : string) :
  other <> nm ->
  forall tbl, find_label (snd (delete_label tbl nm)) other = find_label tbl other.
Proof.
  intros Hne. unfold find_label.
  induction tbl as [| current next IH]; cbn; [reflexivity |].
  destruct (String.eqb (name current) nm) eqn:E.
  - cbn. apply String.eqb_eq in E.
    destruct (String.eqb (name current) other) eqn:E2; [| reflexivity].
    apply String.eqb_eq in E2. congruence.
  - destruct (delete_label next nm) as [deleted rest]. cbn in *. now rewrite IH.
Qed.

Lemma delete_label_missing (nm : string) :
  forall tbl, find_label tbl nm = None -> delete_label tbl nm = (false, tbl).
Proof.
  unfold find_label. induction tbl as [| current next IH]; cbn; [reflexivity |].
  destruct (String.eqb (name current) nm); [discriminate |].
  intros H. now rewrite (IH H).
Qed.

Lemma delete_label_found (nm : string) :
  forall tbl n,
    find_label tbl nm = Some n ->
    fst (delete_label tbl nm) = true
    /\ List.length tbl = S (List.length (snd (delete_label tbl nm)))
    /\ (NoDup (List.map name tbl) -> find_label (snd (delete_label tbl nm)) nm = None).
Proof.
  induction tbl as [| current next IH]; intros n; [discriminate |].
  unfold find_label. cbn.
  destruct (String.eqb (name current) nm) eqn:E.
  - intros _. cbn. repeat split. intros Hnd. inversion Hnd as [| x xs Hnotin Hrest]. subst.
    apply String.eqb_eq in E. subst nm. now apply find_label_none.
  - intros Hfind. destruct (IH n Hfind) as (Hok & Hlen & Hgone).
    destruct (delete_label next nm) as [deleted rest]. cbn in *.
    split; [assumption |]. split; [lia |].
    intros Hnd. inversion Hnd as [| x xs Hnotin Hrest]. subst.
    rewrite E. auto.
Qed.

(** X14: [delete_label] fails for a missing label, leaving the table as it was;
    otherwise it unlinks one node, every other lookup is as before, and in
    a table without duplicate names the label is no longer found. *)
Theorem delete_label_spec (tbl : label_table) (nm : string) :
  match find_label tbl nm with
  | None => delete_label tbl nm = (false, tbl)
  | Some n =>
      exists tbl',
        delete_label tbl nm = (true, tbl')
        /\ List.length tbl = S (List.length tbl')
        /\ (forall other, other <> nm -> find_label tbl' other = find_label tbl other)
        /\ (NoDup (List.map name tbl) -> find_label tbl' nm = None)
  end.
Proof.
  destruct (find_label tbl nm) as [n |] eqn:Hfind; [| now apply delete_label_missing].
  destruct (delete_label_found nm tbl n Hfind) as (Hok & Hlen & Hgone).
  pose proof (fun other H => delete_label_other nm other H tbl) as Hother.
  destruct (delete_label tbl nm) as [deleted tbl']. cbn in *. subst deleted.
  exists tbl'. auto.
Qed.

(** The node [define_label] leaves under a name that was in the table,
    undefined: the address, the type unless the node was an entry, and the
    defined flag. *)
Lemma define_existing_node (addr : Z) (ty : label_type) (n : label_node) :
  define_existing addr ty n =
    {| name := name n; address := addr;
       type := if label_type_eqb (type n) LABEL_ENTRY then LABEL_ENTRY else ty;
       is_defined := true |}.
Proof.
  unfold define_existing, set_defined, set_type, set_address. cbn.
  destruct (type n); reflexivity.
Qed.

(** X15: [define_label] defines a name exactly once.  A name that is in the
    table and undefined gets the address and is marked defined; it keeps
    the kind Entry if it had it and takes the new kind otherwise.  A valid
    name that is not in the table is added, defined.  A name that is
    already defined, or is missing and invalid, is refused and the table
    stays as it was; after a success a second definition is refused. *)
Theorem define_label_spec (tbl : label_table) (nm : string) (addr : Z) (ty : label_type) :
  match find_label tbl nm with
  | Some n =>
      if is_defined n then define_label tbl nm addr ty = (false, tbl)
      else
        exists tbl',
          define_label tbl nm addr ty = (true, tbl')
          /\ find_label tbl' nm =
               Some {| name := name n; address := addr;
                       type := if label_type_eqb (type n) LABEL_ENTRY then LABEL_ENTRY else ty;
                       is_defined := true |}
          /\ (forall other, other <> nm -> find_label tbl' other = find_label tbl other)
          /\ (forall addr' ty', define_label tbl' nm addr' ty' = (false, tbl'))
  | None =>
      if is_valid_label nm then
        exists tbl',
          define_label tbl nm addr ty = (true, tbl')
          /\ find_label tbl' nm =
               Some {| name := nm; address := addr; type := ty; is_defined := true |}
          /\ (forall other, other <> nm -> find_label tbl' other = find_label tbl other)
          /\ (forall addr' ty', define_label tbl' nm addr' ty' = (false, tbl'))
      else define_label tbl nm addr ty = (false, tbl)
  end.
Proof.
  unfold define_label.
  destruct (find_label tbl nm) as [n |] eqn:Hfind.
  - destruct (is_defined n) eqn:Hdef; [reflexivity |].
    eexists. split; [reflexivity |].
    pose proof (find_label_update_same (define_existing addr ty) nm
                  (define_existing_name addr ty) tbl n Hfind) as Hnew.
    rewrite define_existing_node in Hnew. rewrite Hnew. split; [reflexivity |].
    split; [intros other Hne; apply find_label_update_other;
            [apply define_existing_name | assumption] |].
    intros addr' ty'. reflexivity.
  - unfold add_label, mark_label_defined. rewrite Hfind.
    destruct (is_valid_label nm); cbn [negb found]; [| now rewrite Hfind].
    unfold find_label. cbn. rewrite ?String.eqb_refl. cbn. rewrite ?String.eqb_refl.
    eexists. split; [reflexivity |]. cbn. rewrite ?String.eqb_refl. split; [reflexivity |].
    split; [| reflexivity].
    intros other Hne. destruct (String.eqb nm other) eqn:E; [| reflexivity].
    apply String.eqb_eq in E. congruence.
Qed.

(** ** Invariants of the table through the first pass *)

Section TableInvariant.

Variable P : label_table -> Prop.
Hypothesis P_add :
  forall tbl nm addr ty, P tbl -> P (snd (add_label tbl nm addr ty)).
Hypothesis P_update :
  forall tbl nm f, (forall n, name (f n) = name n) -> P tbl -> P (update_label tbl nm f).
Hypothesis P_map :
  forall tbl f, (forall n, name (f n) = name n) -> P tbl -> P (List.map f tbl).

Lemma define_label_keeps (tbl : label_table) (nm : string) (addr : Z) (ty : label_type) :
  P tbl -> P (snd (define_label tbl nm addr ty)).
Proof.
  intros H. unfold define_label.
  destruct (find_label tbl nm) as [existing |] eqn:Hfind.
  - destruct (is_defined existing); simpl; [assumption |].
    apply P_update; [apply define_existing_name | assumption].
  - pose proof (P_add tbl nm addr ty H) as Hadd.
    destruct (add_label tbl nm addr ty) as [added tbl1]. simpl in Hadd.
    destruct added.
    + unfold mark_label_defined. destruct (find_label tbl1 nm) as [l |]; simpl; [| assumption].
      destruct (is_defined l); simpl; [assumption |].
      now apply P_update.
    + destruct (find_label tbl1 nm) as [l |]; simpl; [| assumption].
      destruct (negb (is_defined l)); simpl; [| assumption].
      apply P_update; [apply define_existing_name | assumption].
Qed.

Lemma extern_loop_keeps (ops : list string) :
  forall tbl, P tbl -> P (snd (extern_loop ops tbl)).
Proof.
  induction ops as [| op ops IH]; intros tbl H; simpl; [assumption |].
  destruct (find_label tbl op) as [ex |].
  - destruct (is_defined ex); simpl; auto.
  - apply IH. now apply P_add.
Qed.

Lemma entry_loop_keeps (ops : list string) :
  forall tbl, P tbl -> P (entry_loop ops tbl).
Proof.
  induction ops as [| op ops IH]; intros tbl H; simpl; [assumption |].
  destruct (find_label tbl op) as [en |].
  - destruct (is_defined en).
    + destruct (negb (label_type_eqb (type en) LABEL_DATA)); apply IH; auto.
    + apply IH. now apply P_update.
  - apply IH. now apply P_add.
Qed.

Lemma process_line_keeps (line : string) (st : counters) :
  P (table st) -> P (table (snd (process_line line st))).
Proof.
  intros Htbl. unfold process_line.
  repeat break_match; simpl; try assumption.
  all: try (apply entry_loop_keeps; assumption).
  all: try match goal with
           | H : extern_loop ?ops (table ?s0) = (_, ?l) |- P ?l =>
               pose proof (extern_loop_keeps ops (table s0) Htbl) as Hl;
               rewrite H in Hl; exact Hl
           end.
  all: match goal with
       | H : define_if_labelled ?p ?s0 ?a ?ty = (_, ?l) |- P ?l =>
           unfold define_if_labelled in H; destruct (label p) as [lbl |];
           [ pose proof (define_label_keeps (table s0) lbl a ty Htbl) as Hl;
             rewrite H in Hl; exact Hl
           | injection H as _ <-; assumption ]
       end.
Qed.

Lemma first_pass_loop_keeps (lines : list string) :
  forall st has_errors,
    P (table st) -> P (table (fst (first_pass_loop lines st has_errors))).
Proof.
  induction lines as [| line lines IH]; intros st has_errors H; simpl; [assumption |].
  destruct (line_too_long line); [now apply IH |].
  pose proof (process_line_keeps line st H) as Hstep.
  destruct (process_line line st) as [ok st']. now apply IH.
Qed.

Lemma first_pass_on_table_keeps (file : string) (tbl : label_table) :
  P tbl -> P (table (snd (first_pass_on_table file tbl))).
Proof.
  intros H. unfold first_pass_on_table.
  pose proof (first_pass_loop_keeps (fgets_all MAX_LINE_LENGTH file)
                {| table := tbl; IC := INITIAL_IC; DC := INITIAL_DC |} false H) as Hloop.
  destruct (first_pass_loop (fgets_all MAX_LINE_LENGTH file)
              {| table := tbl; IC := INITIAL_IC; DC := INITIAL_DC |} false) as [st has_errors].
  cbn [fst snd table] in *. destruct has_errors; cbn [negb]; [assumption |].
  apply P_map; [| assumption].
  intros n. unfold rebase. destruct (label_type_eqb (type n) LABEL_DATA && is_defined n);
    reflexivity.
Qed.

End TableInvariant.

Lemma add_label_distinct (tbl : label_table) (nm : string) (addr : Z) (ty : label_type) :
  NoDup (List.map name tbl) -> NoDup (List.map name (snd (add_label tbl nm addr ty))).
Proof.
  intros H. unfold add_label.
  destruct (negb (is_valid_label nm)); [assumption |].
  destruct (find_label tbl nm) eqn:Hfind; cbn [found]; [assumption |].
  cbn. constructor; [| assumption]. now apply find_label_none.
Qed.

(** X16: Whatever the source file and whatever the outcome, the first pass
    leaves a table in which no two symbols have the same name and every
    name is a valid label. *)
Theorem first_pass_symbols_are_distinct (file : string) :
  NoDup (List.map name (table (snd (first_pass_on_table file []))))
  /\ Forall (fun n => is_valid_label (name n) = true)
       (table (snd (first_pass_on_table file []))).
Proof.
  split.
  - apply (first_pass_on_table_keeps (fun tbl => NoDup (List.map name tbl))).
    + apply add_label_distinct.
    + intros tbl nm f Hf H. now rewrite map_name_update.
    + intros tbl f Hf H. rewrite List.map_map.
      erewrite List.map_ext; [exact H | exact Hf].
    + constructor.
  - destruct (first_pass_on_table file []) as [ok st] eqn:E.
    exact (first_pass_names_valid file ok st E).
Qed.

(** ** Words per instruction *)

Lemma triple_eq {A B C : Type} (a a' : A) (b b' : B) (c c' : C) :
  (a, b, c) = (a', b', c') -> a = a' /\ b = b' /\ c = c'.
Proof. intros [= -> -> ->]. auto. Qed.

Lemma encode_one_words (op : option string) (tbl : label_table) (mode : addressing_mode)
    (addr : Z) (exts exts' : list ext_ref) (ok : bool) (ws : list machine_word) :
  encode_one op tbl mode addr exts = (ok, ws, exts') ->
  if ok then Z.of_nat (List.length ws) = words_for mode else ws = [].
Proof.
  unfold encode_one, encode_operand, encode_matrix_operand.
  destruct mode; repeat break_match; intros H; apply triple_eq in H as (H1 & <- & <-);
    try subst ok; try discriminate H1; reflexivity.
Qed.

Lemma words_for_bounds (mode : addressing_mode) : 1 <= words_for mode <= 2.
Proof. destruct mode; cbn; lia. Qed.

Lemma estimate_ic_words_bounds (parts : separate_line) : 0 <= estimate_ic_words parts <= 5.
Proof.
  unfold estimate_ic_words. repeat break_match; lia.
Qed.

(** X17: An instruction takes at most five words: the estimate of the first
    pass is between 0 and 5, and an encoding that succeeds stores between
    one and five words, as many as it reports, so the array [words[5]] of
    [second_pass] is never written past its end. *)
Theorem instruction_words_fit_buffer (parts : separate_line) (tbl : label_table) (ic : Z)
    (exts exts' : list ext_ref) (ws : list machine_word) (n : Z) :
  encode_instruction parts tbl ic exts = (true, ws, n, exts') ->
  0 <= estimate_ic_words parts <= 5
  /\ Z.of_nat (List.length ws) = n
  /\ 1 <= n <= 5
  /\ List.hd_error ws =
       Some {| word := match get_instruction (command parts) with
                       | Some inst =>
                           create_instruction_word (opcode inst)
                             (if num_of_operands inst =? 2
                              then convert_to_addressing_mode (get_operand_mode (operand parts 0))
                              else MODE_IMMEDIATE)
                             (if 1 <=? num_of_operands inst
                              then convert_to_addressing_mode
                                     (get_operand_mode
                                        (operand parts (Z.to_nat (num_of_operands inst - 1))))
                              else MODE_IMMEDIATE)
                             ARE_ABSOLUTE
                       | None => 0
                       end;
               are := ARE_ABSOLUTE; word_address := ic |}.
Proof.
  intros H. split; [apply estimate_ic_words_bounds |].
  revert H. unfold encode_instruction.
  destruct (get_instruction (command parts)) as [inst |] eqn:Hinst; [| discriminate].
  destruct (get_instruction_operands _ _ Hinst) as [Hn | [Hn | Hn]]; rewrite Hn;
    cbn [Z.eqb Z.leb Z.compare Pos.compare Pos.compare_cont andb Pos.eqb];
    change (Z.to_nat (1 - 1)) with 0%nat; change (Z.to_nat (2 - 1)) with 1%nat.
  - intros H. apply encoded_eq in H as (_ & <- & <- & _).
    split; [reflexivity |]. split; [lia | reflexivity].
  - destruct (get_operand_mode (operand parts 0) =? FAILURE); [discriminate |].
    set (dst := convert_to_addressing_mode (get_operand_mode (operand parts 0))).
    pose proof (words_for_bounds dst).
    destruct (encode_one (operand parts 0) tbl dst (ic + 1) exts) as [[ok ws1] e1] eqn:E.
    apply encode_one_words in E. destruct ok; [| discriminate]. cbn [negb].
    intros H1. apply encoded_eq in H1 as (_ & <- & <- & _).
    cbn [List.length hd_error]. split; [lia |]. split; [lia | reflexivity].
  - destruct (get_operand_mode (operand parts 1) =? FAILURE); [discriminate |].
    destruct (get_operand_mode (operand parts 0) =? FAILURE); [discriminate |].
    set (src := convert_to_addressing_mode (get_operand_mode (operand parts 0))).
    set (dst := convert_to_addressing_mode (get_operand_mode (operand parts 1))).
    pose proof (words_for_bounds src). pose proof (words_for_bounds dst).
    assert (Hgeneral :
              (let '(ok, ws1, ext_list) := encode_one (operand parts 0) tbl src (ic + 1) exts in
               if negb ok then (false, [], 0, ext_list)
               else
                 let words_used := 1 + words_for src in
                 let '(ok0, ws2, ext_list0) :=
                   encode_one (operand parts 1) tbl dst (ic + words_used) ext_list in
                 if negb ok0 then (false, [], 0, ext_list0)
                 else
                   (true,
                    {| word := create_instruction_word (opcode inst) src dst ARE_ABSOLUTE;
                       are := ARE_ABSOLUTE; word_address := ic |} :: (ws1 ++ ws2)%list,
                    words_used + words_for dst, ext_list0)) = (true, ws, n, exts') ->
              Z.of_nat (List.length ws) = n /\ 1 <= n <= 5
              /\ hd_error ws =
                   Some {| word := create_instruction_word (opcode inst) src dst ARE_ABSOLUTE;
                           are := ARE_ABSOLUTE; word_address := ic |}).
    { destruct (encode_one (operand parts 0) tbl src (ic + 1) exts) as [[ok ws1] e1] eqn:E1.
      apply encode_one_words in E1. destruct ok; [| discriminate]. cbn [negb]. cbv zeta.
      destruct (encode_one (operand parts 1) tbl dst (ic + (1 + words_for src)) e1)
        as [[ok ws2] e2] eqn:E2.
      apply encode_one_words in E2. destruct ok; [| discriminate]. cbn [negb].
      intros H1. apply encoded_eq in H1 as (_ & <- & <- & _). cbn [List.length hd_error].
      rewrite length_app. split; [lia |]. split; [lia | reflexivity]. }
    destruct src eqn:Hs, dst eqn:Hd; try exact Hgeneral.
    destruct ((0 <=? match operand parts 0 with
                     | Some r => get_register_number r
                     | None => INVALID_REGISTER
                     end)
              && (0 <=? match operand parts 1 with
                        | Some r => get_register_number r
                        | None => INVALID_REGISTER
                        end)); [| discriminate].
    intros H1. apply encoded_eq in H1 as (_ & <- & <- & _).
    split; [reflexivity |]. split; [lia | reflexivity].
Qed.

Lemma instruction_words_fit_buffer_witness :
  0 <= estimate_ic_words
         {| label := None; operands := ["M[r1][r2]"; "N[r3][r4]"]; command := Some "mov" |} <= 5
  /\ Z.of_nat 5 = 5 /\ 1 <= 5 <= 5
  /\ Some {| word := 40; are := ARE_ABSOLUTE; word_address := 100 |} =
     Some {| word := 40; are := ARE_ABSOLUTE; word_address := 100 |}.
Proof.
  apply (instruction_words_fit_buffer
           {| label := None; operands := ["M[r1][r2]"; "N[r3][r4]"]; command := Some "mov" |}
           [ {| name := "N"; address := 110; type := LABEL_DATA; is_defined := true |};
             {| name := "M"; address := 105; type := LABEL_DATA; is_defined := true |} ]
           100 [] []
           [ {| word := 40; are := ARE_ABSOLUTE; word_address := 100 |};
             {| word := 422; are := ARE_RELOCATABLE; word_address := 101 |};
             {| word := 72; are := ARE_ABSOLUTE; word_address := 102 |};
             {| word := 442; are := ARE_RELOCATABLE; word_address := 103 |};
             {| word := 208; are := ARE_ABSOLUTE; word_address := 104 |} ]
           5).
  vm_compute. reflexivity.
Defined.

(** ** The validation of commands.c *)

(** X18: A line that [check_line] accepts has as many operands as its
    instruction takes, passes [check_instruction] with the modes of its
    operands, and is accepted by the word count of the first pass. *)
Theorem check_line_accepts (line : separate_line) :
  check_line line = true ->
  exists instruction,
    get_instruction (command line) = Some instruction
    /\ how_many_operands line = num_of_operands instruction
    /\ check_instruction (command line)
         (get_operand_mode (operand line 0))
         (get_operand_mode (operand line (Z.to_nat (num_of_operands instruction - 1)))) = true
    /\ 1 <= estimate_ic_words line <= 5.
Proof.
  unfold check_line, check_instruction, estimate_ic_words.
  destruct (command line) as [c |] eqn:Hc; [| discriminate].
  destruct (match label line with
            | Some l => negb (is_valid_label l)
            | None => false
            end); [discriminate |].
  destruct (get_instruction (Some c)) as [instruction |] eqn:Hinst; [| discriminate].
  destruct (how_many_operands line =? num_of_operands instruction) eqn:Hcount; [| discriminate].
  apply Z.eqb_eq in Hcount. cbn [negb].
  intros H. exists instruction. split; [reflexivity |]. split; [assumption |].
  destruct (get_instruction_operands _ _ Hinst) as [Hn | [Hn | Hn]]; rewrite Hn in *;
    change (Z.to_nat (1 - 1)) with 0%nat; change (Z.to_nat (2 - 1)) with 1%nat;
    unfold SINGLE_OPERAND, DOUBLE_OPERAND in *;
    cbn [Z.eqb Pos.eqb] in *.
  - split; [reflexivity | lia].
  - destruct (get_operand_mode (operand line 0) =? FAILURE); [discriminate |].
    destruct (Z.land (get_operand_mode (operand line 0)) (destination_mode instruction)
              =? NO_OPERANDS); [discriminate |].
    split; [reflexivity |]. destruct (get_operand_mode (operand line 0) =? MATRIX_ACCESS); lia.
  - destruct (get_operand_mode (operand line 0) =? FAILURE); [discriminate |].
    destruct (get_operand_mode (operand line 1) =? FAILURE); [discriminate |].
    cbn [orb] in *.
    destruct (Z.land (get_operand_mode (operand line 0)) (source_mode instruction)
              =? NO_OPERANDS); [discriminate |].
    destruct (Z.land (get_operand_mode (operand line 1)) (destination_mode instruction)
              =? NO_OPERANDS); [discriminate |].
    split; [reflexivity |]. repeat break_match; lia.
Qed.

Lemma check_line_accepts_witness :
  exists instruction,
    get_instruction (Some "mov") = Some instruction
    /\ 2 = num_of_operands instruction
    /\ check_instruction (Some "mov") (get_operand_mode (Some "#5"))
         (get_operand_mode
            (operand {| label := None; operands := ["#5"; "r1"]; command := Some "mov" |}
               (Z.to_nat (num_of_operands instruction - 1)))) = true
    /\ 1 <= 3 <= 5.
Proof.
  apply (check_line_accepts
           {| label := None; operands := ["#5"; "r1"]; command := Some "mov" |}).
  reflexivity.
Defined.

(** ** The data image *)

Lemma store_values_cells (values : list Z) :
  forall data,
    store_values values data = (data ++ cells_from (List.length data) values)%list.
Proof.
  induction values as [| v values IH]; intros data; cbn; [now rewrite app_nil_r |].
  rewrite IH, length_app, <- app_assoc. cbn. now rewrite Nat.add_1_r.
Qed.

Lemma land_ten_bits (v : Z) : Z.land (to_int v) TEN_BIT_MASK = v mod 1024.
Proof.
  change TEN_BIT_MASK with (Z.ones 10). rewrite Z.land_ones by lia.
  change (2 ^ 10) with 1024. apply to_int_mod; [exists (2 ^ 21); reflexivity | lia].
Qed.

Lemma substring_quoted (s : string) :
  String.substring 1 (strlen (quoted s) - 2) (quoted s) = s.
Proof.
  unfold quoted, strlen. cbn [String.length String.substring].
  rewrite strlen_append. cbn [String.length].
  replace (S (String.length s + 1) - 2)%nat with (String.length s) by lia.
  induction s as [| c s IH]; cbn; [reflexivity |]. now rewrite IH.
Qed.

(** X19: [.data] stores one word for every operand, the number modulo 1024 (a
    negative number in ten bits two's complement); [.string] stores the
    characters between the quotes, one word each, followed by a word 0.
    Both store at the next data indices and always succeed. *)
Theorem data_and_string_directive_words (lbl : option string) (ops : list string)
    (s : string) (data : list machine_word) :
  process_data_line {| label := lbl; operands := ops; command := Some DIRECTIVE_DATA |} data =
    (true,
     (data ++ cells_from (List.length data) (List.map (fun op => strtol op mod 1024) ops))%list)
  /\ process_data_line
       {| label := lbl; operands := [quoted s]; command := Some DIRECTIVE_STRING |} data =
       (true, (data ++ cells_from (List.length data) (string_bytes s ++ [0]))%list).
Proof.
  split.
  - unfold process_data_line. cbn [command operands is_command].
    change (String.eqb DIRECTIVE_DATA DIRECTIVE_DATA) with true. cbv iota.
    rewrite store_values_cells. do 3 f_equal.
    apply List.map_ext. intros op. apply land_ten_bits.
  - unfold process_data_line. cbn [command operands is_command].
    change (String.eqb DIRECTIVE_STRING DIRECTIVE_DATA) with false.
    change (String.eqb DIRECTIVE_STRING DIRECTIVE_STRING) with true. cbv iota.
    rewrite substring_quoted. now rewrite store_values_cells.
Qed.

Lemma map_seq_nil {A : Type} (f : option A -> Z) (n : nat) :
  f None = 0 ->
  forall a, List.map (fun i => f (nth_error (@nil A) i)) (List.seq a n) = List.repeat 0 n.
Proof.
  intros Hf. induction n as [| n IH]; intros a; [reflexivity |].
  cbn [List.seq List.map List.repeat]. rewrite IH. f_equal.
  destruct a; exact Hf.
Qed.

Lemma nth_error_map_seq {A : Type} (f : option A -> Z) (l : list A) (n : nat) :
  f None = 0 ->
  List.map (fun i => f (nth_error l i)) (List.seq 0 n)
  = List.firstn n (List.map (fun x => f (Some x)) l ++ List.repeat 0 n).
Proof.
  intros Hf. revert l. induction n as [| n IH]; intros l; [reflexivity |].
  destruct l as [| x l].
  - rewrite map_seq_nil by assumption. cbn [List.map app].
    rewrite List.firstn_all2 by (rewrite List.repeat_length; lia). reflexivity.
  - cbn [List.seq List.map]. rewrite <- List.seq_shift, List.map_map.
    cbn [nth_error List.map app List.firstn]. f_equal.
    rewrite (IH l).
    replace (List.repeat 0 (S n)) with (List.repeat 0 n ++ [0])%list
      by (rewrite <- List.repeat_cons; reflexivity).
    rewrite app_assoc.
    rewrite (List.firstn_app n (_ ++ _) [0]).
    replace (n - List.length (List.map (fun x0 => f (Some x0)) l ++ List.repeat 0%Z n))%nat
      with 0%nat by (rewrite length_app, List.repeat_length; lia).
    cbn. now rewrite app_nil_r.
Qed.

Lemma data_dimensions_positive (operand : option string) (rows cols : Z) :
  SecondPass.parse_matrix_dimensions operand = Some (rows, cols) -> 0 < rows /\ 0 < cols.
Proof.
  unfold SecondPass.parse_matrix_dimensions.
  repeat break_match; try discriminate.
  intros [= <- <-].
  match goal with
  | H : (0 <? _) && (0 <? _) = true |- _ =>
      apply andb_true_iff in H; destruct H as [Hr Hc]; apply Z.ltb_lt in Hr, Hc
  end.
  split; assumption.
Qed.

(** X20: [.mat] stores [total_elements] words at the next data indices,
    holding the given values (modulo 1024) followed by zeros, where
    [total_elements] is the product [rows * cols] as the [int]
    multiplication leaves it: the product itself when it is below 2^31, and
    nothing is stored when the wrapped product is zero or negative. *)
Theorem mat_directive_words (lbl : option string) (dims : string) (values : list string)
    (data : list machine_word) (rows cols : Z) :
  SecondPass.parse_matrix_dimensions (Some dims) = Some (rows, cols) ->
  let total_elements := to_int (rows * cols) in
  process_data_line
    {| label := lbl; operands := dims :: values; command := Some DIRECTIVE_MAT |} data =
    (true,
     (data ++ cells_from (List.length data)
                (List.firstn (Z.to_nat total_elements)
                   (List.map (fun op => strtol op mod 1024) values
                    ++ List.repeat 0 (Z.to_nat total_elements))))%list)
  /\ (rows * cols < 2 ^ 31 -> total_elements = rows * cols)
  /\ (total_elements <= 0 ->
      process_data_line
        {| label := lbl; operands := dims :: values; command := Some DIRECTIVE_MAT |} data =
        (true, data)).
Proof.
  intros Hdims total_elements.
  assert (Hstore :
            process_data_line
              {| label := lbl; operands := dims :: values; command := Some DIRECTIVE_MAT |}
              data =
            (true,
             (data ++ cells_from (List.length data)
                        (List.firstn (Z.to_nat total_elements)
                           (List.map (fun op => strtol op mod 1024) values
                            ++ List.repeat 0 (Z.to_nat total_elements))))%list)).
  { unfold process_data_line. cbn [command operands is_command].
    change (String.eqb DIRECTIVE_MAT DIRECTIVE_DATA) with false.
    change (String.eqb DIRECTIVE_MAT DIRECTIVE_STRING) with false.
    change (String.eqb DIRECTIVE_MAT DIRECTIVE_MAT) with true. cbv iota.
    unfold operand at 1. cbn [operands nth_error]. rewrite Hdims. cbv zeta.
    fold total_elements.
    rewrite store_values_cells. do 3 f_equal.
    transitivity
      (List.map
         (fun i =>
            (fun o => match o with
                      | Some op => Z.land (to_int (strtol op)) TEN_BIT_MASK
                      | None => 0
                      end) (nth_error values i))
         (List.seq 0 (Z.to_nat total_elements))).
    - apply List.map_ext. intros i. unfold operand. cbn [operands].
      rewrite Nat.add_1_r. reflexivity.
    - etransitivity;
        [exact (nth_error_map_seq
                  (fun o => match o with
                            | Some op => Z.land (to_int (strtol op)) TEN_BIT_MASK
                            | None => 0
                            end) values (Z.to_nat total_elements) eq_refl) |].
      do 2 f_equal. apply List.map_ext. intros op. apply land_ten_bits. }
  split; [exact Hstore |]. split.
  - intros Hfit. apply data_dimensions_positive in Hdims.
    subst total_elements. apply to_int_small. nia.
  - intros Hle. rewrite Hstore.
    replace (Z.to_nat total_elements) with 0%nat by lia.
    cbn [List.firstn cells_from]. now rewrite app_nil_r.
Qed.

Lemma mat_directive_words_witness :
  let line := {| label := Some "M"; operands := ["[2][2]"; "1"; "-1"];
                 command := Some DIRECTIVE_MAT |} in
  process_data_line line [] =
    (true, [ data_cell 1 0; data_cell 1023 1; data_cell 0 2; data_cell 0 3 ])
  /\ (2 * 2 < 2 ^ 31 -> to_int (2 * 2) = 2 * 2)
  /\ (to_int (2 * 2) <= 0 -> process_data_line line [] = (true, [])).
Proof.
  intros line. apply (mat_directive_words (Some "M") "[2][2]" ["1"; "-1"] [] 2 2).
  reflexivity.
Defined.

(** The dimensions [[65536][65536]] pass [parse_matrix_dimensions]; their
    product is 0 as an [int], and no word is stored. *)
Example mat_product_wraps :
  SecondPass.parse_matrix_dimensions (Some "[65536][65536]") = Some (65536, 65536)
  /\ process_data_line
       {| label := None; operands := ["[65536][65536]"]; command := Some DIRECTIVE_MAT |} []
     = (true, []).
Proof. split; vm_compute; reflexivity. Qed.

Lemma copy_words_bound (ws : list machine_word) (capacity : Z) :
  forall stored,
    Z.of_nat (List.length stored) <= Z.max 0 capacity ->
    Z.of_nat (List.length (copy_words ws capacity stored)) <= Z.max 0 capacity.
Proof.
  induction ws as [| w ws IH]; intros stored H; cbn [copy_words]; [assumption |].
  destruct (Z.of_nat (List.length stored) <? capacity) eqn:E; [| now apply IH].
  apply Z.ltb_lt in E. apply IH. rewrite length_app. cbn. lia.
Qed.

Lemma encode_line_bound (tbl : label_table) (capacity : Z) (line : string) (st : encoding) :
  Z.of_nat (List.length (image_instructions st)) <= Z.max 0 capacity ->
  Z.of_nat (List.length (image_instructions (encode_line tbl capacity line st)))
  <= Z.max 0 capacity.
Proof.
  intros H. unfold encode_line.
  repeat break_match; cbn [image_instructions]; try assumption.
  all: now apply copy_words_bound.
Qed.

Lemma encode_lines_bound (tbl : label_table) (capacity : Z) (lines : list string) :
  forall st,
    Z.of_nat (List.length (image_instructions st)) <= Z.max 0 capacity ->
    Z.of_nat
      (List.length
         (image_instructions
            (List.fold_left (fun st line => encode_line tbl capacity line st) lines st)))
    <= Z.max 0 capacity.
Proof.
  induction lines as [| line lines IH]; intros st H; cbn [List.fold_left]; [assumption |].
  apply IH. now apply encode_line_bound.
Qed.

(** X21: Whatever the source lines and the table, the first loop of
    [second_pass] never stores more instruction words than
    [create_memory_image] allocated. *)
Theorem instruction_array_is_never_overrun (lines : list string) (tbl : label_table)
    (image : memory_image) :
  Z.of_nat (List.length (instructions (fst (fst (fill_image lines tbl image)))))
  <= Z.max 0 (instruction_count image).
Proof.
  unfold fill_image.
  destruct (List.fold_left (fun st line => data_line line st) lines _) as [cells errs].
  cbn [fst instructions]. apply encode_lines_bound. cbn. lia.
Qed.

(** ** The object file *)

Lemma strip_leading_a_decode (s : string) :
  base4_decode (strip_leading_a s) = base4_decode s.
Proof.
  induction s as [| c s IH]; [reflexivity |].
  destruct s as [| d rest]; [reflexivity |].
  change (strip_leading_a (String c (String d rest)))
    with (if ceqb c BASE4_LETTER_OFFSET then strip_leading_a (String d rest)
          else String c (String d rest)).
  destruct (ceqb c BASE4_LETTER_OFFSET) eqn:E; [| reflexivity].
  apply ceqb_eq in E. subst c. rewrite IH. reflexivity.
Qed.

Lemma strip_leading_a_length (s : string) :
  (1 <= strlen s)%nat ->
  (1 <= strlen (strip_leading_a s) <= strlen s)%nat.
Proof.
  unfold strlen. induction s as [| c s IH]; [cbn; lia |].
  destruct s as [| d rest]; [cbn; lia |].
  intros _.
  change (strip_leading_a (String c (String d rest)))
    with (if ceqb c BASE4_LETTER_OFFSET then strip_leading_a (String d rest)
          else String c (String d rest)).
  destruct (ceqb c BASE4_LETTER_OFFSET); [| cbn; lia].
  assert (1 <= String.length (String d rest))%nat by (cbn; lia).
  specialize (IH H). cbn [String.length] in *. lia.
Qed.

Lemma letters_decode (a : Z) :
  String.length (number_to_base4_letters a) = 4%nat
  /\ base4_decode (number_to_base4_letters a) = Some (a mod 256).
Proof.
  unfold number_to_base4_letters, base4_decode. split; [apply base4_fill_length |].
  rewrite base4_decode_fill. f_equal. unfold to_unsigned. change (4 ^ Z.of_nat 4) with 256.
  rewrite Z.mod_mod_divide; [lia |]. exists (2 ^ 24). reflexivity.
Qed.

Lemma two_strings_length (a b : string) :
  strlen (two_strings a b) = (strlen a + strlen b + 2)%nat.
Proof.
  unfold two_strings, strlen. rewrite strlen_append. cbn. rewrite strlen_append. cbn. lia.
Qed.

Lemma concat_lines_length (k : nat) (lines : list string) :
  Forall (fun l => strlen l = k) lines ->
  strlen (concat_lines lines) = (k * List.length lines)%nat.
Proof.
  unfold concat_lines, strlen. induction 1 as [| l lines Hl _ IH]; cbn; [lia |].
  rewrite strlen_append, IH. unfold strlen in Hl. lia.
Qed.

Lemma Forall2_map_both {A B C : Type} (R : B -> C -> Prop) (f : A -> B) (g : A -> C)
    (l : list A) :
  (forall x, R (f x) (g x)) -> Forall2 R (List.map f l) (List.map g l).
Proof.
  intros H. induction l as [| x l IH]; cbn; constructor; auto.
Qed.

Lemma object_line_printed (address word : Z) :
  object_line address word
    (two_strings (number_to_base4_letters address) (number_to_base4_code word)).
Proof.
  exists (number_to_base4_letters address), (number_to_base4_code word).
  destruct (letters_decode address) as [Hl Hd].
  split; [reflexivity |]. unfold strlen.
  split; [assumption |]. split; [assumption |].
  split; [apply base4_code_length | apply base4_code_decode].
Qed.

Lemma object_line_length (address word : Z) (line : string) :
  object_line address word line -> strlen line = 11%nat.
Proof.
  intros (a & w & -> & Ha & _ & Hw & _). rewrite two_strings_length. lia.
Qed.

(** X22: The object file, when all allocated cells were stored: a header line
    with the numbers of instruction and data words, each modulo 256 in one
    to four base-4 letters, followed by one line for every word, first the
    instruction words and then the data words: the four letters of the
    address modulo 256 (the address stored in an instruction word, and
    100 + |instruction words| + i for the i-th data word), a blank, the
    five letters of the word modulo 1024 and a newline, eleven characters
    in all. *)
Theorem object_file_layout (image : memory_image) (text : string) :
  generate_object_file image = Some text ->
  exists ic_str dc_str lines,
    text = String.append (two_strings ic_str dc_str) (concat_lines lines)
    /\ base4_decode ic_str = Some ((ic_final image - INITIAL_IC) mod 256)
    /\ base4_decode dc_str = Some (dc_final image mod 256)
    /\ (1 <= strlen ic_str <= 4)%nat /\ (1 <= strlen dc_str <= 4)%nat
    /\ Forall2 (fun cell line => object_line (fst cell) (snd cell) line)
         (object_cells image) lines
    /\ strlen (concat_lines lines) =
         (11 * (List.length (instructions image) + List.length (data image)))%nat
    /\ Z.of_nat (List.length (instructions image)) = instruction_count image
    /\ Z.of_nat (List.length (data image)) = data_count image.
Proof.
  unfold generate_object_file.
  destruct (Z.of_nat (List.length (instructions image)) =? instruction_count image) eqn:E1;
    [| discriminate].
  destruct (Z.of_nat (List.length (data image)) =? data_count image) eqn:E2;
    [| discriminate].
  cbn [negb orb]. cbv zeta. intros H.
  apply (f_equal (fun o => match o with Some t => t | None => text end)) in H.
  cbv beta iota in H. subst text.
  apply Z.eqb_eq in E1, E2.
  destruct (letters_decode (ic_final image - INITIAL_IC)) as [Li Di].
  destruct (letters_decode (dc_final image)) as [Ld Dd].
  exists (strip_leading_a (number_to_base4_letters (ic_final image - INITIAL_IC))),
    (strip_leading_a (number_to_base4_letters (dc_final image))).
  eexists. split; [reflexivity |].
  rewrite !strip_leading_a_decode.
  split; [assumption |]. split; [assumption |].
  split; [pose proof (strip_leading_a_length
                        (number_to_base4_letters (ic_final image - INITIAL_IC)));
          unfold strlen in *; lia |].
  split; [pose proof (strip_leading_a_length (number_to_base4_letters (dc_final image)));
          unfold strlen in *; lia |].
  assert (Hlines :
            Forall2 (fun cell line => object_line (fst cell) (snd cell) line)
              (object_cells image)
              (List.map (fun w => two_strings (number_to_base4_letters (word_address w))
                                    (number_to_base4_code (word w))) (instructions image)
               ++ List.map (fun iw => two_strings
                                        (number_to_base4_letters
                                           (INITIAL_IC + instruction_count image
                                            + Z.of_nat (fst iw)))
                                        (number_to_base4_code (word (snd iw))))
                    (List.combine (List.seq 0 (List.length (data image))) (data image)))%list).
  { unfold object_cells. apply Forall2_app; apply Forall2_map_both; intros x;
      apply object_line_printed. }
  split; [exact Hlines |]. split; [| split; assumption].
  rewrite (concat_lines_length 11).
  - rewrite length_app, !length_map, length_combine, length_seq. lia.
  - clear - Hlines. induction Hlines as [| cell line cells lines Hline _ IH];
      constructor; [| assumption].
    exact (object_line_length _ _ _ Hline).
Qed.

Lemma object_file_layout_witness :
  let image :=
    {| instructions := [ {| word := 960; are := ARE_ABSOLUTE; word_address := 100 |} ];
       data := [ {| word := 5; are := ARE_ABSOLUTE; word_address := 0 |} ];
       instruction_count := 1; data_count := 1; ic_final := 101; dc_final := 1 |} in
  exists ic_str dc_str lines,
    text ["b b"; "bcba ddaaa"; "bcbb aaabb"]
    = String.append (two_strings ic_str dc_str) (concat_lines lines)
    /\ base4_decode ic_str = Some ((101 - INITIAL_IC) mod 256)
    /\ base4_decode dc_str = Some (1 mod 256)
    /\ (1 <= strlen ic_str <= 4)%nat /\ (1 <= strlen dc_str <= 4)%nat
    /\ Forall2 (fun cell line => object_line (fst cell) (snd cell) line)
         [(100, 960); (101, 5)] lines
    /\ strlen (concat_lines lines) = (11 * (1 + 1))%nat
    /\ Z.of_nat 1 = 1
    /\ Z.of_nat 1 = 1.
Proof.
  intros image. apply (object_file_layout image). reflexivity.
Defined.

(** ** Symbols that instructions refer to *)

Lemma convert_register (m : Z) :
  convert_to_addressing_mode m = MODE_REGISTER -> m = REGISTER.
Proof.
  unfold convert_to_addressing_mode. repeat break_match; try discriminate.
  intros _. now apply Z.eqb_eq.
Qed.

Lemma encode_one_resolves (op : string) (tbl : label_table) (addr : Z)
    (exts exts' : list ext_ref) (ws : list machine_word) (sym : string) :
  encode_one (Some op) tbl (convert_to_addressing_mode (get_operand_mode (Some op))) addr exts
    = (true, ws, exts') ->
  referenced_symbol op = Some sym ->
  found (find_label tbl sym) = true.
Proof.
  unfold referenced_symbol.
  destruct (get_operand_mode_values (Some op)) as [Hm | [Hm | [Hm | [Hm | Hm]]]];
    rewrite Hm; try discriminate.
  - (* Direct *)
    cbn. destruct (find_label tbl op) eqn:Hfind; [| discriminate].
    intros _ [= <-]. now rewrite Hfind.
  - (* Matrix *)
    change (convert_to_addressing_mode MATRIX_ACCESS) with MODE_MATRIX.
    change (MATRIX_ACCESS =? DIRECT) with false.
    change (MATRIX_ACCESS =? MATRIX_ACCESS) with true. cbv iota.
    pose proof (matrix_operand_shape op Hm) as Hshape.
    assert (Hlabel : is_valid_label (before op OPEN_BRACKET) = true).
    { revert Hshape. unfold parse_matrix_access. repeat break_match; try discriminate.
      intros _.
      match goal with
      | H : _ || negb (is_valid_label _) = false |- _ =>
          apply orb_false_elim in H; destruct H as [_ H]; now apply negb_false_iff in H
      end. }
    unfold encode_one, encode_matrix_operand.
    rewrite (strncpy_short MAX_LABEL_LENGTH (before op OPEN_BRACKET))
      by (pose proof (is_valid_label_length _ Hlabel); unfold MAX_LABEL_LENGTH; lia).
    repeat break_match; try discriminate.
    intros _ [= <-].
    match goal with H : find_label _ _ = Some _ |- _ => now rewrite H end.
Qed.

Lemma encode_instruction_resolves (parts : separate_line) (tbl : label_table) (ic : Z)
    (exts exts' : list ext_ref) (ws : list machine_word) (n : Z) :
  encode_instruction parts tbl ic exts = (true, ws, n, exts') ->
  symbols_resolved tbl parts.
Proof.
  unfold encode_instruction, symbols_resolved.
  destruct (get_instruction (command parts)) as [inst |] eqn:Hinst; [| discriminate].
  destruct (get_instruction_operands _ _ Hinst) as [Hn | [Hn | Hn]]; rewrite Hn;
    cbn [Z.eqb Z.leb Z.compare Pos.compare Pos.compare_cont andb Pos.eqb];
    change (Z.to_nat (1 - 1)) with 0%nat; change (Z.to_nat (2 - 1)) with 1%nat.
  - intros _ i op sym Hi. lia.
  - destruct (get_operand_mode (operand parts 0) =? FAILURE); [discriminate |].
    destruct (encode_one (operand parts 0) tbl
                (convert_to_addressing_mode (get_operand_mode (operand parts 0)))
                (ic + 1) exts) as [[ok ws1] e1] eqn:E.
    destruct ok; [| discriminate]. intros _ i op sym Hi Hop Hsym.
    assert (i = 0%nat) by lia. subst i. rewrite Hop in E.
    exact (encode_one_resolves _ _ _ _ _ _ _ E Hsym).
  - destruct (get_operand_mode (operand parts 1) =? FAILURE); [discriminate |].
    destruct (get_operand_mode (operand parts 0) =? FAILURE); [discriminate |].
    intros H i op sym Hi Hop Hsym.
    assert (Hcases : i = 0%nat \/ i = 1%nat) by lia.
    remember (convert_to_addressing_mode (get_operand_mode (operand parts 0))) as src
      eqn:Hsrc.
    remember (convert_to_addressing_mode (get_operand_mode (operand parts 1))) as dst
      eqn:Hdst.
    assert (Hshape :
              (src = MODE_REGISTER /\ dst = MODE_REGISTER)
              \/ forall A B : bool * list machine_word * Z * list ext_ref,
                   match src, dst with
                   | MODE_REGISTER, MODE_REGISTER => A
                   | _, _ => B
                   end = B)
      by (clear; destruct src, dst; auto).
    destruct Hshape as [[Hs Hd] | Hgeneral].
    + (* both operands are registers: neither refers to a symbol *)
      subst src dst. symmetry in Hs, Hd. symmetry in Hs, Hd.
      apply convert_register in Hs, Hd.
      unfold referenced_symbol in Hsym.
      destruct Hcases as [-> | ->]; rewrite Hop in *;
        [rewrite Hs in Hsym | rewrite Hd in Hsym]; discriminate Hsym.
    + rewrite Hgeneral in H. subst src dst.
      destruct (encode_one (operand parts 0) tbl
                  (convert_to_addressing_mode (get_operand_mode (operand parts 0)))
                  (ic + 1) exts) as [[ok1 ws1] e1] eqn:E1.
      destruct ok1; [| discriminate H]. cbn [negb] in H.
      match type of H with
      | context [encode_one ?a ?b ?c ?d ?e] =>
          destruct (encode_one a b c d e) as [[ok2 ws2] e2] eqn:E2
      end.
      destruct ok2; [| discriminate H].
      destruct Hcases as [-> | ->]; rewrite Hop in *;
        [exact (encode_one_resolves _ _ _ _ _ _ _ E1 Hsym)
        | exact (encode_one_resolves _ _ _ _ _ _ _ E2 Hsym)].
Qed.

Lemma encode_line_resolves (tbl : label_table) (capacity : Z) (line : string) (st : encoding) :
  has_errors (encode_line tbl capacity line st) = false ->
  has_errors st = false
  /\ match instruction_on line with
     | Some parts => symbols_resolved tbl parts
     | None => True
     end.
Proof.
  unfold encode_line, instruction_on.
  destruct (line_too_long line); [discriminate |].
  destruct (blank_or_comment line); [auto |].
  destruct (parse_line line) as [parts |]; [| auto].
  assert (Hinstr :
            has_errors
              (let '(ok, words, word_count, exts) :=
                 encode_instruction parts tbl (current_ic st) (ext_list st) in
               if ok
               then {| image_instructions :=
                         copy_words (firstn (Z.to_nat word_count) words) capacity
                           (image_instructions st);
                       current_ic := current_ic st + word_count;
                       ext_list := exts; has_errors := has_errors st |}
               else {| image_instructions := image_instructions st;
                       current_ic := current_ic st; ext_list := exts;
                       has_errors := true |}) = false ->
            has_errors st = false /\ symbols_resolved tbl parts).
  { destruct (encode_instruction parts tbl (current_ic st) (ext_list st))
      as [[[ok ws] n] exts] eqn:E.
    destruct ok; [| discriminate]. cbn [has_errors]. intros H. split; [assumption |].
    exact (encode_instruction_resolves _ _ _ _ _ _ _ E). }
  destruct (command parts) as [c |] eqn:Hc; [| exact Hinstr].
  destruct (ceqb (head c) DOT_CHAR); [auto | exact Hinstr].
Qed.

Lemma encode_lines_resolve (tbl : label_table) (capacity : Z) (lines : list string) :
  forall st,
    has_errors (List.fold_left (fun st line => encode_line tbl capacity line st) lines st)
      = false ->
    Forall (fun line =>
              match instruction_on line with
              | Some parts => symbols_resolved tbl parts
              | None => True
              end) lines.
Proof.
  induction lines as [| line lines IH]; intros st H; [constructor |].
  cbn [List.fold_left] in H.
  assert (Hstep : has_errors (encode_line tbl capacity line st) = false).
  { clear IH. revert H. generalize (encode_line tbl capacity line st). clear.
    induction lines as [| l lines IH]; intros st H; [exact H |].
    cbn [List.fold_left] in H. apply IH in H.
    now apply encode_line_resolves in H. }
  constructor; [exact (proj2 (encode_line_resolves _ _ _ _ Hstep)) | exact (IH _ H)].
Qed.

(** X23: If the second pass succeeds, every instruction it encoded is in the
    instruction table and every symbol an operand refers to (a Direct
    operand, or the name before the brackets of a Matrix operand) is in the
    symbol table: a reference to a missing symbol always fails the pass. *)
Theorem second_pass_resolves_symbols (file : string) (tbl : label_table) (ic dc : Z) :
  status (second_pass file tbl ic dc) = true ->
  Forall (fun line =>
            match instruction_on line with
            | Some parts => symbols_resolved tbl parts
            | None => True
            end) (fgets_all MAX_LINE_LENGTH file).
Proof.
  intros H. destruct (second_pass_success _ _ _ _ H) as (image & filled & exts & _ & Hfill & _).
  unfold fill_image in Hfill.
  match type of Hfill with
  | (let '(cells, errs) := ?loop in _) = _ => destruct loop as [cells errs] eqn:Hdata
  end.
  apply triple_eq in Hfill as (_ & _ & ->).
  pose proof (data_lines_no_error _ _ (f_equal snd Hdata)) as Herr. cbn [snd] in Herr.
  exact (encode_lines_resolve _ _ _ _ Herr).
Qed.

Lemma second_pass_resolves_symbols_witness :
  Forall (fun line =>
            match instruction_on line with
            | Some parts =>
                symbols_resolved
                  [ {| name := "E"; address := 0; type := LABEL_EXTERNAL; is_defined := false |} ]
                  parts
            | None => True
            end) (fgets_all MAX_LINE_LENGTH (text [".extern E"; "jmp E"; "stop"])).
Proof.
  apply (second_pass_resolves_symbols (text [".extern E"; "jmp E"; "stop"])
           [ {| name := "E"; address := 0; type := LABEL_EXTERNAL; is_defined := false |} ]
           103 0).
  vm_compute. reflexivity.
Defined.

(** ** Macros *)

Lemma copy_word_before (s : string) :
  forall room,
    forall_chars name_char (before s NEWLINE_CHAR) = true ->
    (strlen (before s NEWLINE_CHAR) <= room)%nat ->
    copy_word room s = before s NEWLINE_CHAR.
Proof.
  unfold strlen. induction s as [| c s IH]; intros room Hall Hlen.
  - destruct room; reflexivity.
  - cbn [before] in *. destruct (ceqb c NEWLINE_CHAR) eqn:Hnl.
    + destruct room; cbn [copy_word]; [reflexivity |]. rewrite Hnl.
      now rewrite !orb_true_r.
    + cbn [forall_chars String.length] in *. apply andb_true_iff in Hall as [Hc Hall].
      destruct room as [| room]; [lia |]. cbn [copy_word].
      rewrite (ceqb_class name_char c SPACE_CHAR Hc eq_refl).
      rewrite (ceqb_class name_char c TAB_CHAR Hc eq_refl), Hnl. cbn [orb].
      f_equal. apply IH; [assumption | lia].
Qed.

Lemma isalpha_not_digit (c : ascii) : isalpha c = true -> isdigit c = false.
Proof.
  unfold isalpha, isdigit. intros H.
  destruct ((48 <=? ord c)%N && (ord c <=? 57)%N) eqn:E; [| reflexivity].
  apply andb_true_iff in E as [E1 E2]. apply N.leb_le in E1, E2.
  apply orb_true_iff in H as [H | H]; apply andb_true_iff in H as [H1 H2];
    apply N.leb_le in H1, H2; lia.
Qed.

Lemma valid_macro_name_validates (nm : string) (macros : macro_list) :
  is_valid_macro_name nm = true ->
  validate_macro_name nm macros = negb (found (find_macro macros nm)).
Proof.
  unfold is_valid_macro_name, validate_macro_name.
  destruct (strlen nm <? 1)%nat eqn:L; [discriminate |].
  destruct (isalpha (head nm)) eqn:Ha; [| discriminate]. cbn [negb].
  destruct (is_valid_opcode nm); [discriminate |].
  destruct ((strlen nm =? REGISTER_NAME_LENGTH)%nat && ceqb (head nm) REGISTER_PREFIX_CHAR
            && register_char (char_at nm 1)); [discriminate |].
  intros Hchars. rewrite Hchars. cbn [negb].
  rewrite (isalpha_not_digit _ Ha).
  replace (strlen nm =? 0)%nat with false
    by (symmetry; apply Nat.eqb_neq; apply Nat.ltb_ge in L; lia).
  destruct (found (find_macro macros nm)); reflexivity.
Qed.

Lemma copy_word_length (room : nat) : forall s, (strlen (copy_word room s) <= room)%nat.
Proof.
  unfold strlen. induction room as [| room IH]; intros s; [reflexivity |].
  destruct s as [| c s]; cbn [copy_word]; [cbn; lia |].
  destruct (ceqb c SPACE_CHAR || ceqb c TAB_CHAR || ceqb c NEWLINE_CHAR); cbn; [lia |].
  specialize (IH s). lia.
Qed.

Lemma find_macro_none (macros : macro_list) (nm : string) :
  find_macro macros nm = None <-> ~ In nm (List.map macro_name macros).
Proof.
  unfold find_macro. induction macros as [| m macros IH]; cbn; [tauto |].
  destruct (String.eqb (macro_name m) nm) eqn:E.
  - apply String.eqb_eq in E. split; [discriminate | tauto].
  - apply String.eqb_neq in E. rewrite IH. tauto.
Qed.

Lemma validate_macro_name_fresh (nm : string) (macros : macro_list) :
  validate_macro_name nm macros = true -> find_macro macros nm = None.
Proof.
  unfold validate_macro_name. repeat break_match; try discriminate.
  intros _. destruct (find_macro macros nm); [discriminate | reflexivity].
Qed.

Lemma collect_inv (lines : list string) :
  forall st st', collecting_inv st -> collect lines st = Some st' -> collecting_inv st'.
Proof.
  induction lines as [| line lines IH]; intros st st' Hinv; cbn [collect].
  { intros [= <-]. assumption. }
  destruct Hinv as (Hfit & Hnodup & Hname & Hlen & Hroom & Hfresh).
  destruct (line_too_long line); [discriminate |].
  destruct (check_if_macro_start line).
  { destruct (validate_macro_name (extract_macro_name line) (macros st)) eqn:Hv;
      [| discriminate].
    cbn [negb]. apply IH. unfold collecting_inv. cbn.
    repeat split; try assumption.
    - pose proof (copy_word_length (MAX_MACRO_NAME - 1)
                    (drop_while (fun c => ceqb c SPACE_CHAR)
                       (advance MCRO_SPACE_OFFSET (skip_blanks line)))) as Hc.
      unfold extract_macro_name, MAX_MACRO_NAME in *. cbn in Hc. lia.
    - unfold MAX_MACRO_BODY. lia.
    - intros _. now apply validate_macro_name_fresh. }
  destruct (check_if_macro_end line).
  { destruct (in_macro_definition st) eqn:Hdef.
    - apply IH. unfold collecting_inv, add_macro. cbn.
      repeat split; try assumption.
      + constructor; [| assumption]. cbn. split; [assumption |].
        unfold MAX_MACRO_BODY, strlen in *. lia.
      + constructor; [| assumption]. apply find_macro_none. auto.
      + discriminate.
    - apply IH. unfold collecting_inv. rewrite Hdef. repeat split; assumption. }
  destruct (in_macro_definition st) eqn:Hdef.
  - destruct (content_length st + strlen line <? MAX_MACRO_BODY - 1)%nat eqn:Hadd.
    + apply Nat.ltb_lt in Hadd. apply IH. unfold collecting_inv. cbn.
      repeat split; try assumption; unfold strlen in *; try rewrite strlen_append; auto; lia.
    + apply IH. unfold collecting_inv. rewrite Hdef. repeat split; assumption.
  - apply IH. unfold collecting_inv. rewrite Hdef. repeat split; assumption.
Qed.

(** X24: Whatever the source, when the collecting loop of [expand_macros] ends
    every macro in the table has a name shorter than [MAX_MACRO_NAME] and a
    body shorter than [MAX_MACRO_BODY], so the copies [add_macro] makes into
    the arrays of a node fit, and no two macros have the same name. *)
Theorem macro_table_fits (input : string) (st : collecting) :
  collect (fgets_all MAX_LINE_LENGTH input)
    {| macros := []; in_macro_definition := false; current_macro_name := EmptyString;
       current_macro_content := EmptyString; content_length := 0 |} = Some st ->
  Forall (fun m => (strlen (macro_name m) < MAX_MACRO_NAME)%nat
                   /\ (strlen (content m) < MAX_MACRO_BODY)%nat) (macros st)
  /\ NoDup (List.map macro_name (macros st)).
Proof.
  intros H.
  assert (Hstart : collecting_inv
                     {| macros := []; in_macro_definition := false;
                        current_macro_name := EmptyString;
                        current_macro_content := EmptyString; content_length := 0 |}).
  { unfold collecting_inv. cbn. repeat split; try constructor;
      unfold MAX_MACRO_NAME, MAX_MACRO_BODY; try lia. }
  destruct (collect_inv _ _ _ Hstart H) as (Hfit & Hnodup & _). auto.
Qed.

Lemma macro_table_fits_witness :
  Forall (fun m => (strlen (macro_name m) < MAX_MACRO_NAME)%nat
                   /\ (strlen (content m) < MAX_MACRO_BODY)%nat)
    [ {| macro_name := "m"; content := "inc r1" ++ nl |} ]
  /\ NoDup (List.map macro_name [ {| macro_name := "m"; content := "inc r1" ++ nl |} ]).
Proof.
  apply (macro_table_fits (text ["mcro m"; "inc r1"; "mcroend"; "m"])
           {| macros := [ {| macro_name := "m"; content := "inc r1" ++ nl |} ];
              in_macro_definition := false; current_macro_name := "m";
              current_macro_content := "inc r1" ++ nl; content_length := 7 |}).
  reflexivity.
Defined.

Lemma c_str_not_nul (s : string) : forall_chars not_nul s = true -> c_str s = s.
Proof.
  induction s as [| c s IH]; cbn; [reflexivity |].
  intros H. apply andb_true_iff in H as [Hc Hs]. unfold not_nul in Hc.
  apply negb_true_iff in Hc. rewrite Hc. now rewrite IH.
Qed.

Lemma append_assoc (a b c : string) :
  String.append (String.append a b) c = String.append a (String.append b c).
Proof. induction a as [| x a IH]; cbn; [reflexivity | now rewrite IH]. Qed.

Lemma rev_string_app (s : string) :
  forall acc, rev_string acc s = String.append (rev_string EmptyString s) acc.
Proof.
  induction s as [| c s IH]; intros acc; cbn; [reflexivity |].
  rewrite (IH (String c acc)), (IH (String c EmptyString)).
  rewrite append_assoc. reflexivity.
Qed.

Lemma forall_chars_app (p : ascii -> bool) (a b : string) :
  forall_chars p (String.append a b) = forall_chars p a && forall_chars p b.
Proof.
  induction a as [| c a IH]; cbn; [reflexivity |]. rewrite IH. now rewrite andb_assoc.
Qed.

Lemma rev_string_not_nul (s : string) :
  forall_chars not_nul s = true -> forall_chars not_nul (rev_string EmptyString s) = true.
Proof.
  induction s as [| c s IH]; cbn; [reflexivity |].
  intros H. apply andb_true_iff in H as [Hc Hs].
  rewrite rev_string_app, forall_chars_app, (IH Hs). cbn. now rewrite Hc.
Qed.

Lemma fgets_loop_concat (size : nat) (file : string) :
  forall room cur,
    forall_chars not_nul file = true -> forall_chars not_nul cur = true ->
    concat_lines (fgets_loop size room cur file)
    = String.append (rev_string EmptyString cur) file.
Proof.
  unfold concat_lines.
  induction file as [| c rest IH]; intros room cur Hfile Hcur.
  - cbn [fgets_loop]. destruct cur as [| d cur]; [reflexivity |].
    cbn [List.fold_right]. rewrite (c_str_not_nul _ (rev_string_not_nul _ Hcur)).
    reflexivity.
  - cbn [forall_chars] in Hfile. apply andb_true_iff in Hfile as [Hc Hrest].
    assert (Hnew : forall_chars not_nul (String c cur) = true) by (cbn; now rewrite Hc).
    cbn [fgets_loop].
    destruct (ceqb c "010"%char || (room =? 1)%nat).
    + cbn [List.fold_right]. rewrite (IH _ EmptyString Hrest eq_refl).
      rewrite (c_str_not_nul _ (rev_string_not_nul _ Hnew)).
      cbn [rev_string]. rewrite (rev_string_app cur (String c EmptyString)).
      rewrite append_assoc. reflexivity.
    + rewrite (IH _ _ Hrest Hnew). cbn [rev_string].
      rewrite (rev_string_app cur (String c EmptyString)).
      rewrite append_assoc. reflexivity.
Qed.

Lemma collect_plain (lines : list string) (st : collecting) :
  Forall plain_line lines -> in_macro_definition st = false -> collect lines st = Some st.
Proof.
  intros H Hdef. induction H as [| line lines (Hlong & Hstart & Hend) _ IH]; [reflexivity |].
  cbn [collect]. now rewrite Hlong, Hstart, Hend, Hdef.
Qed.

Lemma expand_plain (lines : list string) :
  Forall plain_line lines ->
  forall output,
    expand lines [] false output = String.append output (concat_lines lines).
Proof.
  induction 1 as [| line lines (Hlong & Hstart & Hend) _ IH]; intros output.
  - cbn. now rewrite append_empty.
  - cbn [expand]. rewrite Hlong, Hstart, Hend.
    change (is_macro_call line []) with false. cbv iota.
    rewrite IH. unfold concat_lines. cbn [List.fold_right].
    now rewrite append_assoc.
Qed.

(** X25: A source without NUL bytes in which no line is too long and no line
    starts or ends a macro definition is copied to the [.am] file
    unchanged. *)
Theorem expand_macros_copies_plain_source (input : string) :
  forall_chars not_nul input = true ->
  Forall plain_line (fgets_all MAX_LINE_LENGTH input) ->
  expand_macros input = {| failed := false; am_file := input |}.
Proof.
  intros Hnul Hplain. unfold expand_macros.
  rewrite (collect_plain _
             {| macros := []; in_macro_definition := false; current_macro_name := EmptyString;
                current_macro_content := EmptyString; content_length := 0 |}
             Hplain eq_refl).
  cbn [in_macro_definition macros].
  rewrite (expand_plain _ Hplain). cbn [String.append].
  unfold fgets_all. rewrite (fgets_loop_concat _ _ _ EmptyString Hnul eq_refl). reflexivity.
Qed.

Lemma expand_macros_copies_plain_source_witness :
  expand_macros (text ["MAIN: mov r1, r2"; "; comment"; "stop"]) =
    {| failed := false; am_file := text ["MAIN: mov r1, r2"; "; comment"; "stop"] |}.
Proof.
  apply (expand_macros_copies_plain_source (text ["MAIN: mov r1, r2"; "; comment"; "stop"])).
  - reflexivity.
  - repeat constructor.
Defined.

Lemma valid_macro_name_chars (nm : string) :
  is_valid_macro_name nm = true ->
  nm <> EmptyString /\ isalpha (head nm) = true /\ forall_chars name_char nm = true.
Proof.
  unfold is_valid_macro_name. repeat break_match; try discriminate. intros H.
  repeat split; try assumption.
  - intros ->. discriminate.
  - now apply negb_false_iff.
Qed.

Lemma drop_spaces_name (nm rest : string) :
  isalpha (head nm) = true ->
  drop_while (fun c => ceqb c SPACE_CHAR) (String.append nm rest) = String.append nm rest.
Proof.
  destruct nm as [| c nm]; [discriminate |]. cbn. intros H.
  now rewrite (ceqb_class isalpha c SPACE_CHAR H eq_refl).
Qed.

Lemma macro_start_line_spec (nm : string) (macros : macro_list) :
  is_valid_macro_name nm = true -> (strlen nm <= MAX_MACRO_NAME - 1)%nat ->
  line_too_long (macro_start_line nm) = false
  /\ check_if_macro_start (macro_start_line nm) = true
  /\ extract_macro_name (macro_start_line nm) = nm.
Proof.
  intros Hvalid Hlen.
  destruct (valid_macro_name_chars nm Hvalid) as (Hne & Ha & Hall).
  assert (Hbefore : before (String.append nm nl) NEWLINE_CHAR = nm).
  { rewrite (before_app name_char NEWLINE_CHAR nm nl Hall eq_refl). cbn. apply append_empty. }
  assert (Hskip : skip_blanks (macro_start_line nm) = macro_start_line nm) by reflexivity.
  split; [| split].
  - unfold line_too_long, macro_start_line, strlen, MAX_MACRO_NAME, MAX_LINE_LENGTH in *.
    replace (81 - 1 <=? String.length (String.append "mcro " (String.append nm nl)))%nat
      with false; [reflexivity |].
    symmetry. apply Nat.leb_gt. cbn. rewrite strlen_append. cbn. lia.
  - unfold check_if_macro_start. rewrite Hskip. unfold macro_start_line.
    cbn -[drop_while before is_valid_macro_name Nat.ltb Nat.sub].
    rewrite (drop_spaces_name nm nl Ha), Hbefore.
    replace (MAX_MACRO_NAME - 1 <? strlen nm)%nat with false
      by (symmetry; apply Nat.ltb_ge; assumption).
    assumption.
  - unfold extract_macro_name. rewrite Hskip. unfold macro_start_line.
    cbn -[drop_while copy_word Nat.sub].
    rewrite (drop_spaces_name nm nl Ha).
    rewrite (copy_word_before (String.append nm nl) (MAX_MACRO_NAME - 1)); rewrite Hbefore;
      auto.
Qed.

Lemma collect_body (body tail : list string) :
  forall st,
    Forall plain_line body ->
    in_macro_definition st = true ->
    content_length st = strlen (current_macro_content st) ->
    (content_length st + strlen (concat_lines body) < MAX_MACRO_BODY - 1)%nat ->
    collect (body ++ tail) st =
    collect tail
      {| macros := macros st; in_macro_definition := true;
         current_macro_name := current_macro_name st;
         current_macro_content :=
           String.append (current_macro_content st) (concat_lines body);
         content_length := content_length st + strlen (concat_lines body) |}.
Proof.
  induction body as [| line body IH]; intros st Hplain Hdef Hlen Hroom.
  - cbn [app concat_lines List.fold_right]. rewrite append_empty.
    change (strlen EmptyString) with 0%nat. rewrite Nat.add_0_r.
    destruct st. cbn in *. now subst.
  - inversion Hplain as [| x xs (Hlong & Hstart & Hend) Hrest]. subst.
    cbn [app collect]. rewrite Hlong, Hstart, Hend, Hdef.
    assert (Hsum : strlen (concat_lines (line :: body))
                   = (strlen line + strlen (concat_lines body))%nat).
    { unfold concat_lines, strlen. cbn [List.fold_right]. apply strlen_append. }
    rewrite Hsum in *.
    replace (content_length st + strlen line <? MAX_MACRO_BODY - 1)%nat with true
      by (symmetry; apply Nat.ltb_lt; lia).
    rewrite IH; cbn [macros in_macro_definition current_macro_name current_macro_content
                      content_length]; try assumption; try reflexivity.
    + unfold concat_lines at 3. cbn [List.fold_right]. fold (concat_lines body).
      rewrite append_assoc. do 2 f_equal. lia.
    + unfold strlen in *. rewrite strlen_append. lia.
    + lia.
Qed.

Lemma expand_skip (body tail : list string) (macros : macro_list) (output : string) :
  Forall plain_line body ->
  expand (body ++ tail) macros true output = expand tail macros true output.
Proof.
  induction 1 as [| line body (Hlong & Hstart & Hend) _ IH]; [reflexivity |].
  cbn [app expand]. now rewrite Hlong, Hstart, Hend.
Qed.

Lemma expand_calls (macros : macro_list) (rest : list string) :
  Forall plain_line rest ->
  forall output,
    expand rest macros false output =
    String.append output
      (concat_lines
         (List.map (fun line => match find_macro macros (first_word line) with
                                | Some m => content m
                                | None => line
                                end) rest)).
Proof.
  induction 1 as [| line rest (Hlong & Hstart & Hend) _ IH]; intros output.
  - cbn. now rewrite append_empty.
  - cbn [expand List.map]. rewrite Hlong, Hstart, Hend.
    unfold is_macro_call. fold (first_word line).
    unfold concat_lines. cbn [List.fold_right]. fold concat_lines.
    destruct (find_macro macros (first_word line)) as [m |]; cbn [found];
      rewrite IH, append_assoc; reflexivity.
Qed.

(** X26: A macro definition followed by ordinary lines and calls: the lines of
    the definition do not reach the [.am] file, every line whose first word
    is the name of the macro is replaced by the body, and every other line
    is copied. *)
Theorem macro_call_is_replaced_by_body (input nm : string) (body rest : list string) :
  is_valid_macro_name nm = true -> (strlen nm <= MAX_MACRO_NAME - 1)%nat ->
  fgets_all MAX_LINE_LENGTH input = macro_start_line nm :: (body ++ macro_end_line :: rest) ->
  Forall plain_line body ->
  (strlen (concat_lines body) < MAX_MACRO_BODY - 1)%nat ->
  Forall plain_line rest ->
  expand_macros input =
    {| failed := false;
       am_file :=
         concat_lines
           (List.map (fun line => if String.eqb nm (first_word line)
                                  then concat_lines body else line) rest) |}.
Proof.
  intros Hvalid Hlen Hlines Hbody Hroom Hrest.
  destruct (macro_start_line_spec nm [] Hvalid Hlen) as (Hlong & Hstart & Hname).
  unfold expand_macros. rewrite Hlines.
  cbn [collect macros]. rewrite Hlong, Hstart, Hname.
  rewrite (valid_macro_name_validates nm [] Hvalid). cbn [find_macro List.find found negb macros].
  rewrite (collect_body body (macro_end_line :: rest)); cbn [in_macro_definition
    current_macro_content content_length macros current_macro_name]; try assumption;
    try reflexivity.
  cbn [collect String.append].
  change (line_too_long macro_end_line) with false.
  change (check_if_macro_start macro_end_line) with false.
  change (check_if_macro_end macro_end_line) with true. cbv iota.
  cbn [in_macro_definition macros current_macro_name current_macro_content content_length].
  rewrite collect_plain by (assumption || reflexivity).
  cbn [in_macro_definition macros]. f_equal.
  cbn [expand]. rewrite Hlong, Hstart.
  rewrite expand_skip by assumption. cbn [expand].
  change (line_too_long macro_end_line) with false.
  change (check_if_macro_start macro_end_line) with false.
  change (check_if_macro_end macro_end_line) with true. cbv iota.
  rewrite expand_calls by assumption. cbn [String.append]. f_equal.
  apply List.map_ext. intros line. unfold find_macro, add_macro.
  cbn [List.find macro_name content].
  destruct (String.eqb nm (first_word line)); reflexivity.
Qed.

Lemma macro_call_is_replaced_by_body_witness :
  expand_macros (text ["mcro m"; "inc r1"; "dec r2"; "mcroend"; "MAIN: clr r1"; "  m"; "stop"]) =
    {| failed := false;
       am_file := text ["MAIN: clr r1"; "inc r1"; "dec r2"; "stop"] |}.
Proof.
  apply (macro_call_is_replaced_by_body
           (text ["mcro m"; "inc r1"; "dec r2"; "mcroend"; "MAIN: clr r1"; "  m"; "stop"])
           "m" ["inc r1" ++ nl; "dec r2" ++ nl]
           ["MAIN: clr r1" ++ nl; "  m" ++ nl; "stop" ++ nl]).
  - reflexivity.
  - cbn. lia.
  - reflexivity.
  - repeat constructor.
  - cbn. lia.
  - repeat constructor.
Defined.

(** ** File names and the command line *)

Lemma advance_split (n : nat) :
  forall s, (n <= strlen s)%nat ->
    s = String.append (String.substring 0 n s) (advance n s)
    /\ strlen (advance n s) = (strlen s - n)%nat.
Proof.
  unfold strlen. induction n as [| n IH]; intros s Hn.
  - cbn. destruct s; cbn; split; reflexivity || lia.
  - destruct s as [| c s]; [cbn in Hn; lia |].
    cbn [String.length] in Hn. destruct (IH s ltac:(lia)) as [H1 H2].
    cbn [advance tail String.substring String.append String.length]. split.
    + now rewrite <- H1.
    + rewrite H2. lia.
Qed.

Lemma strrchr_app (c : ascii) (pre s p : string) :
  strrchr s c = Some p -> strrchr (String.append pre s) c = Some p.
Proof.
  intros H. induction pre as [| d pre IH]; cbn; [assumption |]. now rewrite IH.
Qed.

Lemma substring_prefix (pre s : string) :
  String.substring 0 (String.length pre) (String.append pre s) = pre.
Proof.
  induction pre as [| c pre IH]; cbn.
  - destruct s; reflexivity.
  - now rewrite IH.
Qed.

(** X27: A file name that [validate_filename] accepts ends in [.as], and
    [extract_base_filename] removes exactly this suffix: the base name
    followed by [.as] is the file name again. *)
Theorem base_filename_round_trip (filename : string) :
  validate_filename filename = true ->
  String.append (extract_base_filename filename) SOURCE_EXT = filename
  /\ strlen (extract_base_filename filename) = (strlen filename - 3)%nat
  /\ (1 <= strlen (extract_base_filename filename))%nat.
Proof.
  unfold validate_filename. intros H.
  destruct (strlen filename <? 4)%nat eqn:Hlen; [discriminate |].
  apply Nat.ltb_ge in Hlen.
  destruct (String.eqb (advance (strlen filename - 3) filename) SOURCE_EXT) eqn:Hext;
    [| discriminate].
  apply String.eqb_eq in Hext.
  destruct (advance_split (strlen filename - 3) filename ltac:(lia)) as [Hsplit _].
  rewrite Hext in Hsplit.
  set (base := String.substring 0 (strlen filename - 3) filename) in *.
  assert (Hbase : strlen base = (strlen filename - 3)%nat).
  { pose proof (f_equal String.length Hsplit) as Hl. rewrite strlen_append in Hl.
    unfold strlen in *. cbn in Hl. lia. }
  assert (Hresult : extract_base_filename filename = base).
  { unfold extract_base_filename. rewrite Hsplit at 1.
    rewrite (strrchr_app DOT_CHAR base SOURCE_EXT SOURCE_EXT eq_refl).
    unfold cut_at. rewrite Hsplit at 2. unfold strlen in *.
    replace (String.length filename - String.length SOURCE_EXT)%nat
      with (String.length base) by (cbn; lia).
    apply substring_prefix. }
  rewrite Hresult. split; [now symmetry |]. split; [assumption | lia].
Qed.

Lemma base_filename_round_trip_witness :
  String.append (extract_base_filename "dir.v1/prog.as") SOURCE_EXT = "dir.v1/prog.as"
  /\ strlen (extract_base_filename "dir.v1/prog.as") = (strlen "dir.v1/prog.as" - 3)%nat
  /\ (1 <= strlen (extract_base_filename "dir.v1/prog.as"))%nat.
Proof. apply (base_filename_round_trip "dir.v1/prog.as"). reflexivity. Defined.

Lemma main_loop_spec (read : string -> string) (args : list string) :
  forall t,
    let t' := main_loop read args t in
    total_files t' = total_files t + Z.of_nat (List.length args)
    /\ successful_files t' + failed_files t' =
         successful_files t + failed_files t + Z.of_nat (List.length args)
    /\ failed_files t <= failed_files t'
    /\ (failed_files t' = failed_files t <->
        Forall (fun arg => validate_filename arg = true
                           /\ result (process_file (read arg)) = true) args).
Proof.
  induction args as [| arg args IH]; intros t; cbv zeta.
  - cbn. repeat split; try lia. constructor.
  - cbn [main_loop List.length].
    destruct (validate_filename arg) eqn:Hv; cbn [negb].
    + destruct (result (process_file (read arg))) eqn:Hr.
      * match goal with |- context [main_loop read args ?s] => specialize (IH s) end.
        cbv zeta in IH. cbn [total_files successful_files failed_files] in IH.
        destruct IH as (H1 & H2 & H3 & H4).
        repeat split; try lia.
        -- intros H. constructor; [auto | now apply H4].
        -- intros H. inversion H. now apply H4.
      * match goal with |- context [main_loop read args ?s] => specialize (IH s) end.
        cbv zeta in IH. cbn [total_files successful_files failed_files] in IH.
        destruct IH as (H1 & H2 & H3 & H4).
        repeat split; try lia.
        intros H. inversion H as [| x xs [_ Hx] _]. congruence.
    + match goal with |- context [main_loop read args ?s] => specialize (IH s) end.
      cbv zeta in IH. cbn [total_files successful_files failed_files] in IH.
      destruct IH as (H1 & H2 & H3 & H4).
      repeat split; try lia.
      intros H. inversion H as [| x xs [Hx _] _]. congruence.
Qed.

(** X28: [main] exits with 0 exactly when it was given at least one file name
    and every file name ends in [.as] and is processed successfully;
    otherwise it exits with 1.  Every argument is counted once, as a
    success or as a failure. *)
Theorem main_exit_status (read : string -> string) (argv : list string) :
  (main read argv = 0 <->
   (2 <= List.length argv)%nat
   /\ Forall (fun arg => validate_filename arg = true
                         /\ result (process_file (read arg)) = true) (List.tl argv))
  /\ (main read argv = 0 \/ main read argv = EXIT_FAILURE_CODE)
  /\ let t := main_loop read (List.tl argv)
                {| total_files := 0; successful_files := 0; failed_files := 0 |} in
     total_files t = Z.of_nat (List.length (List.tl argv))
     /\ successful_files t + failed_files t = total_files t.
Proof.
  pose proof (main_loop_spec read (List.tl argv)
                {| total_files := 0; successful_files := 0; failed_files := 0 |}) as H.
  cbv zeta in *. cbn [total_files successful_files failed_files] in H.
  destruct H as (H1 & H2 & H3 & H4).
  unfold main, EXIT_FAILURE_CODE.
  destruct (Z.of_nat (List.length argv) <? 2) eqn:Hargc.
  - apply Z.ltb_lt in Hargc.
    split; [split; [discriminate | intros [Hlen _]; lia] |].
    split; [right; reflexivity | split; lia].
  - apply Z.ltb_ge in Hargc.
    destruct (0 <? failed_files
                     (main_loop read (List.tl argv)
                        {| total_files := 0; successful_files := 0; failed_files := 0 |}))
      eqn:Hfailed.
    + apply Z.ltb_lt in Hfailed.
      split; [split; [discriminate | intros [_ Hall]; apply H4 in Hall; lia] |].
      split; [right; reflexivity | split; lia].
    + apply Z.ltb_ge in Hfailed.
      split; [split; [intros _; split; [lia | apply H4; lia] | reflexivity] |].
      split; [left; reflexivity | split; lia].
Qed.

(** ** Addresses of the stored words *)

Lemma addresses_from_app (a b : nat) :
  forall start,
    addresses_from start (a + b)
    = (addresses_from start a ++ addresses_from (start + Z.of_nat a) b)%list.
Proof.
  induction a as [| a IH]; intros start.
  - cbn. now rewrite Z.add_0_r.
  - cbn [Nat.add addresses_from app]. rewrite IH. do 3 f_equal. lia.
Qed.

Lemma encode_one_addresses (op : option string) (tbl : label_table) (mode : addressing_mode)
    (addr : Z) (exts exts' : list ext_ref) (ws : list machine_word) :
  encode_one op tbl mode addr exts = (true, ws, exts') ->
  List.map word_address ws = addresses_from addr (List.length ws).
Proof.
  unfold encode_one, encode_operand, encode_matrix_operand, label_word.
  destruct mode; repeat break_match; intros H; apply triple_eq in H as (H1 & <- & _);
    try discriminate H1; try reflexivity;
    repeat match goal with
           | H : (_, _) = (_, _) |- _ => injection H as <- <-
           end; reflexivity.
Qed.

Lemma encode_instruction_addresses (parts : separate_line) (tbl : label_table) (ic : Z)
    (exts exts' : list ext_ref) (ws : list machine_word) (n : Z) :
  encode_instruction parts tbl ic exts = (true, ws, n, exts') ->
  Z.of_nat (List.length ws) = n
  /\ List.map word_address ws = addresses_from ic (List.length ws).
Proof.
  unfold encode_instruction.
  destruct (get_instruction (command parts)) as [inst |] eqn:Hinst; [| discriminate].
  destruct (get_instruction_operands _ _ Hinst) as [Hn | [Hn | Hn]]; rewrite Hn;
    cbn [Z.eqb Z.leb Z.compare Pos.compare Pos.compare_cont andb Pos.eqb];
    change (Z.to_nat (1 - 1)) with 0%nat; change (Z.to_nat (2 - 1)) with 1%nat.
  - intros H. apply encoded_eq in H as (_ & <- & <- & _). split; reflexivity.
  - destruct (get_operand_mode (operand parts 0) =? FAILURE); [discriminate |].
    set (dst := convert_to_addressing_mode (get_operand_mode (operand parts 0))).
    destruct (encode_one (operand parts 0) tbl dst (ic + 1) exts) as [[ok ws1] e1] eqn:E.
    destruct ok; [| discriminate]. cbn [negb].
    pose proof (encode_one_words _ _ _ _ _ _ _ _ E) as Hw. cbv iota in Hw.
    apply encode_one_addresses in E.
    intros H1. apply encoded_eq in H1 as (_ & <- & <- & _).
    cbn [List.length List.map addresses_from]. split; [lia | now rewrite E].
  - destruct (get_operand_mode (operand parts 1) =? FAILURE); [discriminate |].
    destruct (get_operand_mode (operand parts 0) =? FAILURE); [discriminate |].
    remember (convert_to_addressing_mode (get_operand_mode (operand parts 0))) as src
      eqn:Hsrc.
    remember (convert_to_addressing_mode (get_operand_mode (operand parts 1))) as dst
      eqn:Hdst.
    assert (Hshape :
              (src = MODE_REGISTER /\ dst = MODE_REGISTER)
              \/ forall A B : bool * list machine_word * Z * list ext_ref,
                   match src, dst with
                   | MODE_REGISTER, MODE_REGISTER => A
                   | _, _ => B
                   end = B)
      by (clear; destruct src, dst; auto).
    destruct Hshape as [[-> ->] | Hgeneral].
    + destruct ((0 <=? match operand parts 0 with
                       | Some r => get_register_number r
                       | None => INVALID_REGISTER
                       end)
                && (0 <=? match operand parts 1 with
                          | Some r => get_register_number r
                          | None => INVALID_REGISTER
                          end)); [| discriminate].
      intros H1. apply encoded_eq in H1 as (_ & <- & <- & _). split; reflexivity.
    + rewrite Hgeneral.
      destruct (encode_one (operand parts 0) tbl src (ic + 1) exts) as [[ok1 ws1] e1] eqn:E1.
      destruct ok1; [| discriminate]. cbn [negb]. cbv zeta.
      destruct (encode_one (operand parts 1) tbl dst (ic + (1 + words_for src)) e1)
        as [[ok2 ws2] e2] eqn:E2.
      destruct ok2; [| discriminate]. cbn [negb].
      pose proof (encode_one_words _ _ _ _ _ _ _ _ E1) as Hw1. cbv iota in Hw1.
      pose proof (encode_one_words _ _ _ _ _ _ _ _ E2) as Hw2. cbv iota in Hw2.
      apply encode_one_addresses in E1, E2.
      intros H1. apply encoded_eq in H1 as (_ & <- & <- & _).
      cbn [List.length List.map addresses_from]. rewrite length_app. split; [lia |].
      rewrite List.map_app, addresses_from_app, E1, E2. do 3 f_equal. lia.
Qed.

Lemma addresses_from_snoc (start : Z) (n : nat) :
  addresses_from start (S n) = (addresses_from start n ++ [start + Z.of_nat n])%list.
Proof.
  replace (S n) with (n + 1)%nat by lia. rewrite addresses_from_app. reflexivity.
Qed.

Lemma copy_words_addresses (capacity : Z) (ws : list machine_word) :
  forall stored ic,
    List.map word_address stored = addresses_from INITIAL_IC (List.length stored) ->
    (Z.of_nat (List.length stored) < capacity ->
     Z.of_nat (List.length stored) = ic - INITIAL_IC) ->
    List.map word_address ws = addresses_from ic (List.length ws) ->
    let result := copy_words ws capacity stored in
    List.map word_address result = addresses_from INITIAL_IC (List.length result)
    /\ (Z.of_nat (List.length result) < capacity ->
        Z.of_nat (List.length result) = ic + Z.of_nat (List.length ws) - INITIAL_IC).
Proof.
  induction ws as [| w ws IH]; intros stored ic Hstored Hsync Hws; cbv zeta.
  - cbn [copy_words List.length]. split; [assumption |]. intros H. specialize (Hsync H). lia.
  - cbn [List.map List.length addresses_from] in Hws. injection Hws as Hw Hrest.
    cbn [copy_words].
    destruct (Z.of_nat (List.length stored) <? capacity) eqn:E.
    + apply Z.ltb_lt in E. specialize (Hsync E).
      destruct (IH (stored ++ [w])%list (ic + 1)) as [H1 H2].
      * rewrite List.map_app, length_app, Hstored. cbn [List.map List.length].
        rewrite Nat.add_1_r, addresses_from_snoc. do 2 f_equal. lia.
      * intros _. rewrite length_app. cbn. lia.
      * assumption.
      * split; [assumption |]. intros H. specialize (H2 H). cbn [List.length]. lia.
    + apply Z.ltb_ge in E.
      destruct (IH stored (ic + 1)) as [H1 H2]; [assumption | lia | assumption |].
      split; [assumption |]. intros H. specialize (H2 H). cbn [List.length]. lia.
Qed.

Lemma encode_line_addresses (tbl : label_table) (capacity : Z) (line : string)
    (st : encoding) :
  List.map word_address (image_instructions st)
  = addresses_from INITIAL_IC (List.length (image_instructions st)) ->
  (Z.of_nat (List.length (image_instructions st)) < capacity ->
   Z.of_nat (List.length (image_instructions st)) = current_ic st - INITIAL_IC) ->
  let st' := encode_line tbl capacity line st in
  List.map word_address (image_instructions st')
  = addresses_from INITIAL_IC (List.length (image_instructions st'))
  /\ (Z.of_nat (List.length (image_instructions st')) < capacity ->
      Z.of_nat (List.length (image_instructions st')) = current_ic st' - INITIAL_IC).
Proof.
  intros Hstored Hsync. cbv zeta. unfold encode_line.
  destruct (line_too_long line); [auto |].
  destruct (blank_or_comment line); [auto |].
  destruct (parse_line line) as [parts |]; [| auto].
  assert (Hinstr :
            let st' :=
              let '(ok, words, word_count, exts) :=
                encode_instruction parts tbl (current_ic st) (ext_list st) in
              if ok
              then {| image_instructions :=
                        copy_words (firstn (Z.to_nat word_count) words) capacity
                          (image_instructions st);
                      current_ic := current_ic st + word_count;
                      ext_list := exts; has_errors := has_errors st |}
              else {| image_instructions := image_instructions st;
                      current_ic := current_ic st; ext_list := exts;
                      has_errors := true |} in
            List.map word_address (image_instructions st')
            = addresses_from INITIAL_IC (List.length (image_instructions st'))
            /\ (Z.of_nat (List.length (image_instructions st')) < capacity ->
                Z.of_nat (List.length (image_instructions st')) = current_ic st' - INITIAL_IC)).
  { cbv zeta.
    destruct (encode_instruction parts tbl (current_ic st) (ext_list st))
      as [[[ok ws] n] exts] eqn:E.
    destruct ok; [| auto].
    apply encode_instruction_addresses in E as [Hn Hws].
    cbn [image_instructions current_ic].
    replace (Z.to_nat n) with (List.length ws) by lia. rewrite List.firstn_all.
    destruct (copy_words_addresses capacity ws (image_instructions st) (current_ic st)
                Hstored Hsync Hws) as [H1 H2].
    split; [assumption |]. intros H. specialize (H2 H). lia. }
  destruct (command parts) as [c |]; [| exact Hinstr].
  destruct (ceqb (head c) DOT_CHAR); [auto | exact Hinstr].
Qed.

Lemma encode_lines_addresses (tbl : label_table) (capacity : Z) (lines : list string) :
  forall st,
    List.map word_address (image_instructions st)
    = addresses_from INITIAL_IC (List.length (image_instructions st)) ->
    (Z.of_nat (List.length (image_instructions st)) < capacity ->
     Z.of_nat (List.length (image_instructions st)) = current_ic st - INITIAL_IC) ->
    let st' := List.fold_left (fun st line => encode_line tbl capacity line st) lines st in
    List.map word_address (image_instructions st')
    = addresses_from INITIAL_IC (List.length (image_instructions st')).
Proof.
  induction lines as [| line lines IH]; intros st H1 H2; cbv zeta; cbn [List.fold_left];
    [assumption |].
  destruct (encode_line_addresses tbl capacity line st H1 H2) as [H3 H4].
  exact (IH _ H3 H4).
Qed.

Lemma store_values_addresses (values : list Z) :
  forall data,
    List.map word_address data = addresses_from 0 (List.length data) ->
    List.map word_address (store_values values data)
    = addresses_from 0 (List.length (store_values values data)).
Proof.
  induction values as [| v values IH]; intros data H; cbn [store_values]; [assumption |].
  apply IH. rewrite List.map_app, length_app, H. cbn [List.map List.length data_cell
    word_address].
  rewrite Nat.add_1_r, addresses_from_snoc. reflexivity.
Qed.

Lemma data_line_addresses (line : string) (st : list machine_word * bool) :
  List.map word_address (fst st) = addresses_from 0 (List.length (fst st)) ->
  List.map word_address (fst (data_line line st))
  = addresses_from 0 (List.length (fst (data_line line st))).
Proof.
  intros H. unfold data_line, process_data_line.
  repeat break_match; cbn [fst]; try assumption;
    repeat match goal with
           | E : (_, _) = (_, _) |- _ => injection E as <- <-
           end; try assumption; now apply store_values_addresses.
Qed.

Lemma data_lines_addresses (lines : list string) :
  forall st,
    List.map word_address (fst st) = addresses_from 0 (List.length (fst st)) ->
    List.map word_address (fst (List.fold_left (fun st line => data_line line st) lines st))
    = addresses_from 0
        (List.length (fst (List.fold_left (fun st line => data_line line st) lines st))).
Proof.
  induction lines as [| line lines IH]; intros st H; cbn [List.fold_left]; [assumption |].
  apply IH. now apply data_line_addresses.
Qed.

(** X29: Whatever the source and the table, the words the second pass stores in
    the instruction array carry the consecutive addresses 100, 101, ... in
    the order stored, and the cells of the data array carry their indices
    0, 1, ... *)
Theorem stored_addresses_are_consecutive (lines : list string) (tbl : label_table)
    (image : memory_image) :
  let filled := fst (fst (fill_image lines tbl image)) in
  List.map word_address (instructions filled)
  = addresses_from INITIAL_IC (List.length (instructions filled))
  /\ List.map word_address (data filled) = addresses_from 0 (List.length (data filled)).
Proof.
  cbv zeta. unfold fill_image.
  pose proof (data_lines_addresses lines
                ([], has_errors
                       (List.fold_left
                          (fun st line => encode_line tbl (instruction_count image) line st)
                          lines
                          {| image_instructions := []; current_ic := INITIAL_IC;
                             ext_list := []; has_errors := false |})) eq_refl) as Hdata.
  destruct (List.fold_left (fun st line => data_line line st) lines _) as [cells errs].
  cbn [fst instructions data] in *. split; [| assumption].
  apply encode_lines_addresses; [reflexivity |]. intros _. reflexivity.
Qed.

(** ** The first pass: code and external symbols *)

Lemma code_or_external_weaken (hi hi' : Z) (tbl : label_table) :
  hi <= hi' -> Forall (code_or_external hi) tbl -> Forall (code_or_external hi') tbl.
Proof.
  intros Hle H. eapply Forall_impl; [| exact H].
  intros n [Hc He]. split; [| assumption].
  intros Ht. destruct (Hc Ht). split; [assumption | lia].
Qed.

Lemma define_existing_code_or_external (hi addr : Z) (ty : label_type) (n : label_node) :
  ty <> LABEL_EXTERNAL ->
  (ty = LABEL_CODE -> INITIAL_IC <= addr < hi) ->
  code_or_external hi (define_existing addr ty n).
Proof.
  intros Hext Hty. unfold define_existing, code_or_external.
  destruct n as [nm a t d]; destruct t; destruct ty; cbn; split; intros Ht;
    try discriminate; try congruence; split; auto.
Qed.

Lemma define_label_code_or_external (hi addr : Z) (ty : label_type) (nm : string)
    (tbl : label_table) :
  ty <> LABEL_EXTERNAL ->
  (ty = LABEL_CODE -> INITIAL_IC <= addr < hi) ->
  Forall (code_or_external hi) tbl ->
  Forall (code_or_external hi) (snd (define_label tbl nm addr ty)).
Proof.
  intros Hext Hty H. unfold define_label.
  destruct (find_label tbl nm) as [existing |] eqn:Hfind.
  - destruct (is_defined existing); simpl; [assumption |].
    apply Forall_update_label; [| assumption].
    intros n _. now apply define_existing_code_or_external.
  - destruct (add_label_cases tbl nm addr ty) as [-> | ->].
    + rewrite Hfind. simpl. assumption.
    + unfold mark_label_defined, find_label. simpl. rewrite String.eqb_refl. simpl.
      constructor; [| assumption].
      split; cbn; intros Ht; [auto | congruence].
Qed.

Lemma set_type_entry_code_or_external (hi : Z) (n : label_node) :
  code_or_external hi (set_type LABEL_ENTRY n).
Proof. split; cbn; discriminate. Qed.

Lemma add_label_code_or_external (hi : Z) (ty : label_type) (nm : string)
    (tbl : label_table) :
  ty <> LABEL_CODE ->
  Forall (code_or_external hi) tbl ->
  Forall (code_or_external hi) (snd (add_label tbl nm 0 ty)).
Proof.
  intros Hty H. destruct (add_label_cases tbl nm 0 ty) as [-> | ->]; [assumption |].
  constructor; [| assumption]. split; cbn; intros Ht; [congruence | auto].
Qed.

Lemma extern_loop_code_or_external (hi : Z) (ops : list string) :
  forall tbl,
    Forall (code_or_external hi) tbl ->
    Forall (code_or_external hi) (snd (extern_loop ops tbl)).
Proof.
  induction ops as [| op ops IH]; intros tbl H; simpl; [assumption |].
  destruct (find_label tbl op) as [ex |].
  - destruct (is_defined ex); simpl; auto.
  - apply IH. apply add_label_code_or_external; [discriminate | assumption].
Qed.

Lemma entry_loop_code_or_external (hi : Z) (ops : list string) :
  forall tbl,
    Forall (code_or_external hi) tbl ->
    Forall (code_or_external hi) (entry_loop ops tbl).
Proof.
  induction ops as [| op ops IH]; intros tbl H; simpl; [assumption |].
  destruct (find_label tbl op) as [en |].
  - destruct (is_defined en).
    + destruct (negb (label_type_eqb (type en) LABEL_DATA)); apply IH; [| assumption].
      apply Forall_update_label; auto using set_type_entry_code_or_external.
    + apply IH. apply Forall_update_label; auto using set_type_entry_code_or_external.
  - apply IH. apply add_label_code_or_external; [discriminate | assumption].
Qed.

Lemma define_if_labelled_code_or_external (hi addr : Z) (ty : label_type)
    (parts : separate_line) (st : counters) :
  ty <> LABEL_EXTERNAL ->
  (ty = LABEL_CODE -> INITIAL_IC <= addr < hi) ->
  Forall (code_or_external hi) (table st) ->
  Forall (code_or_external hi) (snd (define_if_labelled parts st addr ty)).
Proof.
  intros Hext Hty H. unfold define_if_labelled.
  destruct (label parts); [now apply define_label_code_or_external | assumption].
Qed.

Lemma process_line_code_inv (line : string) (st : counters) :
  code_inv st -> code_inv (snd (process_line line st)).
Proof.
  intros (HIC & Htbl). unfold process_line.
  repeat break_match; simpl; try (split; assumption).
  all: split; simpl; try assumption.
  all: try (pose proof (estimate_ic_words_nonneg s); lia).
  all: try (apply entry_loop_code_or_external; assumption).
  all: try match goal with
           | H : extern_loop ?ops (table ?s0) = (_, ?l) |- Forall _ ?l =>
               pose proof (extern_loop_code_or_external (IC s0) ops (table s0) Htbl) as Hl;
               rewrite H in Hl; exact Hl
           end.
  all: try match goal with
           | H : define_if_labelled ?p ?s0 ?a LABEL_DATA = (_, ?l) |- Forall _ ?l =>
               pose proof (define_if_labelled_code_or_external (IC s0) a LABEL_DATA p s0) as Hd;
               rewrite H in Hd; apply Hd; [discriminate | discriminate | assumption]
           end.
  all: match goal with
       | H : define_if_labelled ?p ?s0 _ LABEL_CODE = (?ok, ?l), Hok : negb ?ok = true
         |- Forall _ ?l =>
           pose proof (define_if_labelled_failure p s0 (IC s0) LABEL_CODE) as Hd;
           rewrite H in Hd; cbn [fst snd] in Hd;
           apply negb_true_iff in Hok; rewrite (Hd Hok); assumption
       | H : define_if_labelled ?p ?s0 _ LABEL_CODE = (_, ?l), Hw : (_ =? 0) = false
         |- Forall _ ?l =>
           pose proof (estimate_ic_words_nonneg p); apply Z.eqb_neq in Hw;
           pose proof (define_if_labelled_code_or_external
                         (IC s0 + estimate_ic_words p) (IC s0) LABEL_CODE p s0) as Hd;
           rewrite H in Hd; apply Hd; [discriminate | intros _; lia |];
           apply (code_or_external_weaken (IC s0)); [lia | assumption]
       end.
Qed.

Lemma first_pass_loop_code_inv (lines : list string) :
  forall st has_errors,
    code_inv st -> code_inv (fst (first_pass_loop lines st has_errors)).
Proof.
  induction lines as [| line lines IH]; intros st has_errors Hinv; simpl; [assumption |].
  destruct (line_too_long line); [now apply IH |].
  pose proof (process_line_code_inv line st Hinv) as Hstep.
  destruct (process_line line st) as [ok st']. now apply IH.
Qed.

(** X30: Whatever the source file and whatever the outcome of the first pass, in
    the table it leaves every symbol of kind Code is defined and has its
    address in the code range, from 100 up to but excluding the final
    instruction counter, and every symbol of kind External is not defined
    and has address 0. *)
Theorem code_and_external_symbols (file : string) :
  let st := snd (first_pass_on_table file []) in
  INITIAL_IC <= IC st
  /\ Forall (fun n =>
               (type n = LABEL_CODE -> is_defined n = true /\ INITIAL_IC <= address n < IC st)
               /\ (type n = LABEL_EXTERNAL -> is_defined n = false /\ address n = 0))
       (table st).
Proof.
  cbv zeta. unfold first_pass_on_table.
  pose proof (first_pass_loop_code_inv (fgets_all MAX_LINE_LENGTH file)
                {| table := []; IC := INITIAL_IC; DC := INITIAL_DC |} false) as Hinv.
  destruct (first_pass_loop (fgets_all MAX_LINE_LENGTH file)
              {| table := []; IC := INITIAL_IC; DC := INITIAL_DC |} false)
    as [[tbl ic dc] has_errors].
  destruct Hinv as [HIC Htbl].
  { split; [cbn; lia | constructor]. }
  cbn [fst snd table IC DC] in *. split; [assumption |].
  destruct has_errors; cbn [negb]; [exact Htbl |].
  apply Forall_map. eapply Forall_impl; [| exact Htbl].
  intros n [Hc He]. unfold rebase.
  destruct n as [nm a t d]; destruct t; cbn in *; try (split; assumption).
  destruct d; cbn; split; discriminate.
Qed.
